(** * convert_to_classification: a shallow embedding and its properties

    The Python program [helpers/convert_to_classification.py] turns a
    detection dataset (images plus one label file per image) into a
    classification dataset laid out as [<output>/<split>/<class>/<file>].

    The development follows the source file top to bottom:
    - [PyStr], [OsPath], [PyFloat]: the parts of the Python runtime the
      program calls (string methods, [os.path], binary64 arithmetic);
    - the program's own functions, under their source names;
    - the properties of those functions.

    Strings are sequences of code points; the embedding covers the code
    points below 256, one [ascii] each. *)

From Stdlib Require Import ZArith Floats.SpecFloat Strings.Ascii Strings.String.
From stdpp Require Import gmap strings list pretty sorting.

Local Open Scope string_scope.
Local Open Scope list_scope.
Local Open Scope nat_scope.

(** ** Exceptions and results *)

(** The exceptions the modelled code can raise. *)
Inductive exn : Type :=
  | AttributeError
  | ValueError
  | OverflowError
  | FileNotFoundError
  | IndexError
  | OSError
  | YAMLError.

(** A computation either returns a value or raises. *)
Inductive res (A : Type) : Type :=
  | Ok (a : A)
  | Raise (e : exn).
Arguments Ok {A} a.
Arguments Raise {A} e.

Global Instance res_ret : MRet res := λ A a, Ok a.
Global Instance res_bind : MBind res := λ A B k m,
  match m with
  | Ok a => k a
  | Raise e => Raise e
  end.

(** ** Python string methods *)

Module PyStr.

(** The line feed, as a string. *)
Definition LF : string := String "010" "".

(** [str.isspace] on a single code point below 256. *)
Definition is_space (c : ascii) : bool :=
  let n := nat_of_ascii c in
  (((9 <=? n) && (n <=? 13)) || ((28 <=? n) && (n <=? 32))
   || (n =? 133) || (n =? 160))%nat.

Global Arguments is_space : simpl never.

(** [s.lstrip()] *)
Fixpoint lstrip (s : string) : string :=
  match s with
  | String c s' => if is_space c then lstrip s' else s
  | EmptyString => EmptyString
  end.

(** [s.rstrip()] *)
Fixpoint rstrip (s : string) : string :=
  match s with
  | String c s' =>
      match rstrip s' with
      | EmptyString => if is_space c then EmptyString else String c EmptyString
      | r => String c r
      end
  | EmptyString => EmptyString
  end.

(** [s.strip()] *)
Definition strip (s : string) : string := rstrip (lstrip s).

(** [s.split()]: maximal runs of non-space characters, in order.
    [cur] is the run being read. *)
Fixpoint split_go (cur : string) (s : string) : list string :=
  match s with
  | EmptyString => if decide (cur = "") then [] else [cur]
  | String c s' =>
      if is_space c
      then (if decide (cur = "") then split_go "" s' else cur :: split_go "" s')
      else split_go (cur +:+ String c "") s'
  end.

Definition split (s : string) : list string := split_go "" s.

(** [c.lower()] on a code point below 256: A-Z and the Latin-1 capitals. *)
Definition lower_char (c : ascii) : ascii :=
  let n := nat_of_ascii c in
  if (((65 <=? n) && (n <=? 90)) || ((192 <=? n) && (n <=? 214))
      || ((216 <=? n) && (n <=? 222)))%nat
  then ascii_of_nat (n + 32) else c.

Global Arguments lower_char : simpl never.

Fixpoint lower (s : string) : string :=
  match s with
  | String c s' => String (lower_char c) (lower s')
  | EmptyString => EmptyString
  end.

(** [s.startswith(p)] *)
Fixpoint startswith (s p : string) : bool :=
  match p, s with
  | EmptyString, _ => true
  | String a p', String b s' => bool_decide (a = b) && startswith s' p'
  | String _ _, EmptyString => false
  end.

(** [s[n:]] for [0 <= n] *)
Fixpoint str_drop (n : nat) (s : string) : string :=
  match n, s with
  | S n', String _ s' => str_drop n' s'
  | _, _ => s
  end.

(** [s[:n]] for [0 <= n] *)
Fixpoint str_take (n : nat) (s : string) : string :=
  match n, s with
  | S n', String c s' => String c (str_take n' s')
  | _, _ => EmptyString
  end.

(** [s.endswith(p)] *)
Definition endswith (s p : string) : bool :=
  (String.length p <=? String.length s)%nat
  && bool_decide (str_drop (String.length s - String.length p) s = p).

(** [s.replace(a, b)] for one-character [a] and [b]. *)
Fixpoint replace_char (a b : ascii) (s : string) : string :=
  match s with
  | String c s' => String (if decide (c = a) then b else c) (replace_char a b s')
  | EmptyString => EmptyString
  end.

(** [c in s] for a one-character [c]. *)
Fixpoint contains (c : ascii) (s : string) : bool :=
  match s with
  | String d s' => bool_decide (c = d) || contains c s'
  | EmptyString => false
  end.

(** [s.split(sep)] for a one-character [sep]: never empty. *)
Fixpoint split_on_go (sep : ascii) (cur : string) (s : string) : list string :=
  match s with
  | EmptyString => [cur]
  | String c s' =>
      if decide (c = sep) then cur :: split_on_go sep "" s'
      else split_on_go sep (cur +:+ String c "") s'
  end.

Definition split_on (sep : ascii) (s : string) : list string :=
  split_on_go sep "" s.

(** [s.split(sep, 1)] when [sep] occurs in [s]: the text before the first
    separator and the text after it. *)
Fixpoint split_once (sep : ascii) (s : string) : string * string :=
  match s with
  | EmptyString => ("", "")
  | String c s' =>
      if decide (c = sep) then ("", s')
      else let '(k, v) := split_once sep s' in (String c k, v)
  end.

(** [s.lstrip(chars)], [s.rstrip(chars)], [s.strip(chars)] *)
Fixpoint lstrip_chars (chars : string) (s : string) : string :=
  match s with
  | String c s' => if contains c chars then lstrip_chars chars s' else s
  | EmptyString => EmptyString
  end.

Fixpoint rstrip_chars (chars : string) (s : string) : string :=
  match s with
  | String c s' =>
      match rstrip_chars chars s' with
      | EmptyString => if contains c chars then EmptyString else String c EmptyString
      | r => String c r
      end
  | EmptyString => EmptyString
  end.

Definition strip_chars (chars : string) (s : string) : string :=
  rstrip_chars chars (lstrip_chars chars s).

(** [str(n)] for a non-negative integer. *)
Definition of_nat (n : nat) : string := pretty n.

(** Iterating over a text file opened with universal newlines: the
    lines, each ending in a line feed except perhaps the last. *)
Fixpoint lines_go (cur : string) (s : string) : list string :=
  match s with
  | EmptyString => if decide (cur = "") then [] else [cur]
  | String c s' =>
      if decide (c = "010"%char) then (cur +:+ LF) :: lines_go "" s'
      else if decide (c = "013"%char) then
        match s' with
        | String d s'' =>
            if decide (d = "010"%char) then (cur +:+ LF) :: lines_go "" s''
            else (cur +:+ LF) :: lines_go "" s'
        | EmptyString => [cur +:+ LF]
        end
      else lines_go (cur +:+ String c "") s'
  end.

Definition lines (s : string) : list string := lines_go "" s.

End PyStr.

(** ** [os.path] on POSIX *)

Module OsPath.
Import PyStr.

(** [s.rfind(c)] for a one-character [c]: the last index of [c], or -1. *)
Fixpoint rfind (c : ascii) (s : string) : Z :=
  match s with
  | EmptyString => (-1)%Z
  | String d s' =>
      let r := rfind c s' in
      if (0 <=? r)%Z then (r + 1)%Z
      else if decide (d = c) then 0%Z else (-1)%Z
  end.

(** [os.path.basename(p)] *)
Definition basename (p : string) : string :=
  str_drop (Z.to_nat (rfind "/" p + 1)) p.

(** Whether some character of [s] differs from [c]. *)
Fixpoint has_other (c : ascii) (s : string) : bool :=
  match s with
  | String d s' => negb (bool_decide (d = c)) || has_other c s'
  | EmptyString => false
  end.

(** [os.path.splitext(p)]: the extension starts at the last dot of the
    last component, unless only dots come before it in that component. *)
Definition splitext (p : string) : string * string :=
  let sepIndex := rfind "/" p in
  let dotIndex := rfind "." p in
  if (sepIndex <? dotIndex)%Z then
    let filenameIndex := Z.to_nat (sepIndex + 1) in
    if has_other "." (str_take (Z.to_nat dotIndex - filenameIndex) (str_drop filenameIndex p))
    then (str_take (Z.to_nat dotIndex) p, str_drop (Z.to_nat dotIndex) p)
    else (p, "")
  else (p, "").

(** One step of [os.path.join]: appending the component [b] to [path]. *)
Definition join2 (path b : string) : string :=
  if startswith b "/" then b
  else if bool_decide (path = "") || endswith path "/" then path +:+ b
  else path +:+ "/" +:+ b.

(** [os.path.join(a, *p)] *)
Definition join (a : string) (p : list string) : string :=
  fold_left join2 p a.

End OsPath.

(** ** Python floats: IEEE 754 binary64 *)

Module PyFloat.

Definition prec : Z := 53.
Definition emax : Z := 1024.

Definition float : Type := spec_float.

(** [float(n)] for a non-negative integer, rounding to nearest even;
    an integer too large for a float raises. *)
Definition of_nat (n : nat) : res float :=
  match binary_normalize prec emax (Z.of_nat n) 0 false with
  | S754_infinity _ => Raise OverflowError
  | x => Ok x
  end.

(** [x * y] *)
Definition mul (x y : float) : float := SFmul prec emax x y.

(** [int(x)]: truncation toward zero; NaN and the infinities raise. *)
Definition to_int (x : float) : res Z :=
  match x with
  | S754_nan => Raise ValueError
  | S754_infinity _ => Raise OverflowError
  | S754_zero _ => Ok 0%Z
  | S754_finite s m e => Ok (cond_Zopp s (Z.shiftl (Zpos m) e))
  end.

(** [n * x] for an integer [n] and a float [x] *)
Definition nat_mul (n : nat) (x : float) : res float :=
  fn ← of_nat n; Ok (mul fn x).

(** [x <= y] *)
Definition leb (x y : float) : bool := SFleb x y.

Definition zero : float := S754_zero false.
Definition one : float := S754_finite false 4503599627370496 (-52).

(** The largest integer not above the value of a finite float. *)
Definition floor (x : float) : Z :=
  match x with
  | S754_finite s m e =>
      if (0 <=? e)%Z then cond_Zopp s (Zpos m * 2 ^ e)
      else (cond_Zopp s (Zpos m) `div` 2 ^ (- e))%Z
  | _ => 0%Z
  end.

End PyFloat.

(** ** Python list slices *)

(** The bound [k] of a slice of a list of length [n], as Python clamps it. *)
Definition slice_index (n : nat) (k : Z) : nat :=
  if (k <? 0)%Z then Z.to_nat (Z.max 0 (Z.of_nat n + k)) else Z.to_nat k.

(** [l[:k]] *)
Definition slice_to {A} (l : list A) (k : Z) : list A :=
  take (slice_index (length l) k) l.

(** [l[k:]] *)
Definition slice_from {A} (l : list A) (k : Z) : list A :=
  drop (slice_index (length l) k) l.

(** ** The environment of a run *)

(** Values a YAML document can hold. [SOther] stands for any other scalar
    (a float, a date, ...) and carries its [str()] and its truth value. *)
Inductive scalar : Type :=
  | SNone
  | SBool (b : bool)
  | SInt (z : Z)
  | SStr (s : string)
  | SOther (str : string) (truth : bool).

Local Unset Elimination Schemes.
Inductive pyval : Type :=
  | VScalar (v : scalar)
  | VList (l : list pyval)
  | VDict (d : list (scalar * pyval)).
Local Set Elimination Schemes.

Global Instance scalar_eq_dec : EqDecision scalar.
Proof. solve_decision. Defined.

(** [str(k)] *)
Definition py_str (k : scalar) : string :=
  match k with
  | SNone => "None"
  | SBool true => "True"
  | SBool false => "False"
  | SInt z => pretty z
  | SStr s => s
  | SOther str _ => str
  end.

(** The truth value of an object, as [not x] and [if x] test it. *)
Definition truthy (v : pyval) : bool :=
  match v with
  | VScalar SNone => false
  | VScalar (SBool b) => b
  | VScalar (SInt z) => negb (z =? 0)%Z
  | VScalar (SStr s) => negb (bool_decide (s = ""))
  | VScalar (SOther _ t) => t
  | VList l => negb (bool_decide (l = []))
  | VDict d => negb (bool_decide (d = []))
  end.

(** What the run reads from its surroundings. Nothing here changes while
    the label files are scanned and the images located.
    - [os_walk top]: the pairs [(root, files)] that [os.walk(top)] yields,
      in its enumeration order (the directory lists are not used);
    - [os_isfile p]: [os.path.isfile(p)];
    - [open_read p]: the decoded text of the file at [p], or the exception
      that opening or decoding it raises;
    - [yaml_safe_load]: [yaml.safe_load] when PyYAML can be imported. *)
Record World : Type := {
  os_walk : string → list (string * list string);
  os_isfile : string → bool;
  open_read : string → res string;
  yaml_safe_load : option (string → res pyval);
}.

(** The module-wide random generator of [random]: its state, the state
    [random.seed(a)] installs, and [_randbelow(n)], which returns a number
    below its positive bound. *)
Class RandomGen : Type := {
  rng : Type;
  rng_seed : Z → rng;
  randbelow : rng → nat → nat * rng;
  randbelow_lt : ∀ s n, 0 < n → (randbelow s n).1 < n;
}.

(** ** The program *)

Import PyStr OsPath.

(** [IMG_EXTS] is a set of strings: membership does not depend on an
    order, iteration does, and the order of a set of strings is fixed only
    within one process. Functions that iterate over it take that order. *)
Definition IMG_EXTS : list string :=
  [".jpg"; ".jpeg"; ".png"; ".bmp"; ".tif"; ".tiff"].

Definition in_IMG_EXTS (ext : string) : bool := bool_decide (ext ∈ IMG_EXTS).

Section find_image.
Context (W : World) (ext_order : list string).

(** The inner loop of the recursive search: the files of one directory. *)
Fixpoint search_files (base root : string) (files : list string) : option string :=
  match files with
  | [] => None
  | f :: files' =>
      let '(name, ext) := splitext f in
      if bool_decide (name = base) && in_IMG_EXTS (lower ext)
      then Some (join root [f])
      else search_files base root files'
  end.

(** The outer loop of the recursive search. *)
Fixpoint search_walk (base : string) (w : list (string * list string)) : option string :=
  match w with
  | [] => None
  | (root, files) :: w' =>
      match search_files base root files with
      | Some p => Some p
      | None => search_walk base w'
      end
  end.

Definition find_image_for_label (label_path images_dir : string) : option string :=
  let base := (splitext (basename label_path)).1 in
  match List.find (λ ext, os_isfile W (join images_dir [base +:+ ext])) ext_order with
  | Some ext => Some (join images_dir [base +:+ ext])
  | None => search_walk base (os_walk W images_dir)
  end.
End find_image.

(** The loop of [parse_label_file] over the lines of the file. *)
Fixpoint parse_lines (ls : list string) (class_ids : list string) : res (list string) :=
  match ls with
  | [] => Ok class_ids
  | line :: rest =>
      let line := strip line in
      if decide (line = "") then parse_lines rest class_ids
      else
        match split line with
        | part0 :: _ => parse_lines rest (class_ids ++ [part0])
        | [] => Raise IndexError
        end
  end.

Definition parse_label_file (W : World) (label_path : string) : res (list string) :=
  content ← open_read W label_path;
  parse_lines (lines content) [].

(** *** Writing *)

(** The paths that exist, files and directories alike, each under the
    one string the run uses for it. *)
Abbreviation Files := (gset string).

(** The directories [os.makedirs(path)] makes sure of: [path] and what
    comes before each separator in it. The paths in existence are not
    told apart into files and directories, and making a directory never
    fails here: [os.makedirs(path, exist_ok=True)] raises when a regular
    file stands where a directory is needed, a case the model leaves out.
    What is proved of a completed run holds of the program; what is
    proved to complete, or to raise at a later step, takes the class
    directories to be makeable. *)
Fixpoint dir_prefixes (pre : string) (s : string) : list string :=
  match s with
  | EmptyString => [pre]
  | String c s' =>
      (if bool_decide (c = "/"%char) && negb (bool_decide (pre = "")) then [pre] else [])
      ++ dir_prefixes (pre +:+ String c "") s'
  end.

Definition ensure_dir (E : Files) (path : string) : Files :=
  E ∪ list_to_set (dir_prefixes "" path).

(** The [while] loop of [copy_image_to], which tries the suffixes
    [_i], [_(i+1)], ... in turn; [fuel] bounds the number of tries. *)
Fixpoint suffix_loop (E : Files) (dest_dir name ext : string) (fuel i : nat) : option string :=
  match fuel with
  | 0 => None
  | S fuel' =>
      let dest_path := join dest_dir [name +:+ "_" +:+ of_nat i +:+ ext] in
      if bool_decide (dest_path ∈ E) then suffix_loop E dest_dir name ext fuel' (S i)
      else Some dest_path
  end.

(** The destination [copy_image_to] settles on, given the paths that exist
    once the class directory is there. One more try than there are paths
    is always enough ([choose_dest_total]). *)
Definition choose_dest (E : Files) (dest_dir image_path : string) : option string :=
  let dest_path := join dest_dir [basename image_path] in
  if bool_decide (dest_path ∈ E) then
    let '(name, ext) := splitext (basename image_path) in
    suffix_loop E dest_dir name ext (S (size E)) 1
  else Some dest_path.

(** [copy_image_to]: returns the destination and the paths that exist
    afterwards. Copying or moving a source that does not exist raises. *)
Definition copy_image_to (E : Files) (output_dir split class_name image_path : string)
    (move : bool) : res (string * Files) :=
  let dest_dir := join output_dir [split; class_name] in
  let E1 := ensure_dir E dest_dir in
  match choose_dest E1 dest_dir image_path with
  | None => Raise OSError
  | Some dest_path =>
      if bool_decide (image_path ∈ E1) then
        if move then Ok (dest_path, (E1 ∖ {[image_path]}) ∪ {[dest_path]})
        else Ok (dest_path, E1 ∪ {[dest_path]})
      else Raise FileNotFoundError
  end.

(** *** The class mapping *)

(** A class mapping: from identifiers, as strings, to whatever the
    mapping file gave as their names. *)
Abbreviation ClassMap := (gmap string pyval).

(** [{str(i): names[i] for i in range(len(names))}] *)
Definition index_map (names : list pyval) : ClassMap :=
  list_to_map (imap (λ i v, (of_nat i, v)) names).

Definition load_classes_from_txt (W : World) (path : string) : res ClassMap :=
  content ← open_read W path;
  let names :=
    fold_left (λ (names : list string) line,
                 let s := strip line in
                 if decide (s = "") then names else (names ++ [s])%list)
              (lines content) [] in
  Ok (index_map (VScalar ∘ SStr <$> names)).

(** The two quote characters, single (39) and double (34). *)
Definition QUOTES : string := String "039" (String "034" "").

(** [x.strip().strip(QUOTES)] *)
Definition unquote (x : string) : string :=
  strip_chars QUOTES (strip x).

(** The line-based parser used when PyYAML is missing: the loop over the
    lines, with the variables [mapping] and [names_started]. (The source
    also assigns [list_mode], which it never reads.) *)
Fixpoint fallback_lines (ls : list string) (mapping : gmap string string)
    (names_started : bool) : gmap string string :=
  match ls with
  | [] => mapping
  | line :: rest =>
      let raw := rstrip_chars LF line in
      let line := strip raw in
      if decide (line = "") then fallback_lines rest mapping names_started
      else if startswith line "names:" then
        let rest_ := strip (str_drop (String.length "names:") line) in
        if startswith rest_ "[" && endswith rest_ "]" then
          let inner := str_take (String.length rest_ - 2) (str_drop 1 rest_) in
          let items :=
            unquote <$> List.filter (λ i, negb (bool_decide (strip i = "")))
                                    (split_on "," inner) in
          list_to_map (imap (λ i v, (of_nat i, v)) items)
        else fallback_lines rest mapping true
      else if names_started then
        if startswith line "-" then
          let val := unquote (str_drop 1 line) in
          let idx := size mapping in
          fallback_lines rest (<[of_nat idx := val]> mapping) names_started
        else if contains ":" line then
          let '(key, val) := split_once ":" line in
          let key := strip key in
          let val := unquote val in
          if decide (key = "") then fallback_lines rest mapping names_started
          else fallback_lines rest (<[key := val]> mapping) names_started
        else fallback_lines rest mapping names_started
      else fallback_lines rest mapping names_started
  end.

(** [d.get(k)] on a dictionary given as its items. *)
Definition dict_get (d : list (scalar * pyval)) (k : scalar) : option pyval :=
  snd <$> List.find (λ kv, bool_decide (kv.1 = k)) d.

Definition load_classes_from_yaml (W : World) (path : string) : res ClassMap :=
  match yaml_safe_load W with
  | Some safe_load =>
      content ← open_read W path;
      parsed ← safe_load content;
      if negb (truthy parsed) then Ok ∅
      else
        match parsed with
        | VDict d =>
            match dict_get d (SStr "names") with
            | Some (VDict names) =>
                Ok (fold_left (λ m kv, <[py_str kv.1 := kv.2]> m) names ∅)
            | Some (VList names) => Ok (index_map names)
            | _ => Ok ∅
            end
        | _ => Raise AttributeError
        end
  | None =>
      content ← open_read W path;
      Ok (VScalar ∘ SStr <$> fallback_lines (lines content) ∅ false)
  end.

(** The warnings [load_class_mapping] prints. *)
Inductive warning : Type :=
  | WarnNotFound (classes_path : string)
  | WarnTxtFailed (e : exn)
  | WarnYamlEmpty
  | WarnYamlFailed (e : exn)
  | WarnUnknownExt (ext : string).

(** [load_class_mapping]: the mapping and what was printed. Every
    exception of the two loaders is caught here. *)
Definition load_class_mapping (W : World) (classes_path : option string)
    : ClassMap * list warning :=
  match classes_path with
  | None => (∅, [])
  | Some classes_path =>
      if decide (classes_path = "") then (∅, [])
      else if negb (os_isfile W classes_path) then (∅, [WarnNotFound classes_path])
      else
        let ext := lower (splitext classes_path).2 in
        if bool_decide (ext = ".txt") then
          match load_classes_from_txt W classes_path with
          | Ok m => (m, [])
          | Raise e => (∅, [WarnTxtFailed e])
          end
        else if bool_decide (ext = ".yaml") || bool_decide (ext = ".yml") then
          match load_classes_from_yaml W classes_path with
          | Ok mapping =>
              if bool_decide (mapping = ∅) then (∅, [WarnYamlEmpty])
              else (mapping, [])
          | Raise e => (∅, [WarnYamlFailed e])
          end
        else (∅, [WarnUnknownExt ext])
  end.

(** *** [main] *)

Record Args : Type := {
  images_dir : string;
  labels_dir : string;
  output_dir : string;
  classes : option string;
  val_split : PyFloat.float;
  move : bool;
  force_first : bool;
  seed : Z;
}.

(** The label files: the walk over [labels_dir], keeping the names that
    end in [.txt] whatever their case. *)
Definition scan_labels (W : World) (labels_dir : string) : list string :=
  '(root, files) ← os_walk W labels_dir;
  f ← List.filter (λ f, endswith (lower f) ".txt") files;
  [join root [f]].

(** The variables of the selection loop. *)
Record Selection : Type := {
  samples : list (string * string);
  skipped : nat;
  multi : nat;
  missing_image : nat;
}.

Definition Selection_init : Selection :=
  {| samples := []; skipped := 0; multi := 0; missing_image := 0 |}.

(** The class name of a chosen identifier: the mapped name, or the
    identifier when the mapping has none; spaces become underscores. A
    mapped value that is not a string has no [replace]. *)
Definition resolve_class_name (class_map : ClassMap) (chosen : string) : res string :=
  let class_name :=
    match class_map !! chosen with
    | None | Some (VScalar SNone) => VScalar (SStr chosen)
    | Some v => v
    end in
  match class_name with
  | VScalar (SStr name) => Ok (replace_char " " "_" name)
  | _ => Raise AttributeError
  end.

(** The four updates the selection loop makes to its variables. *)
Definition count_skipped (st : Selection) : Selection :=
  {| samples := samples st; skipped := S (skipped st); multi := multi st;
     missing_image := missing_image st |}.

Definition count_multi (st : Selection) : Selection :=
  {| samples := samples st; skipped := skipped st; multi := S (multi st);
     missing_image := missing_image st |}.

Definition count_missing (st : Selection) : Selection :=
  {| samples := samples st; skipped := skipped st; multi := multi st;
     missing_image := S (missing_image st) |}.

Definition append_sample (st : Selection) (img class_name : string) : Selection :=
  {| samples := samples st ++ [(img, class_name)]; skipped := skipped st;
     multi := multi st; missing_image := missing_image st |}.

Section selection.
Context (W : World) (ext_order : list string) (args : Args) (class_map : ClassMap).

(** What the loop does once an identifier is chosen for the file [lf]. *)
Definition keep_chosen (st : Selection) (lf chosen : string) : res Selection :=
  match find_image_for_label W ext_order lf (images_dir args) with
  | None => Ok (count_missing st)
  | Some img =>
      class_name ← resolve_class_name class_map chosen;
      Ok (append_sample st img class_name)
  end.

(** The body of the selection loop for one label file. *)
Definition select_step (st : Selection) (lf : string) : res Selection :=
  class_ids ← parse_label_file W lf;
  match class_ids with
  | [] => Ok (count_skipped st)
  | first :: _ =>
      if 1 <? length class_ids then
        let st := count_multi st in
        if force_first args then keep_chosen st lf first
        else Ok st
      else keep_chosen st lf first
  end.

Fixpoint select_loop (label_files : list string) (st : Selection) : res Selection :=
  match label_files with
  | [] => Ok st
  | lf :: rest => st' ← select_step st lf; select_loop rest st'
  end.
End selection.

(** The summary printed after the selection: usable samples, skipped
    empty, skipped multi, missing images. *)
Record Summary : Type := {
  usable : nat;
  skipped_empty : nat;
  skipped_multi : nat;
  missing_images : nat;
}.

Definition summary (args : Args) (st : Selection) : Summary :=
  {| usable := length (samples st);
     skipped_empty := skipped st;
     skipped_multi := if negb (force_first args) then multi st else 0;
     missing_images := missing_image st |}.

(** [by_class[cname].append(img)] on a dictionary of lists that keeps
    its keys in the order of their first insertion. *)
Fixpoint by_class_append (by_class : list (string * list string)) (cname img : string)
    : list (string * list string) :=
  match by_class with
  | [] => [(cname, [img])]
  | (c, imgs) :: rest =>
      if decide (c = cname) then (c, imgs ++ [img]) :: rest
      else (c, imgs) :: by_class_append rest cname img
  end.

Definition group_by_class (samples : list (string * string)) : list (string * list string) :=
  fold_left (λ by_class '(img, cname), by_class_append by_class cname img) samples [].

(** [x[i], x[j] = x[j], x[i]] *)
Definition swap {A} (x : list A) (i j : nat) : list A :=
  match x !! i, x !! j with
  | Some xi, Some xj => <[j := xi]> (<[i := xj]> x)
  | _, _ => x
  end.

Section shuffle.
Context `{RandomGen} {A : Type}.

(** The loop of [random.shuffle]: [i] runs from [len(x) - 1] down to 1,
    and [j] is drawn below [i + 1]. *)
Fixpoint shuffle_loop (i : nat) (x : list A) (s : rng) : list A * rng :=
  match i with
  | 0 => (x, s)
  | S i' =>
      let '(j, s') := randbelow s (S i) in
      shuffle_loop i' (swap x i j) s'
  end.

Definition shuffle (x : list A) (s : rng) : list A * rng :=
  shuffle_loop (length x - 1) x s.
End shuffle.

(** One copy or move the run performed. *)
Record Copy : Type := {
  cp_split : string;
  cp_class : string;
  cp_src : string;
  cp_dest : string;
}.

(** What one class contributes to the distribution table. *)
Record ClassRow : Type := {
  row_class : string;
  row_total : nat;
  row_train : Z;
  row_val : Z;
}.

(** [int(n * val_split)] *)
Definition n_val_of (n : nat) (val_split : PyFloat.float) : res Z :=
  x ← PyFloat.nat_mul n val_split;
  PyFloat.to_int x.

(** One of the two inner loops: the images of one split of one class. *)
Fixpoint copy_all (args : Args) (split cname : string) (imgs : list string)
    (E : Files) (total_copied : nat) : res (list Copy * Files * nat) :=
  match imgs with
  | [] => Ok ([], E, total_copied)
  | im :: rest =>
      '(dest, E1) ← copy_image_to E (output_dir args) split cname im (move args);
      '(cs, E2, total) ← copy_all args split cname rest E1 (S total_copied);
      Ok ({| cp_split := split; cp_class := cname; cp_src := im; cp_dest := dest |} :: cs,
          E2, total)
  end.

Section write.
Context `{RandomGen} (args : Args).

(** The shuffle and the split of one class: the shuffled list, the
    train images, the validation images. *)
Definition split_class (imgs : list string) (s : rng)
    : res (list string * list string * list string * rng) :=
  let '(imgs, s') := shuffle imgs s in
  n_val ← n_val_of (length imgs) (val_split args);
  let val_imgs := slice_to imgs n_val in
  let train_imgs := slice_from imgs n_val in
  Ok (imgs, train_imgs, val_imgs, s').

(** The loop over the classes: shuffle, split, copy the train images,
    then the validation images. Returns the dictionary with its lists
    shuffled in place, the copies in the order performed, and the final
    values of the variables. *)
Fixpoint write_classes (by_class : list (string * list string)) (s : rng)
    (E : Files) (total_copied : nat)
    : res (list (string * list string) * list Copy * rng * Files * nat) :=
  match by_class with
  | [] => Ok ([], [], s, E, total_copied)
  | (cname, imgs) :: rest =>
      '(imgs', train_imgs, val_imgs, s1) ← split_class imgs s;
      '(cs1, E1, t1) ← copy_all args "train" cname train_imgs E total_copied;
      '(cs2, E2, t2) ← copy_all args "val" cname val_imgs E1 t1;
      '(by_class', cs, s', E', t') ← write_classes rest s1 E2 t2;
      Ok ((cname, imgs') :: by_class', cs1 ++ cs2 ++ cs, s', E', t')
  end.
End write.

(** The loop that prints the distribution table. *)
Fixpoint distribution (args : Args) (by_class : list (string * list string))
    : res (list ClassRow) :=
  match by_class with
  | [] => Ok []
  | (cname, imgs) :: rest =>
      let n_total := length imgs in
      n_val ← n_val_of n_total (val_split args);
      rows ← distribution args rest;
      Ok ({| row_class := cname; row_total := n_total;
             row_train := Z.of_nat n_total - n_val; row_val := n_val |} :: rows)
  end.

(** What a completed run printed and did. *)
Record Output : Type := {
  out_warnings : list warning;
  out_mapping_size : nat;
  out_found : nat;
  out_summary : Summary;
  out_distribution : list ClassRow;
  out_total_copied : nat;
  out_copies : list Copy;
  out_files : Files;
}.

Section main.
Context `{RandomGen} (W : World) (ext_order : list string).

(** The first half of [main], up to the summary line: the class
    mapping with its warnings, the label files, the selection. *)
Definition main_select (args : Args)
    : ClassMap * list warning * list string * res Selection :=
  let '(class_map, warnings) := load_class_mapping W (classes args) in
  let label_files := scan_labels W (labels_dir args) in
  (class_map, warnings, label_files,
   select_loop W ext_order args class_map label_files Selection_init).

(** [main(args)], started with the paths [E] in existence and the
    random generator in the state [ambient]. *)
Definition main (E : Files) (ambient : rng) (args : Args) : res Output :=
  let s := rng_seed (seed args) in
  let '(class_map, warnings, label_files, sel) := main_select args in
  st ← sel;
  let by_class := group_by_class (samples st) in
  '(by_class', copies, _, E', total_copied) ← write_classes args by_class s E 0;
  rows ← distribution args by_class';
  Ok {| out_warnings := warnings;
        out_mapping_size := size class_map;
        out_found := length label_files;
        out_summary := summary args st;
        out_distribution := rows;
        out_total_copied := total_copied;
        out_copies := copies;
        out_files := E' |}.
End main.

(** ** A concrete environment

    A linear congruential generator that meets the interface of
    [RandomGen], and a small dataset, for running the definitions. *)

Module Demo.

Definition lcg_next (s : nat) : nat := (s * 75 + 74) `mod` 257.

Definition lcg : RandomGen :=
  {| rng := nat;
     rng_seed := λ a, Z.to_nat (Z.abs a);
     randbelow := λ s n, (s `mod` n, lcg_next s);
     randbelow_lt := λ s n Hn,
       Nat.mod_upper_bound s n (proj2 (Nat.neq_0_lt_0 n) Hn) |}.

(** Floats: 0.0, 0.2, 0.3 and 0.5. *)
Definition f0_0 : PyFloat.float := S754_zero false.
Definition f0_2 : PyFloat.float := S754_finite false 7205759403792794 (-55).
Definition f0_3 : PyFloat.float := S754_finite false 5404319552844595 (-54).
Definition f0_5 : PyFloat.float := S754_finite false 4503599627370496 (-53).

(** Text files by path, for [open_read]. *)
Definition read_from (texts : list (string * string)) (p : string) : res string :=
  match List.find (λ kv, bool_decide (kv.1 = p)) texts with
  | Some kv => Ok kv.2
  | None => Raise FileNotFoundError
  end.

(** Directory trees by root, for [os.walk]. *)
Definition walk_from (trees : list (string * list (string * list string))) (top : string)
    : list (string * list string) :=
  match List.find (λ kv, bool_decide (kv.1 = top)) trees with
  | Some kv => kv.2
  | None => []
  end.

(** Every file the trees list. *)
Definition paths_of (trees : list (string * list (string * list string))) : list string :=
  '(_, t) ← trees; '(root, files) ← t; f ← files; [join root [f]].

Definition world (trees : list (string * list (string * list string)))
    (texts : list (string * string)) : World :=
  {| os_walk := walk_from trees;
     os_isfile := λ p, bool_decide (p ∈ paths_of trees ++ texts.*1);
     open_read := read_from texts;
     yaml_safe_load := None |}.

(** A flat images directory, with one image that [os.path.isfile] finds. *)
Definition W_flat : World :=
  {| os_walk := λ top, if decide (top = "imgs") then [("imgs", ["a.jpg"; "b.PNG"])] else [];
     os_isfile := λ p, bool_decide (p = "imgs/a.jpg");
     open_read := λ _, Raise FileNotFoundError;
     yaml_safe_load := None |}.

(** A dataset: seven label files, one of them with two identifiers,
    one blank, one without an image, and two of the same name. *)
Definition trees : list (string * list (string * list string)) :=
  [("labels", [("labels", ["a.txt"; "b.TXT"; "c.txt"; "notes.md"; "d.txt"; "e.txt"]);
               ("labels/s1", ["p.txt"]); ("labels/s2", ["p.txt"])]);
   ("images", [("images", ["a.jpg"; "e.jpg"]);
               ("images/sub", ["b.PNG"; "d.gif"; "p.jpeg"])])].

Definition texts : list (string * string) :=
  [("labels/a.txt", "2 0.1 0.2 0.3 0.4" +:+ LF);
   ("labels/b.TXT", "0 1 1 1 1" +:+ LF +:+ "1 2 2 2 2" +:+ LF);
   ("labels/c.txt", LF +:+ "  " +:+ LF);
   ("labels/d.txt", "1 2 2 2 2" +:+ LF);
   ("labels/e.txt", "0 1 1 1 1" +:+ LF);
   ("labels/s1/p.txt", "  0 1 1 1 1" +:+ LF);
   ("labels/s2/p.txt", "0 3 3 3 3");
   ("classes.txt", "cat" +:+ LF +:+ "dog" +:+ LF +:+ "sea bird" +:+ LF)].

Definition W : World := world trees texts.

Definition E : Files := list_to_set (paths_of trees).

Definition args : Args :=
  {| images_dir := "images"; labels_dir := "labels"; output_dir := "output";
     classes := Some "classes.txt"; val_split := f0_5; move := false;
     force_first := false; seed := 42 |}.

(** The same run with force-first on. *)
Definition args_ff : Args :=
  {| images_dir := "images"; labels_dir := "labels"; output_dir := "output";
     classes := Some "classes.txt"; val_split := f0_5; move := false;
     force_first := true; seed := 42 |}.

Definition no_output : Output :=
  {| out_warnings := []; out_mapping_size := 0; out_found := 0;
     out_summary := {| usable := 0; skipped_empty := 0; skipped_multi := 0;
                       missing_images := 0 |};
     out_distribution := []; out_total_copied := 0; out_copies := [];
     out_files := ∅ |}.

(** What the two runs give. *)
Definition selected : Selection :=
  Eval vm_compute in
    match (main_select W IMG_EXTS args).2 with
    | Ok st => st
    | Raise _ => Selection_init
    end.

Definition output : Output :=
  Eval vm_compute in
    match main (H:=lcg) W IMG_EXTS E 0 args with
    | Ok o => o
    | Raise _ => no_output
    end.

(** The first run again, with one of its destinations already there. *)
Definition E_again : Files := E ∪ {["output/train/sea_bird/a.jpg"]}.

Definition output_again : Output :=
  Eval vm_compute in
    match main (H:=lcg) W IMG_EXTS E_again 7 args with
    | Ok o => o
    | Raise _ => no_output
    end.

Definition output_ff : Output :=
  Eval vm_compute in
    match main (H:=lcg) W IMG_EXTS E 0 args_ff with
    | Ok o => o
    | Raise _ => no_output
    end.

End Demo.

(** ** What the specification says, in its own words *)

(** The first whitespace-delimited token of a line: skip the leading
    whitespace, then read up to the next whitespace. *)
Fixpoint token (s : string) : string :=
  match s with
  | String c s' => if is_space c then "" else String c (token s')
  | EmptyString => ""
  end.

Definition first_token (line : string) : string := token (lstrip line).

(** A blank line holds nothing but whitespace. *)
Fixpoint is_blank (line : string) : bool :=
  match line with
  | String c s' => is_space c && is_blank s'
  | EmptyString => true
  end.

(** The identifiers of a label file, as the specification words them: the
    first token of each non-blank line, in order. *)
Definition spec_identifiers (content : string) : list string :=
  first_token <$> List.filter (λ line, negb (is_blank line)) (lines content).

(** A file name matches a base name when its name without the extension
    is the base name and its extension is, whatever its case, one of the
    accepted ones. *)
Definition image_name_matches (base f : string) : Prop :=
  (splitext f).1 = base ∧ lower (splitext f).2 ∈ IMG_EXTS.



(** C7 as the claim words it: the copies of two runs with the same
    arguments over the same input trees are the same, even when the two
    runs do not find the same paths under the output directory. *)
Definition C7_as_stated : Prop :=
  ∀ (R : RandomGen) (W : World) (ext_order : list string) (args : Args)
    (E1 E2 : Files) (ambient1 ambient2 : rng) (o1 o2 : Output),
    (∀ p, startswith p (output_dir args) = false → p ∈ E1 ↔ p ∈ E2) →
    main W ext_order E1 ambient1 args = Ok o1 →
    main W ext_order E2 ambient2 args = Ok o2 →
    out_copies o1 = out_copies o2.

(** Every name of a class mapping is a string (or [None], which the
    selector takes for no name). *)
Definition names_are_strings (class_map : ClassMap) : Prop :=
  ∀ k v, class_map !! k = Some v →
         v = VScalar SNone ∨ ∃ name, v = VScalar (SStr name).

(** A validation fraction: a binary64 float between 0 and 1. *)
Definition is_fraction (f : PyFloat.float) : Prop :=
  valid_binary PyFloat.prec PyFloat.emax f = true
  ∧ PyFloat.leb PyFloat.zero f = true
  ∧ PyFloat.leb f PyFloat.one = true.

(** C1 as the claim words it: for a bucket and a fraction between 0 and
    1, the validation images are the first [floor(n * f)] shuffled items,
    the train images the rest, together they are the bucket, and no
    sample is in both splits, whatever the bucket holds. *)
Definition C1_as_stated : Prop :=
  ∀ (R : RandomGen) (args : Args) (imgs : list string) (s : rng),
    is_fraction (val_split args) →
    (Z.of_nat (length imgs) < 2 ^ 53)%Z →
    ∃ x shuffled train_imgs val_imgs s',
      PyFloat.nat_mul (length imgs) (val_split args) = Ok x
      ∧ split_class args imgs s = Ok (shuffled, train_imgs, val_imgs, s')
      ∧ val_imgs = take (Z.to_nat (PyFloat.floor x)) shuffled
      ∧ train_imgs = drop (Z.to_nat (PyFloat.floor x)) shuffled
      ∧ val_imgs ++ train_imgs ≡ₚ imgs
      ∧ ∀ im, ¬ (im ∈ val_imgs ∧ im ∈ train_imgs).

(** The number of identifiers of a label file; 0 when it cannot be read. *)
Definition n_ids (W : World) (lf : string) : nat :=
  match parse_label_file W lf with
  | Ok ids => length ids
  | Raise _ => 0
  end.

(** The four tallies of the selection: samples kept, empty files,
    multi-label files, missing images. *)
Definition tallies (st : Selection) : nat * nat * nat * nat :=
  (length (samples st), skipped st, multi st, missing_image st).

(** The paths that exist after one recorded copy or move, and after a
    sequence of them. *)
Definition apply_copy (args : Args) (E : Files) (c : Copy) : Files :=
  let E1 := ensure_dir E (join (output_dir args) [cp_split c; cp_class c]) in
  if move args then (E1 ∖ {[cp_src c]}) ∪ {[cp_dest c]} else E1 ∪ {[cp_dest c]}.

Definition files_after (args : Args) (E : Files) (cs : list Copy) : Files :=
  fold_left (apply_copy args) cs E.

(** No copy of a sequence overwrites: each destination is absent from the
    paths that exist when its turn comes, its class directory included. *)
Fixpoint no_overwrite (args : Args) (E : Files) (cs : list Copy) : Prop :=
  match cs with
  | [] => True
  | c :: cs' =>
      (cp_dest c ∉ ensure_dir E (join (output_dir args) [cp_split c; cp_class c]))
      ∧ no_overwrite args (apply_copy args E c) cs'
  end.

(** The split, class and source of a copy: the assignment of a sample. *)
Definition assigned (c : Copy) : string * string * string :=
  (cp_split c, cp_class c, cp_src c).

(** The assignment of every sample to a split, class by class: what the
    shuffles and the validation fraction decide, before anything is
    written. *)
Fixpoint assignment `{RandomGen} (args : Args) (by_class : list (string * list string))
    (s : rng) : res (list (string * string * string)) :=
  match by_class with
  | [] => Ok []
  | (cname, imgs) :: rest =>
      '(_, train_imgs, val_imgs, s1) ← split_class args imgs s;
      others ← assignment args rest s1;
      Ok (((λ im, ("train", cname, im)) <$> train_imgs)
          ++ ((λ im, ("val", cname, im)) <$> val_imgs) ++ others)
  end.

(** The number of images in a dictionary of classes. *)
Definition total_images (by_class : list (string * list string)) : nat :=
  sum_list (length ∘ snd <$> by_class).

(** The path tried by the suffix loop at [i]. *)
Definition suffix_path (dest_dir name ext : string) (i : nat) : string :=
  join dest_dir [name +:+ "_" +:+ of_nat i +:+ ext].

(** The path tried after [i - 1] collisions, for an image. *)
Definition suffixed (dest_dir image_path : string) (i : nat) : string :=
  let '(name, ext) := splitext (basename image_path) in
  join dest_dir [name +:+ "_" +:+ of_nat i +:+ ext].

(** ** Further definitions, for the properties at the end *)

(** The names a line-per-name file gives: its non-blank lines, stripped. *)
Definition txt_names (content : string) : list string :=
  strip <$> List.filter (λ line, negb (is_blank line)) (lines content).

(** Whether a line of a structured file opens the [names] field, as the
    line-based parser tests it. *)
Definition is_names_line (line : string) : bool :=
  startswith (strip (rstrip_chars LF line)) "names:".

(** Whether a line is an item of a dash list, and the value it holds. *)
Definition is_dash_line (line : string) : bool :=
  startswith (strip (rstrip_chars LF line)) "-".

Definition dash_value (line : string) : string :=
  unquote (str_drop 1 (strip (rstrip_chars LF line))).

(** Whether a [names:] line opens a block rather than holding an inline
    list. *)
Definition opens_block (line : string) : bool :=
  let rest_ := strip (str_drop (String.length "names:") (strip (rstrip_chars LF line))) in
  is_names_line line && negb (startswith rest_ "[" && endswith rest_ "]").

(** The items of an inline list [names: [a, b, c]], as the line-based
    parser reads them off the [names:] line. *)
Definition inline_items (line : string) : list string :=
  let rest_ := strip (str_drop (String.length "names:") (strip (rstrip_chars LF line))) in
  let inner := str_take (String.length rest_ - 2) (str_drop 1 rest_) in
  unquote <$> List.filter (λ i, negb (bool_decide (strip i = ""))) (split_on "," inner).

(** A line [key: value] that is neither a [names:] line nor a dash item,
    with the key and the value the line-based parser reads off it. *)
Definition entry_key (line : string) : string :=
  strip (split_once ":" (strip (rstrip_chars LF line))).1.

Definition entry_value (line : string) : string :=
  unquote (split_once ":" (strip (rstrip_chars LF line))).2.

Definition is_entry_line (line : string) : bool :=
  negb (is_names_line line) && negb (is_dash_line line)
  && contains ":" (strip (rstrip_chars LF line))
  && negb (bool_decide (entry_key line = "")).

(** The value a dictionary of names gives under the key [k] once its keys
    are turned into strings: that of the last item whose key prints as
    [k]. *)
Definition last_named (names : list (scalar * pyval)) (k : string) : option pyval :=
  snd <$> List.find (λ kv, bool_decide (py_str kv.1 = k)) (reverse names).

(** The images of the samples of one class, in the order of the samples. *)
Definition images_of_class (samples : list (string * string)) (cname : string) : list string :=
  (List.filter (λ s, bool_decide (s.2 = cname)) samples).*1.

(** Every copy of a sequence finds its source: the source is among the
    paths that exist when its turn comes, once its class directory is
    there. *)
Fixpoint sources_present (args : Args) (E : Files) (cs : list Copy) : Prop :=
  match cs with
  | [] => True
  | c :: cs' =>
      cp_src c ∈ ensure_dir E (join (output_dir args) [cp_split c; cp_class c])
      ∧ sources_present args (apply_copy args E c) cs'
  end.

(** Whether a path is left alone by a copy: it is neither the destination
    nor one of the directories made for it. *)
Definition untouched_by (args : Args) (p : string) (c : Copy) : Prop :=
  p ≠ cp_dest c
  ∧ p ∉ dir_prefixes "" (join (output_dir args) [cp_split c; cp_class c]).

(** The samples a dictionary of classes holds: each image with the name
    of its class. *)
Definition samples_of (by_class : list (string * list string)) : list (string * string) :=
  '(cname, imgs) ← by_class; (λ im, (im, cname)) <$> imgs.

(** The sample a copy was made for: its source and its class. *)
Definition sample_of (c : Copy) : string * string := (cp_src c, cp_class c).

(** More runs: a second dataset, for a run that moves the images (two
    label files, one image each), and the first dataset with a validation
    fraction that is not a number. *)
Module DemoMore.

Definition trees_move : list (string * list (string * list string)) :=
  [("labels", [("labels", ["a.txt"; "b.txt"])]);
   ("images", [("images", ["a.jpg"; "b.png"])])].

Definition texts_move : list (string * string) :=
  [("labels/a.txt", "0 0.1 0.2 0.3 0.4" +:+ LF);
   ("labels/b.txt", "1 0.5 0.5 0.2 0.2" +:+ LF)].

Definition W_move : World := Demo.world trees_move texts_move.

Definition E_move : Files := list_to_set (Demo.paths_of trees_move).

Definition args_move : Args :=
  {| images_dir := "images"; labels_dir := "labels"; output_dir := "output";
     classes := None; val_split := Demo.f0_5; move := true;
     force_first := false; seed := 42 |}.

Definition output_move : Output :=
  Eval vm_compute in
    match main (H:=Demo.lcg) W_move IMG_EXTS E_move 0 args_move with
    | Ok o => o
    | Raise _ => Demo.no_output
    end.

Definition args_nan : Args :=
  {| images_dir := "images"; labels_dir := "labels"; output_dir := "output";
     classes := None; val_split := S754_nan; move := false;
     force_first := false; seed := 42 |}.

End DemoMore.

(** The copies of a run that went to one split of one class. *)
Definition copies_of (cs : list Copy) (split cname : string) : list Copy :=
  List.filter (λ c, bool_decide (cp_split c = split) && bool_decide (cp_class c = cname)) cs.

(** The value a block of [key: value] lines gives under the key [k]:
    that of the last line with that key. *)
Definition last_entry (block : list string) (k : string) : option string :=
  entry_value <$> List.find (λ line, bool_decide (entry_key line = k)) (reverse block).

(** * Properties *)

(** ** Strings *)

Module PyStrFacts.

Lemma app_nil_l (s : string) : "" +:+ s = s.
Proof. reflexivity. Qed.

Lemma app_cons (c : ascii) (s t : string) : String c s +:+ t = String c (s +:+ t).
Proof. reflexivity. Qed.

Lemma app_nil_r (s : string) : s +:+ "" = s.
Proof. induction s as [|c s IH]; [done | by rewrite app_cons, IH]. Qed.

Lemma app_assoc (a b c : string) : (a +:+ b) +:+ c = a +:+ (b +:+ c).
Proof. induction a as [|x a IH]; [done | by rewrite !app_cons, IH]. Qed.

Lemma app_eq_nil (a b : string) : a +:+ b = "" → a = "" ∧ b = "".
Proof. destruct a; [tauto | discriminate]. Qed.

Lemma length_app (a b : string) :
  String.length (a +:+ b) = String.length a + String.length b.
Proof. induction a as [|x a IH]; [done | rewrite app_cons; simpl; by rewrite IH]. Qed.

Lemma lstrip_blank (s : string) : lstrip s = "" ↔ is_blank s = true.
Proof.
  induction s as [|c s IH]; simpl; [tauto |].
  destruct (is_space c); simpl; [exact IH |].
  split; discriminate.
Qed.

(** A left-stripped string is empty or starts with a non-space. *)
Lemma lstrip_head (s : string) :
  lstrip s = "" ∨ ∃ c r, lstrip s = String c r ∧ is_space c = false.
Proof.
  induction s as [|c s IH]; simpl; [by left |].
  destruct (is_space c) eqn:Hc; [exact IH |].
  right. eauto.
Qed.

Lemma rstrip_head (c : ascii) (r : string) :
  is_space c = false → ∃ r', rstrip (String c r) = String c r'.
Proof.
  intros Hc. simpl. destruct (rstrip r); [rewrite Hc |]; eauto.
Qed.

Lemma rstrip_nil_blank (s : string) : rstrip s = "" ↔ is_blank s = true.
Proof.
  induction s as [|c s IH]; simpl; [tauto |].
  destruct (rstrip s) eqn:Hr.
  - destruct (is_space c); simpl; [tauto |]. split; discriminate.
  - split; [discriminate |]. intros [_ Hb]%andb_true_iff.
    apply IH in Hb. discriminate.
Qed.

Lemma strip_nil_blank (s : string) : strip s = "" ↔ is_blank s = true.
Proof.
  unfold strip. rewrite <- lstrip_blank.
  destruct (lstrip_head s) as [-> | (c & r & -> & Hc)]; [done |].
  destruct (rstrip_head c r Hc) as [r' ->]. split; discriminate.
Qed.

Lemma token_rstrip (s : string) : token (rstrip s) = token s.
Proof.
  induction s as [|c s IH]; [done |]. simpl.
  destruct (is_space c) eqn:Hc.
  - destruct (rstrip s); simpl; by rewrite ?Hc.
  - destruct (rstrip s) eqn:Hr; simpl; rewrite Hc, <- IH; done.
Qed.

Lemma token_strip (s : string) : token (strip s) = first_token s.
Proof. apply token_rstrip. Qed.

(** The first item of [split]: once a token is under way, or the text
    starts with one, the list starts with that token. *)
Lemma split_go_head (s cur : string) :
  cur ≠ "" ∨ (∃ c r, s = String c r ∧ is_space c = false) →
  ∃ tl, split_go cur s = (cur +:+ token s) :: tl.
Proof.
  revert cur. induction s as [|c s IH]; intros cur Hcur; simpl.
  - destruct Hcur as [Hcur | (? & ? & ? & _)]; [| done].
    rewrite app_nil_r. destruct (decide (cur = "")); [done | eauto].
  - destruct (is_space c) eqn:Hc.
    + destruct Hcur as [Hcur | (? & ? & [= <- <-] & ?)]; [| congruence].
      rewrite app_nil_r. destruct (decide (cur = "")); [done | eauto].
    + destruct (IH (cur +:+ String c "")) as [tl ->].
      { left. intros [_ ?]%app_eq_nil. done. }
      rewrite app_assoc, app_cons, app_nil_l. eauto.
Qed.

Lemma split_strip_head (line : string) :
  strip line ≠ "" → ∃ tl, split (strip line) = first_token line :: tl.
Proof.
  intros Hne. unfold split.
  destruct (split_go_head (strip line) "") as [tl Htl].
  - right. unfold strip in *.
    destruct (lstrip_head line) as [Hl | (c & r & Hl & Hc)]; rewrite Hl in *; [done |].
    destruct (rstrip_head c r Hc) as [r' ->]. eauto.
  - exists tl. by rewrite Htl, token_strip.
Qed.

(** A token holds no whitespace, and so no space to replace. *)
Lemma token_no_space (s : string) : contains " " (token s) = false.
Proof.
  induction s as [|c s IH]; [done |]. simpl.
  destruct (is_space c) eqn:Hc; [done |]. simpl. rewrite IH.
  rewrite orb_false_r. apply bool_decide_eq_false. by intros <-.
Qed.

Lemma replace_char_absent (a b : ascii) (s : string) :
  contains a s = false → replace_char a b s = s.
Proof.
  induction s as [|c s IH]; [done |]. simpl.
  intros [Hc Hs]%orb_false_iff. apply bool_decide_eq_false in Hc.
  rewrite IH by done. destruct (decide (c = a)); congruence.
Qed.

End PyStrFacts.

(** ** The label parser *)

Lemma parse_lines_spec (ls acc : list string) :
  parse_lines ls acc
  = Ok (acc ++ (first_token <$> List.filter (λ line, negb (is_blank line)) ls)).
Proof.
  revert acc. induction ls as [|line ls IH]; intros acc; simpl.
  - by rewrite app_nil_r.
  - destruct (decide (strip line = "")) as [Hb | Hb].
    + apply PyStrFacts.strip_nil_blank in Hb. rewrite Hb. simpl. apply IH.
    + destruct (is_blank line) eqn:Hbl.
      { apply PyStrFacts.strip_nil_blank in Hbl. done. }
      destruct (PyStrFacts.split_strip_head line Hb) as [tl ->].
      rewrite IH. simpl. by rewrite <- app_assoc.
Qed.

Lemma parse_label_file_spec (W : World) (lf content : string) :
  open_read W lf = Ok content →
  parse_label_file W lf = Ok (spec_identifiers content).
Proof.
  intros Hr. unfold parse_label_file. rewrite Hr. simpl.
  rewrite parse_lines_spec. done.
Qed.

(** ** The selection loop *)

Lemma bind_Ok_inv {A B} (m : res A) (k : A → res B) (b : B) :
  m ≫= k = Ok b → ∃ a, m = Ok a ∧ k a = Ok b.
Proof. destruct m as [a | e]; [eauto | discriminate]. Qed.

Section selection_facts.
Context (W : World) (ext_order : list string) (args : Args) (class_map : ClassMap).

Local Abbreviation step := (select_step W ext_order args class_map).
Local Abbreviation loop := (select_loop W ext_order args class_map).
Local Abbreviation find_image lf := (find_image_for_label W ext_order lf (images_dir args)).

(** Each way a step can end. *)
Lemma select_step_empty st lf :
  parse_label_file W lf = Ok [] → step st lf = Ok (count_skipped st).
Proof. intros Hp. unfold select_step. by rewrite Hp. Qed.


Lemma keep_chosen_inv st lf chosen st' :
  keep_chosen W ext_order args class_map st lf chosen = Ok st' →
  (find_image lf = None ∧ st' = count_missing st)
  ∨ (∃ img cname, find_image lf = Some img
       ∧ resolve_class_name class_map chosen = Ok cname
       ∧ st' = append_sample st img cname).
Proof.
  unfold keep_chosen. destruct (find_image lf) as [img |].
  - intros (cname & Hr & [= <-])%bind_Ok_inv. right. eauto.
  - intros [= <-]. by left.
Qed.

(** Every step that returns went one of four ways. *)
Lemma select_step_inv st lf st' :
  step st lf = Ok st' →
  ∃ ids, parse_label_file W lf = Ok ids ∧
    ((ids = [] ∧ st' = count_skipped st)
     ∨ (2 ≤ length ids ∧ force_first args = false ∧ st' = count_multi st)
     ∨ (∃ chosen st1, head ids = Some chosen
          ∧ (length ids = 1 ∧ st1 = st
             ∨ 2 ≤ length ids ∧ force_first args = true ∧ st1 = count_multi st)
          ∧ (find_image lf = None ∧ st' = count_missing st1
             ∨ ∃ img cname, find_image lf = Some img
                 ∧ resolve_class_name class_map chosen = Ok cname
                 ∧ st' = append_sample st1 img cname))).
Proof.
  unfold select_step. intros (ids & Hp & Hk)%bind_Ok_inv.
  exists ids. split; [done |].
  destruct ids as [|first tl]; [left; by inversion Hk |]. right.
  destruct (Nat.ltb_spec 1 (length (first :: tl))) as [Hlen | Hlen].
  - destruct (force_first args) eqn:Hff.
    + right. exists first, (count_multi st). split; [done |].
      split; [right; done |]. by apply keep_chosen_inv.
    + left. by inversion Hk.
  - right. exists first, st. split; [done |].
    split; [left; simpl in *; split; [lia | done] |]. by apply keep_chosen_inv.
Qed.

(** The counter [multi] counts the files with two identifiers or more,
    whatever becomes of them afterwards. *)
Lemma select_step_multi st lf st' :
  step st lf = Ok st' →
  multi st' = multi st + (if 2 <=? n_ids W lf then 1 else 0).
Proof.
  intros (ids & Hp & Hc)%select_step_inv. unfold n_ids. rewrite Hp.
  destruct Hc as [[-> ->] | [(Hlen & _ & ->) | (chosen & st1 & Hhd & Hst1 & Hst')]].
  - simpl. lia.
  - destruct (Nat.leb_spec 2 (length ids)); [simpl; lia | lia].
  - assert (multi st' = multi st1) as ->.
    { destruct Hst' as [[_ ->] | (? & ? & _ & _ & ->)]; done. }
    destruct Hst1 as [[Hlen ->] | (Hlen & _ & ->)].
    + rewrite Hlen. simpl. lia.
    + destruct (Nat.leb_spec 2 (length ids)); [simpl; lia | lia].
Qed.

Lemma select_loop_multi lfs st st' :
  loop lfs st = Ok st' →
  multi st' = multi st + length (List.filter (λ lf, 2 <=? n_ids W lf) lfs).
Proof.
  revert st. induction lfs as [|lf lfs IH]; intros st; cbn [select_loop List.filter].
  - intros [= <-]. simpl. lia.
  - intros (st1 & Hs & Hl)%bind_Ok_inv.
    apply select_step_multi in Hs. apply IH in Hl. rewrite Hl, Hs.
    destruct (2 <=? n_ids W lf); cbn [length]; lia.
Qed.

(** With force-first off, a step adds one to exactly one of the four
    tallies: samples kept, empty files, multi-label files, missing
    images. *)
Lemma select_step_one_category st lf st' :
  force_first args = false → step st lf = Ok st' →
  let '(k, e, m, i) := tallies st in
  tallies st' = (S k, e, m, i) ∨ tallies st' = (k, S e, m, i)
  ∨ tallies st' = (k, e, S m, i) ∨ tallies st' = (k, e, m, S i).
Proof.
  intros Hff (ids & Hp & Hc)%select_step_inv. unfold tallies.
  destruct Hc as [[-> ->] | [(Hlen & _ & ->) | (chosen & st1 & Hhd & Hst1 & Hst')]].
  - right. by left.
  - right. right. by left.
  - destruct Hst1 as [[Hlen ->] | (_ & ? & _)]; [| congruence].
    destruct Hst' as [[_ ->] | (img & cname & _ & _ & ->)].
    + right. right. by right.
    + left. simpl. rewrite length_app. simpl. repeat f_equal. lia.
Qed.

Lemma select_loop_tally lfs st st' :
  force_first args = false → loop lfs st = Ok st' →
  length (samples st') + skipped st' + multi st' + missing_image st'
  = length lfs + (length (samples st) + skipped st + multi st + missing_image st).
Proof.
  intros Hff. revert st. induction lfs as [|lf lfs IH]; intros st; simpl.
  - by intros [= <-].
  - intros (st1 & Hs & Hl)%bind_Ok_inv.
    apply IH in Hl. rewrite Hl.
    pose proof (select_step_one_category st lf st1 Hff Hs) as Hcat.
    unfold tallies in Hcat.
    destruct Hcat as [Hc | [Hc | [Hc | Hc]]]; injection Hc as -> -> -> ->; lia.
Qed.
End selection_facts.

(** ** Slices, swaps and shuffles *)

Lemma slice_to_from {A} (l : list A) (k : Z) : slice_to l k ++ slice_from l k = l.
Proof. apply take_drop. Qed.

Lemma slice_index_in_range (n : nat) (k : Z) :
  (0 ≤ k ≤ Z.of_nat n)%Z → slice_index n k = Z.to_nat k.
Proof. intros Hk. unfold slice_index. destruct (Z.ltb_spec k 0); [lia | done]. Qed.

Lemma slice_lengths {A} (l : list A) (k : Z) :
  length (slice_to l k) + length (slice_from l k) = length l.
Proof. rewrite <- length_app, slice_to_from. done. Qed.

Lemma insert_head_perm {A} (l : list A) (k : nat) (a b : A) :
  l !! k = Some b → b :: <[k := a]> l ≡ₚ a :: l.
Proof.
  revert k. induction l as [|c l IH]; intros [|k] Hk; simplify_eq/=.
  - apply Permutation_swap.
  - rewrite Permutation_swap, (IH k Hk). apply Permutation_swap.
Qed.

Lemma swap_perm {A} (x : list A) (i j : nat) : swap x i j ≡ₚ x.
Proof.
  unfold swap.
  destruct (x !! i) as [xi |] eqn:Hi; [| done].
  destruct (x !! j) as [xj |] eqn:Hj; [| done].
  revert i j Hi Hj. induction x as [|a x IH]; intros [|i] [|j] Hi Hj; simplify_eq/=.
  - done.
  - by apply insert_head_perm.
  - by apply insert_head_perm.
  - by rewrite (IH i j).
Qed.

Section shuffle_facts.
Context `{RandomGen} {A : Type}.

Lemma shuffle_loop_perm (i : nat) (x : list A) (s : rng) :
  (shuffle_loop i x s).1 ≡ₚ x.
Proof.
  revert x s. induction i as [|i IH]; intros x s; simpl; [done |].
  destruct (randbelow s (S (S i))) as [j s'].
  rewrite IH. apply swap_perm.
Qed.

Lemma shuffle_perm (x : list A) (s : rng) : (shuffle x s).1 ≡ₚ x.
Proof. apply shuffle_loop_perm. Qed.

Lemma shuffle_length (x : list A) (s : rng) : length (shuffle x s).1 = length x.
Proof. by rewrite shuffle_perm. Qed.

(** The indices the loop swaps are those of items of the list. *)
Lemma shuffle_step_in_range (i : nat) (x : list A) (s : rng) :
  S i < length x →
  is_Some (x !! S i) ∧ is_Some (x !! (randbelow s (S (S i))).1).
Proof.
  intros Hi. pose proof (randbelow_lt s (S (S i)) ltac:(lia)).
  split; apply lookup_lt_is_Some; lia.
Qed.
End shuffle_facts.

(** ** Grouping by class *)

Lemma total_images_append (bc : list (string * list string)) (cname img : string) :
  total_images (by_class_append bc cname img) = S (total_images bc).
Proof.
  unfold total_images.
  induction bc as [|[c imgs] bc IH]; [done |].
  cbn [by_class_append]. destruct (decide (c = cname));
    rewrite !fmap_cons; cbn [sum_list compose snd].
  - rewrite length_app. simpl. lia.
  - rewrite IH. lia.
Qed.

Lemma total_images_group (samples : list (string * string)) :
  total_images (group_by_class samples) = length samples.
Proof.
  unfold group_by_class.
  assert (∀ bc, total_images
            (fold_left (λ by_class '(img, cname), by_class_append by_class cname img)
                       samples bc)
          = total_images bc + length samples) as Hgen.
  { induction samples as [|[img cname] samples IH]; intros bc; simpl; [lia |].
    rewrite IH, total_images_append. lia. }
  rewrite Hgen. done.
Qed.

Lemma by_class_append_elem (bc : list (string * list string)) (cname img c im : string) :
  (∃ imgs, (c, imgs) ∈ by_class_append bc cname img ∧ im ∈ imgs) →
  (∃ imgs, (c, imgs) ∈ bc ∧ im ∈ imgs) ∨ (c = cname ∧ im = img).
Proof.
  induction bc as [|[c0 imgs0] bc IH]; simpl.
  - intros (imgs & Hin & Him). apply list_elem_of_singleton in Hin as [= -> ->].
    apply list_elem_of_singleton in Him. by right.
  - destruct (decide (c0 = cname)) as [-> |].
    + intros (imgs & [[= -> ->] | Hin]%elem_of_cons & Him).
      * apply elem_of_app in Him as [Him | ->%list_elem_of_singleton]; [| by right].
        left. exists imgs0. split; [left | done].
      * left. exists imgs. split; [by right | done].
    + intros (imgs & [[= -> ->] | Hin]%elem_of_cons & Him).
      * left. exists imgs0. split; [left | done].
      * destruct IH as [(imgs' & ? & ?) | ?]; [eauto | | by right].
        left. exists imgs'. split; [by right | done].
Qed.

Lemma group_by_class_elem (samples : list (string * string)) (c im : string) (imgs : list string) :
  (c, imgs) ∈ group_by_class samples → im ∈ imgs → (im, c) ∈ samples.
Proof.
  unfold group_by_class. intros Hin Him.
  assert (∀ bc, (∃ imgs, (c, imgs) ∈
              fold_left (λ by_class '(img, cname), by_class_append by_class cname img)
                        samples bc ∧ im ∈ imgs) →
          (∃ imgs, (c, imgs) ∈ bc ∧ im ∈ imgs) ∨ (im, c) ∈ samples) as Hgen.
  { clear. induction samples as [|[img cname] samples IH]; intros bc; simpl; [by left |].
    intros [Hbc | Hs]%IH; [| right; by right].
    apply by_class_append_elem in Hbc as [? | [-> ->]]; [by left |]. right. left. }
  destruct (Hgen []) as [(? & Hnil & _) | ?]; [eauto | | done].
  by apply elem_of_nil in Hnil.
Qed.

(** ** Destination names *)

Lemma string_app_inv_tail (a b c : string) : a +:+ c = b +:+ c → a = b.
Proof.
  revert b. induction a as [|x a IH]; intros [|y b] Heq.
  - done.
  - apply (f_equal String.length) in Heq.
    rewrite !PyStrFacts.length_app in Heq. simpl in Heq. lia.
  - apply (f_equal String.length) in Heq.
    rewrite !PyStrFacts.length_app in Heq. simpl in Heq. lia.
  - rewrite !PyStrFacts.app_cons in Heq. injection Heq as -> Heq.
    f_equal. by apply IH.
Qed.

(** [join2] puts a prefix before its second argument, and the prefix
    depends only on the directory and on how the argument starts. *)
Lemma join2_prefix (d : string) (c : ascii) (r : string) :
  ∃ pre, ∀ r', join2 d (String c r') = pre +:+ String c r'.
Proof.
  unfold join2.
  destruct (decide (c = "/"%char)) as [-> | Hc].
  - exists "". intros r'. by destruct r'.
  - assert (∀ r', startswith (String c r') "/" = false) as Hs.
    { intros r'. simpl. rewrite bool_decide_eq_false_2; [done | congruence]. }
    destruct (bool_decide (d = "") || endswith d "/").
    + exists d. intros r'. by rewrite Hs.
    + exists (d +:+ "/"). intros r'. by rewrite Hs, PyStrFacts.app_assoc.
Qed.

Lemma join2_suffix_inj (d p e a b : string) :
  p ≠ "" → join2 d (p +:+ a +:+ e) = join2 d (p +:+ b +:+ e) → a = b.
Proof.
  intros Hp. destruct p as [|c p]; [done |].
  destruct (join2_prefix d c p) as [pre Hpre].
  rewrite !PyStrFacts.app_cons.
  destruct (join2_prefix d c "") as [pre' Hpre']. rewrite !Hpre'.
  intros Heq%(inj (String.app pre')). injection Heq as Heq.
  apply (inj (String.app p)) in Heq. by apply string_app_inv_tail in Heq.
Qed.

Section suffix_loop_facts.
Context (E : Files) (dest_dir name ext : string).

Local Abbreviation path := (suffix_path dest_dir name ext).

Lemma suffix_path_inj (i j : nat) : path i = path j → i = j.
Proof.
  unfold suffix_path. simpl. rewrite <- !(PyStrFacts.app_assoc name "_").
  intros Heq%join2_suffix_inj.
  - by apply (inj pretty) in Heq.
  - intros [_ ?]%PyStrFacts.app_eq_nil. done.
Qed.

Lemma suffix_loop_Some (fuel i : nat) (dest : string) :
  suffix_loop E dest_dir name ext fuel i = Some dest →
  ∃ k, k < fuel ∧ dest = path (i + k) ∧ (dest ∉ E) ∧ ∀ j, j < k → path (i + j) ∈ E.
Proof.
  revert i. induction fuel as [|fuel IH]; intros i; [done |].
  cbn [suffix_loop]. fold (path i). case_bool_decide as Hin.
  - intros (k & Hk & -> & Hfree & Hbelow)%IH.
    exists (S k). replace (i + S k) with (S i + k) by lia.
    split; [lia |]. split; [done |]. split; [done |].
    intros [|j] Hj; [by rewrite Nat.add_0_r |].
    replace (i + S j) with (S i + j) by lia. apply Hbelow. lia.
  - intros [= <-]. exists 0. rewrite Nat.add_0_r.
    split; [lia |]. split; [done |]. split; [done |]. intros j Hj. lia.
Qed.

Lemma suffix_loop_None (fuel i : nat) :
  suffix_loop E dest_dir name ext fuel i = None →
  ∀ k, k < fuel → path (i + k) ∈ E.
Proof.
  revert i. induction fuel as [|fuel IH]; intros i; [intros _ k Hk; lia |].
  cbn [suffix_loop]. fold (path i). case_bool_decide as Hin; [| done].
  intros Hnone [|k] Hk; [by rewrite Nat.add_0_r |].
  replace (i + S k) with (S i + k) by lia. apply (IH _ Hnone). lia.
Qed.

(** There are more names to try than paths in existence. *)
Lemma suffix_loop_total (i : nat) :
  is_Some (suffix_loop E dest_dir name ext (S (size E)) i).
Proof.
  destruct (suffix_loop E dest_dir name ext (S (size E)) i) eqn:Hl; [eauto |].
  exfalso. pose proof (suffix_loop_None _ _ Hl) as Hall.
  set (paths := (λ k, path (i + k)) <$> seq 0 (S (size E))).
  assert (NoDup paths) as Hnd.
  { apply NoDup_fmap_2_strong; [| apply NoDup_seq].
    intros a b _ _ Heq%suffix_path_inj. lia. }
  assert (list_to_set paths ⊆ E) as Hsub.
  { intros p (k & -> & Hk%elem_of_seq)%elem_of_list_to_set%list_elem_of_fmap.
    apply Hall. lia. }
  apply subseteq_size in Hsub. rewrite size_list_to_set in Hsub by done.
  unfold paths in Hsub. rewrite length_fmap, length_seq in Hsub. lia.
Qed.
End suffix_loop_facts.

Lemma choose_dest_total (E : Files) (dest_dir image_path : string) :
  is_Some (choose_dest E dest_dir image_path).
Proof.
  unfold choose_dest. case_bool_decide; [| eauto].
  destruct (splitext (basename image_path)). apply suffix_loop_total.
Qed.

(** The destination chosen is the natural name when it is free, and
    otherwise the first free name among the suffixed ones. *)
Lemma choose_dest_spec (E : Files) (dest_dir image_path dest : string) :
  choose_dest E dest_dir image_path = Some dest →
  (dest ∉ E) ∧
  let natural := join dest_dir [basename image_path] in
  ((natural ∉ E) ∧ dest = natural)
  ∨ (natural ∈ E ∧ ∃ i, 1 ≤ i ∧ dest = suffixed dest_dir image_path i
       ∧ ∀ j, 1 ≤ j < i → suffixed dest_dir image_path j ∈ E).
Proof.
  unfold choose_dest, suffixed. case_bool_decide as Hnat.
  - destruct (splitext (basename image_path)) as [name ext].
    intros (k & _ & -> & Hfree & Hbelow)%suffix_loop_Some.
    split; [done |]. right. split; [done |].
    exists (1 + k). split; [lia |]. split; [done |].
    intros j Hj. replace j with (1 + (j - 1)) by lia. apply Hbelow. lia.
  - intros [= <-]. split; [done |]. by left.
Qed.

Lemma copy_image_to_inv (E : Files) (out split cname img : string) (mv : bool)
    (dest : string) (E' : Files) :
  copy_image_to E out split cname img mv = Ok (dest, E') →
  let E1 := ensure_dir E (join out [split; cname]) in
  choose_dest E1 (join out [split; cname]) img = Some dest
  ∧ img ∈ E1
  ∧ E' = (if mv then (E1 ∖ {[img]}) ∪ {[dest]} else E1 ∪ {[dest]}).
Proof.
  unfold copy_image_to. cbv zeta.
  destruct (choose_dest _ _ img) as [d |]; [| done].
  case_bool_decide; [| done].
  destruct mv; intros [= <- <-]; done.
Qed.

Lemma ensure_dir_subseteq (E : Files) (path : string) : E ⊆ ensure_dir E path.
Proof. unfold ensure_dir. set_solver. Qed.

(** ** The copies of a run *)

Lemma files_after_app (args : Args) (E : Files) (cs1 cs2 : list Copy) :
  files_after args E (cs1 ++ cs2) = files_after args (files_after args E cs1) cs2.
Proof. apply fold_left_app. Qed.

Lemma no_overwrite_app (args : Args) (E : Files) (cs1 cs2 : list Copy) :
  no_overwrite args E (cs1 ++ cs2)
  ↔ no_overwrite args E cs1 ∧ no_overwrite args (files_after args E cs1) cs2.
Proof.
  revert E. induction cs1 as [|c cs1 IH]; intros E; simpl; [tauto |].
  rewrite IH. tauto.
Qed.

Lemma no_overwrite_lookup (args : Args) (E : Files) (cs : list Copy) (k : nat) (c : Copy) :
  no_overwrite args E cs → cs !! k = Some c →
  cp_dest c ∉ ensure_dir (files_after args E (take k cs))
                         (join (output_dir args) [cp_split c; cp_class c]).
Proof.
  revert E k. induction cs as [|c0 cs IH]; intros E [|k] Hno Hk; simplify_eq/=.
  - tauto.
  - apply IH; tauto.
Qed.

Lemma copy_all_trace (args : Args) (split cname : string) (imgs : list string)
    (E : Files) (t : nat) (cs : list Copy) (E' : Files) (t' : nat) :
  copy_all args split cname imgs E t = Ok (cs, E', t') →
  E' = files_after args E cs
  ∧ t' = t + length imgs
  ∧ assigned <$> cs = (λ im, (split, cname, im)) <$> imgs
  ∧ no_overwrite args E cs.
Proof.
  revert E t cs E' t'. induction imgs as [|im imgs IH]; intros E t cs E' t'.
  - intros [= <- <- <-]. simpl. repeat split; lia.
  - cbn [copy_all].
    intros ([dest E1] & Hc & ([[cs1 E2] t2] & Hrest & [= <- <- <-])%bind_Ok_inv)%bind_Ok_inv.
    apply copy_image_to_inv in Hc as (Hd & _ & HE1).
    apply IH in Hrest as (-> & -> & Hkeys & Hno).
    assert (apply_copy args E
              {| cp_split := split; cp_class := cname; cp_src := im; cp_dest := dest |}
            = E1) as Happly.
    { unfold apply_copy. simpl. by rewrite HE1. }
    repeat split.
    + simpl. by rewrite Happly.
    + simpl. lia.
    + rewrite !fmap_cons. by rewrite Hkeys.
    + by apply choose_dest_spec in Hd as [? _].
    + by rewrite Happly.
Qed.

Section write_facts.
Context `{RandomGen} (args : Args).

Lemma split_class_inv (imgs : list string) (s : rng)
    (imgs' train_imgs val_imgs : list string) (s1 : rng) :
  split_class args imgs s = Ok (imgs', train_imgs, val_imgs, s1) →
  imgs' = (shuffle imgs s).1 ∧ s1 = (shuffle imgs s).2
  ∧ ∃ n_val, n_val_of (length imgs') (val_split args) = Ok n_val
      ∧ val_imgs = slice_to imgs' n_val ∧ train_imgs = slice_from imgs' n_val.
Proof.
  unfold split_class. destruct (shuffle imgs s) as [sh s'].
  intros (n_val & Hn & [= <- <- <- <-])%bind_Ok_inv. eauto 10.
Qed.

Lemma write_classes_trace (by_class : list (string * list string)) (s : rng)
    (E : Files) (t : nat) by_class' (cs : list Copy) (s' : rng) (E' : Files) (t' : nat) :
  write_classes args by_class s E t = Ok (by_class', cs, s', E', t') →
  E' = files_after args E cs
  ∧ t' = t + total_images by_class
  ∧ length cs = total_images by_class
  ∧ assignment args by_class s = Ok (assigned <$> cs)
  ∧ no_overwrite args E cs
  ∧ Forall2 (λ x y, x.1 = y.1 ∧ y.2 ≡ₚ x.2) by_class by_class'.
Proof.
  revert s E t by_class' cs s' E' t'.
  induction by_class as [|[cname imgs] by_class IH]; intros s E t by_class' cs s' E' t'.
  - intros [= <- <- <- <- <-]. unfold total_images. simpl. repeat split; [lia | constructor].
  - cbn [write_classes assignment].
    intros ([[[imgs' tr] va] s1] & Hsplit & Hk)%bind_Ok_inv.
    apply bind_Ok_inv in Hk as ([[cs1 E1] t1] & Htr & Hk).
    apply bind_Ok_inv in Hk as ([[cs2 E2] t2] & Hva & Hk).
    apply bind_Ok_inv in Hk as ([[[[bc' cs3] s3] E3] t3] & Hrest & [= <- <- <- <- <-]).
    rewrite Hsplit. cbn [mbind res_bind].
    apply split_class_inv in Hsplit as (-> & -> & n_val & Hn & -> & ->).
    apply copy_all_trace in Htr as (-> & -> & Hk1 & Hno1).
    apply copy_all_trace in Hva as (-> & -> & Hk2 & Hno2).
    apply IH in Hrest as (-> & -> & Hlen & Hassign & Hno3 & Hbc).
    rewrite Hassign. cbn [mbind res_bind].
    assert (length cs1 = length (slice_from (shuffle imgs s).1 n_val)) as Hl1.
    { by rewrite <- (length_fmap assigned), Hk1, length_fmap. }
    assert (length cs2 = length (slice_to (shuffle imgs s).1 n_val)) as Hl2.
    { by rewrite <- (length_fmap assigned), Hk2, length_fmap. }
    pose proof (slice_lengths (shuffle imgs s).1 n_val) as Hsl.
    rewrite shuffle_length in Hsl.
    assert (total_images ((cname, imgs) :: by_class) = length imgs + total_images by_class)
      as Htot by done.
    repeat split.
    + by rewrite !files_after_app.
    + lia.
    + rewrite !length_app. lia.
    + by rewrite !fmap_app, Hk1, Hk2.
    + rewrite !no_overwrite_app. done.
    + constructor; [| done]. split; [done |]. apply shuffle_perm.
Qed.
End write_facts.

(** ** The run as a whole *)

Section main_facts.
Context `{RandomGen} (W : World) (ext_order : list string).

(** What a completed run went through. *)
Lemma main_inv (E : Files) (ambient : rng) (args : Args) (o : Output) :
  main W ext_order E ambient args = Ok o →
  ∃ st by_class' s',
    select_loop W ext_order args (load_class_mapping W (classes args)).1
                (scan_labels W (labels_dir args)) Selection_init = Ok st
    ∧ write_classes args (group_by_class (samples st)) (rng_seed (seed args)) E 0
      = Ok (by_class', out_copies o, s', out_files o, out_total_copied o)
    ∧ out_warnings o = (load_class_mapping W (classes args)).2
    ∧ out_found o = length (scan_labels W (labels_dir args))
    ∧ out_summary o = summary args st.
Proof.
  unfold main, main_select.
  destruct (load_class_mapping W (classes args)) as [cm ws].
  intros (st & Hsel & Hk)%bind_Ok_inv.
  apply bind_Ok_inv in Hk as ([[[[bc' cs] s'] E'] t'] & Hw & Hk).
  apply bind_Ok_inv in Hk as (rows & _ & [= <-]).
  exists st, bc', s'. simpl. done.
Qed.

Lemma main_select_eq (args : Args) :
  main_select W ext_order args
  = ((load_class_mapping W (classes args)).1,
     (load_class_mapping W (classes args)).2,
     scan_labels W (labels_dir args),
     select_loop W ext_order args (load_class_mapping W (classes args)).1
                 (scan_labels W (labels_dir args)) Selection_init).
Proof. unfold main_select. by destruct (load_class_mapping W (classes args)). Qed.
End main_facts.

(** C6. The multi-label count of the summary line is 0 under force-first;
    otherwise it is the number of label files with two identifiers or
    more, whatever the image tree holds for them. The summary line is
    printed once the selection returns; the same holds of the summary of
    a completed run. *)
Theorem C6_reported_multi_count `{RandomGen} (W : World) (ext_order : list string)
    (args : Args) (class_map : ClassMap) (warnings : list warning)
    (label_files : list string) (st : Selection) :
  main_select W ext_order args = (class_map, warnings, label_files, Ok st) →
  skipped_multi (summary args st)
  = (if force_first args then 0
     else length (List.filter (λ lf, 2 <=? n_ids W lf) label_files))
  ∧ ∀ E ambient o,
      main W ext_order E ambient args = Ok o →
      skipped_multi (out_summary o)
      = (if force_first args then 0
         else length (List.filter (λ lf, 2 <=? n_ids W lf) label_files)).
Proof.
  rewrite main_select_eq. intros [= <- <- <- Hsel].
  assert (skipped_multi (summary args st)
          = (if force_first args then 0
             else length (List.filter (λ lf, 2 <=? n_ids W lf)
                                      (scan_labels W (labels_dir args))))) as Hm.
  { unfold summary. simpl. destruct (force_first args); [done |]. simpl.
    apply select_loop_multi in Hsel. simpl in Hsel. done. }
  split; [done |].
  intros E ambient o (st' & _ & _ & Hsel' & _ & _ & _ & ->)%main_inv.
  rewrite Hsel in Hsel'. by injection Hsel' as <-.
Qed.

(** C10. With force-first off, every label file found adds one to exactly
    one of the four tallies (kept, empty, multi-label, missing image), so
    the number of label files found is the sum of the four numbers of the
    summary; and the total of files copied or moved is the number of
    samples kept. *)
Theorem C10_every_label_file_counted_once `{RandomGen} (W : World)
    (ext_order : list string) (E : Files) (ambient : rng) (args : Args) (o : Output) :
  force_first args = false →
  main W ext_order E ambient args = Ok o →
  out_found o
  = usable (out_summary o) + skipped_empty (out_summary o)
    + skipped_multi (out_summary o) + missing_images (out_summary o)
  ∧ out_total_copied o = usable (out_summary o)
  ∧ length (out_copies o) = usable (out_summary o)
  ∧ ∀ class_map st lf st',
      select_step W ext_order args class_map st lf = Ok st' →
      let '(k, e, m, i) := tallies st in
      tallies st' = (S k, e, m, i) ∨ tallies st' = (k, S e, m, i)
      ∨ tallies st' = (k, e, S m, i) ∨ tallies st' = (k, e, m, S i).
Proof.
  intros Hff (st & bc' & s' & Hsel & Hw & _ & Hfound & Hsum)%main_inv.
  apply select_loop_tally in Hsel; [| done].
  apply write_classes_trace in Hw as (_ & Ht & Hlen & _).
  rewrite total_images_group in Ht, Hlen.
  rewrite Hfound, Hsum. unfold summary. simpl. rewrite Hff. simpl in *.
  repeat split; [lia | lia | lia |].
  intros class_map st0 lf st'. by apply select_step_one_category.
Qed.

Lemma C6_reported_multi_count_witness :
  main_select Demo.W IMG_EXTS Demo.args
  = ((main_select Demo.W IMG_EXTS Demo.args).1.1.1,
     (main_select Demo.W IMG_EXTS Demo.args).1.1.2,
     (main_select Demo.W IMG_EXTS Demo.args).1.2, Ok Demo.selected)
  ∧ skipped_multi (summary Demo.args Demo.selected) = 1.
Proof.
  assert (main_select Demo.W IMG_EXTS Demo.args
          = ((main_select Demo.W IMG_EXTS Demo.args).1.1.1,
             (main_select Demo.W IMG_EXTS Demo.args).1.1.2,
             (main_select Demo.W IMG_EXTS Demo.args).1.2, Ok Demo.selected)) as Hsel.
  { vm_compute. reflexivity. }
  split; [exact Hsel |].
  destruct (C6_reported_multi_count (H:=Demo.lcg) _ _ _ _ _ _ _ Hsel) as [-> _].
  vm_compute. reflexivity.
Defined.

Lemma C10_every_label_file_counted_once_witness :
  main (H:=Demo.lcg) Demo.W IMG_EXTS Demo.E 0 Demo.args = Ok Demo.output
  ∧ out_found Demo.output = 7
  ∧ out_total_copied Demo.output = usable (out_summary Demo.output).
Proof.
  assert (main (H:=Demo.lcg) Demo.W IMG_EXTS Demo.E 0 Demo.args = Ok Demo.output) as Hmain.
  { vm_compute. reflexivity. }
  split; [exact Hmain |].
  destruct (C10_every_label_file_counted_once (H:=Demo.lcg) Demo.W IMG_EXTS Demo.E 0
              Demo.args Demo.output eq_refl Hmain)
    as (Hfound & Htotal & _).
  split; [| exact Htotal]. vm_compute. reflexivity.
Defined.

(** ** The sample selector *)


Lemma parse_label_file_inv (W : World) (lf : string) (ids : list string) :
  parse_label_file W lf = Ok ids →
  ∃ content, open_read W lf = Ok content ∧ ids = spec_identifiers content.
Proof.
  unfold parse_label_file. intros (content & Hr & Hp)%bind_Ok_inv.
  exists content. split; [done |].
  rewrite parse_lines_spec in Hp. by injection Hp as <-.
Qed.

(** An identifier read from a label file holds no space. *)
Lemma parse_label_file_no_space (W : World) (lf : string) (ids : list string) (id : string) :
  parse_label_file W lf = Ok ids → id ∈ ids → contains " " id = false.
Proof.
  intros (content & _ & ->)%parse_label_file_inv.
  unfold spec_identifiers. intros (line & -> & _)%list_elem_of_fmap.
  apply PyStrFacts.token_no_space.
Qed.

Lemma resolve_class_name_inv (class_map : ClassMap) (chosen cname : string) :
  resolve_class_name class_map chosen = Ok cname →
  (∀ name, class_map !! chosen = Some (VScalar (SStr name)) →
           cname = replace_char " " "_" name)
  ∧ (class_map !! chosen = None → cname = replace_char " " "_" chosen).
Proof.
  unfold resolve_class_name. intros Hr. split.
  - intros name Hl. rewrite Hl in Hr. by injection Hr as <-.
  - intros Hl. rewrite Hl in Hr. by injection Hr as <-.
Qed.

(** C9. The label parser returns the first whitespace-delimited token of
    each non-blank line, in order. A label file with no non-blank line
    makes the selector add one to the empty-skip counter and nothing
    else: no sample, and a result that owes nothing to the image tree
    (the same in every environment that gives the file this content). *)
Theorem C9_parser_and_empty_skip (W : World) (lf content : string) :
  open_read W lf = Ok content →
  parse_label_file W lf = Ok (spec_identifiers content)
  ∧ (spec_identifiers content = [] →
     ∀ ext_order args class_map st,
       select_step W ext_order args class_map st lf = Ok (count_skipped st)
       ∧ samples (count_skipped st) = samples st
       ∧ skipped (count_skipped st) = S (skipped st)
       ∧ ∀ W' ext_order' args' class_map',
           open_read W' lf = Ok content →
           select_step W' ext_order' args' class_map' st lf = Ok (count_skipped st)).
Proof.
  intros Hr. split; [by apply parse_label_file_spec |].
  intros Hnil ext_order args class_map st.
  split; [| split; [done | split; [done |]]].
  - apply select_step_empty. by rewrite (parse_label_file_spec _ _ _ Hr), Hnil.
  - intros W' ext_order' args' class_map' Hr'.
    apply select_step_empty. by rewrite (parse_label_file_spec _ _ _ Hr'), Hnil.
Qed.

Lemma C9_parser_and_empty_skip_witness :
  open_read Demo.W "labels/c.txt" = Ok (LF +:+ "  " +:+ LF)
  ∧ parse_label_file Demo.W "labels/c.txt" = Ok []
  ∧ select_step Demo.W IMG_EXTS Demo.args ∅ Selection_init "labels/c.txt"
    = Ok (count_skipped Selection_init).
Proof.
  assert (open_read Demo.W "labels/c.txt" = Ok (LF +:+ "  " +:+ LF)) as Hr
    by reflexivity.
  destruct (C9_parser_and_empty_skip Demo.W "labels/c.txt" _ Hr) as [Hp Hs].
  split; [exact Hr |]. split; [exact Hp |].
  exact (proj1 (Hs eq_refl IMG_EXTS Demo.args ∅ Selection_init)).
Defined.





(** Force-first on, an image found, and a number for a name: the step
    raises. *)
Example force_first_number_name :
  select_step
    {| os_walk := λ _, [("imgs", ["x.jpg"])]; os_isfile := λ _, false;
       open_read := λ _, Ok ("0 a" +:+ LF +:+ "1 b" +:+ LF);
       yaml_safe_load := None |}
    IMG_EXTS Demo.args_ff {["0" := VScalar (SInt 0)]} Selection_init "l/x.txt"
  = Raise AttributeError.
Proof. vm_compute. reflexivity. Qed.

(** ** Class names *)

Section class_names.
Context (W : World) (ext_order : list string) (args : Args) (class_map : ClassMap).

(** A sample kept by a step: where its image and its class name come from. *)
Lemma select_step_kept st lf st' img cname :
  select_step W ext_order args class_map st lf = Ok st' →
  samples st' = samples st ++ [(img, cname)] →
  ∃ ids chosen,
    parse_label_file W lf = Ok ids ∧ head ids = Some chosen
    ∧ find_image_for_label W ext_order lf (images_dir args) = Some img
    ∧ resolve_class_name class_map chosen = Ok cname.
Proof.
  intros (ids & Hp & Hc)%select_step_inv Hs. exists ids.
  assert (∀ l : list (string * string), l ≠ l ++ [(img, cname)]) as Hne.
  { intros l Heq%(f_equal length). rewrite length_app in Heq. simpl in Heq. lia. }
  destruct Hc as [[-> ->] | [(_ & _ & ->) | (chosen & st1 & Hhd & Hst1 & Hst')]].
  - by apply Hne in Hs.
  - by apply Hne in Hs.
  - assert (samples st1 = samples st) as Hs1.
    { destruct Hst1 as [[_ ->] | (_ & _ & ->)]; done. }
    destruct Hst' as [[_ ->] | (img' & cname' & Hf & Hres & ->)].
    + simpl in Hs. rewrite Hs1 in Hs. by apply Hne in Hs.
    + simpl in Hs. rewrite Hs1 in Hs. apply app_inv_head in Hs.
      injection Hs as -> ->. eauto 10.
Qed.

Lemma select_step_samples st lf st' :
  select_step W ext_order args class_map st lf = Ok st' →
  samples st' = samples st
  ∨ ∃ img cname, samples st' = samples st ++ [(img, cname)].
Proof.
  intros (ids & Hp & Hc)%select_step_inv.
  destruct Hc as [[-> ->] | [(_ & _ & ->) | (chosen & st1 & Hhd & Hst1 & Hst')]];
    [by left | by left |].
  assert (samples st1 = samples st) as Hs1.
  { destruct Hst1 as [[_ ->] | (_ & _ & ->)]; done. }
  destruct Hst' as [[_ ->] | (img' & cname' & Hf & Hres & ->)].
  - by left.
  - right. exists img', cname'. simpl. by rewrite Hs1.
Qed.

(** Every sample the loop adds comes from one of its label files. *)
Lemma select_loop_origin lfs st st' img cname :
  select_loop W ext_order args class_map lfs st = Ok st' →
  (img, cname) ∈ samples st' →
  (img, cname) ∈ samples st
  ∨ ∃ lf ids chosen,
      lf ∈ lfs ∧ parse_label_file W lf = Ok ids ∧ head ids = Some chosen
      ∧ find_image_for_label W ext_order lf (images_dir args) = Some img
      ∧ resolve_class_name class_map chosen = Ok cname.
Proof.
  revert st. induction lfs as [|lf lfs IH]; intros st; cbn [select_loop].
  - intros [= <-] ?. by left.
  - intros (st1 & Hs & Hl)%bind_Ok_inv Hin.
    destruct (IH _ Hl Hin) as [Hin1 | (lf' & ids & chosen & ? & ?)].
    + destruct (select_step_samples _ _ _ Hs) as [Heq | (img' & cname' & Heq)].
      * left. by rewrite <- Heq.
      * rewrite Heq in Hin1.
        apply elem_of_app in Hin1 as [? | [= -> ->]%list_elem_of_singleton]; [by left |].
        right. destruct (select_step_kept _ _ _ _ _ Hs Heq) as (ids & chosen & ?).
        exists lf, ids, chosen. split; [left | done].
    + right. exists lf', ids, chosen. split; [by right | done].
Qed.
End class_names.

Section assignment_facts.
Context `{RandomGen} (args : Args).

End assignment_facts.

(** ** No overwriting *)

(** C3. [copy_image_to] always finds a destination; the destination it
    writes to did not exist before the write, neither before nor after the
    class directory was made sure of; it is the natural name
    [<output>/<split>/<class>/<filename>] when that is free, and otherwise
    the first free name among those with [_1], [_2], ... before the
    extension. In a completed run, no copy or move writes to a path that
    existed when its turn came. Two images written in a row, whatever
    their names, end up as two distinct files. *)
Theorem C3_no_overwrite `{RandomGen} :
  (∀ E dest_dir img, is_Some (choose_dest E dest_dir img))
  ∧ (∀ E out split cname img mv dest E',
       copy_image_to E out split cname img mv = Ok (dest, E') →
       let dest_dir := join out [split; cname] in
       let E1 := ensure_dir E dest_dir in
       let natural := join dest_dir [basename img] in
       (dest ∉ E) ∧ (dest ∉ E1) ∧ dest ∈ E'
       ∧ (((natural ∉ E1) ∧ dest = natural)
          ∨ (natural ∈ E1 ∧ ∃ i, 1 ≤ i ∧ dest = suffixed dest_dir img i
               ∧ ∀ j, 1 ≤ j < i → suffixed dest_dir img j ∈ E1)))
  ∧ (∀ W ext_order E ambient args o,
       main W ext_order E ambient args = Ok o →
       out_files o = files_after args E (out_copies o)
       ∧ ∀ k c, out_copies o !! k = Some c →
                cp_dest c ∉ files_after args E (take k (out_copies o)))
  ∧ (∀ E out split cname img1 img2 mv d1 E1 d2 E2,
       img2 ∈ E →
       copy_image_to E out split cname img1 mv = Ok (d1, E1) →
       copy_image_to E1 out split cname img2 mv = Ok (d2, E2) →
       d1 ≠ d2 ∧ d1 ∈ E2 ∧ d2 ∈ E2).
Proof.
  assert (∀ E out split cname img mv dest E',
            copy_image_to E out split cname img mv = Ok (dest, E') →
            (dest ∉ E) ∧ (dest ∉ ensure_dir E (join out [split; cname])) ∧ dest ∈ E')
    as Hfresh.
  { intros E out split cname img mv dest E' (Hd & _ & ->)%copy_image_to_inv.
    apply choose_dest_spec in Hd as [Hd _].
    pose proof (ensure_dir_subseteq E (join out [split; cname])).
    split; [set_solver |]. split; [done |]. destruct mv; set_solver. }
  split; [apply choose_dest_total |]. split; [| split].
  - intros E out split cname img mv dest E' Hc. cbv zeta.
    destruct (Hfresh _ _ _ _ _ _ _ _ Hc) as (? & ? & ?).
    apply copy_image_to_inv in Hc as (Hd & _).
    apply choose_dest_spec in Hd as [_ Hd]. done.
  - intros W ext_order E ambient args o (st & bc' & s' & _ & Hw & _)%main_inv.
    apply write_classes_trace in Hw as (HE & _ & _ & _ & Hno & _).
    split; [done |]. intros k c Hk.
    pose proof (no_overwrite_lookup _ _ _ _ _ Hno Hk) as Hc.
    intros Hin. apply Hc. by apply ensure_dir_subseteq.
  - intros E out split cname img1 img2 mv d1 E1 d2 E2 Himg2 Hc1 Hc2.
    destruct (Hfresh _ _ _ _ _ _ _ _ Hc1) as (Hd1 & _ & Hd1').
    destruct (Hfresh _ _ _ _ _ _ _ _ Hc2) as (Hd2 & _ & Hd2').
    split; [set_solver |]. split; [| done].
    apply copy_image_to_inv in Hc2 as (_ & _ & ->).
    pose proof (ensure_dir_subseteq E1 (join out [split; cname])).
    destruct mv; set_solver.
Qed.

Lemma C3_no_overwrite_witness :
  main (H:=Demo.lcg) Demo.W IMG_EXTS Demo.E 0 Demo.args_ff = Ok Demo.output_ff
  ∧ cp_dest <$> out_copies Demo.output_ff
    = ["output/train/sea_bird/a.jpg"; "output/train/cat/p.jpeg";
       "output/train/cat/p_1.jpeg"; "output/val/cat/b.PNG"; "output/val/cat/e.jpg"]
  ∧ "output/train/cat/p_1.jpeg"
    ∉ files_after Demo.args_ff Demo.E (take 2 (out_copies Demo.output_ff)).
Proof.
  assert (main (H:=Demo.lcg) Demo.W IMG_EXTS Demo.E 0 Demo.args_ff = Ok Demo.output_ff)
    as Hmain by (vm_compute; reflexivity).
  split; [exact Hmain |]. split; [vm_compute; reflexivity |].
  destruct (C3_no_overwrite (H:=Demo.lcg)) as (_ & _ & Hrun & _).
  destruct (Hrun _ _ _ _ _ _ Hmain) as [_ Hfresh].
  exact (Hfresh 2 _ eq_refl).
Defined.

(** The scenario of the specification: two images named [photo.jpg], of
    the same class and split, written one after the other. *)
Example two_photos :
  ∃ E1 E2,
    copy_image_to {["in/a/photo.jpg"; "in/b/photo.jpg"]} "output" "train" "cat"
                  "in/a/photo.jpg" false
    = Ok ("output/train/cat/photo.jpg", E1)
    ∧ copy_image_to E1 "output" "train" "cat" "in/b/photo.jpg" false
      = Ok ("output/train/cat/photo_1.jpg", E2).
Proof. eexists _, _. split; vm_compute; reflexivity. Qed.

(** ** Reproducibility *)

(** C7 fails as worded: the destination paths also depend on what the
    output tree holds when the run starts. Run a second time over the same
    inputs, with [output/train/sea_bird/a.jpg] already there, the demo
    writes [a_1.jpg]. *)
Lemma C7_counterexample : ¬ C7_as_stated.
Proof.
  intros Hclaim.
  assert (out_copies Demo.output = out_copies Demo.output_again) as Heq.
  { apply (Hclaim Demo.lcg Demo.W IMG_EXTS Demo.args Demo.E Demo.E_again 0 7).
    - intros p Hp. unfold Demo.E_again. split; [set_solver |].
      intros [? | ->%elem_of_singleton]%elem_of_union; [done |].
      vm_compute in Hp. discriminate.
    - vm_compute. reflexivity.
    - vm_compute. reflexivity. }
  vm_compute in Heq. discriminate.
Qed.

(** C7, amended. A run is a function of its arguments (the seed among
    them), of what it reads (the enumerations of the two input trees, the
    label files, the class file), of the iteration order of the set of
    extensions and of the paths that exist when it starts: the state the
    random generator was in before plays no part. Of these, the paths in
    existence bear on the destination names only: two completed runs that
    differ in them alone assign every sample to the same split and class,
    and print the same summary. *)
Theorem C7_reproducible_run `{RandomGen} (W : World) (ext_order : list string) (args : Args) :
  (∀ E ambient1 ambient2,
     main W ext_order E ambient1 args = main W ext_order E ambient2 args)
  ∧ (∀ E1 E2 ambient1 ambient2 o1 o2,
       main W ext_order E1 ambient1 args = Ok o1 →
       main W ext_order E2 ambient2 args = Ok o2 →
       assigned <$> out_copies o1 = assigned <$> out_copies o2
       ∧ out_summary o1 = out_summary o2
       ∧ out_found o1 = out_found o2
       ∧ out_total_copied o1 = out_total_copied o2).
Proof.
  split; [done |].
  intros E1 E2 ambient1 ambient2 o1 o2
    (st1 & bc1 & s1 & Hsel1 & Hw1 & _ & Hf1 & Hs1)%main_inv
    (st2 & bc2 & s2 & Hsel2 & Hw2 & _ & Hf2 & Hs2)%main_inv.
  rewrite Hsel1 in Hsel2. injection Hsel2 as <-.
  apply write_classes_trace in Hw1 as (_ & Ht1 & _ & Ha1 & _).
  apply write_classes_trace in Hw2 as (_ & Ht2 & _ & Ha2 & _).
  rewrite Ha1 in Ha2. injection Ha2 as Ha.
  repeat split; congruence.
Qed.

Lemma C7_reproducible_run_witness :
  main (H:=Demo.lcg) Demo.W IMG_EXTS Demo.E 0 Demo.args = Ok Demo.output
  ∧ main (H:=Demo.lcg) Demo.W IMG_EXTS Demo.E_again 7 Demo.args = Ok Demo.output_again
  ∧ assigned <$> out_copies Demo.output = assigned <$> out_copies Demo.output_again.
Proof.
  assert (main (H:=Demo.lcg) Demo.W IMG_EXTS Demo.E 0 Demo.args = Ok Demo.output)
    as H1 by (vm_compute; reflexivity).
  assert (main (H:=Demo.lcg) Demo.W IMG_EXTS Demo.E_again 7 Demo.args
          = Ok Demo.output_again) as H2 by (vm_compute; reflexivity).
  split; [exact H1 |]. split; [exact H2 |].
  exact (proj1 (proj2 (C7_reproducible_run (H:=Demo.lcg) Demo.W IMG_EXTS Demo.args)
                  _ _ _ _ _ _ H1 H2)).
Defined.

(** ** Paths *)

Module OsPathFacts.
Import PyStrFacts.

Lemma str_drop_0 (s : string) : str_drop 0 s = s.
Proof. by destruct s. Qed.

Lemma str_take_app (a b : string) : str_take (String.length a) (a +:+ b) = a.
Proof.
  induction a as [|x a IH]; simpl; [by destruct b | by rewrite IH].
Qed.

Lemma str_drop_app (a b : string) : str_drop (String.length a) (a +:+ b) = b.
Proof.
  induction a as [|x a IH]; simpl; [apply str_drop_0 | by rewrite IH].
Qed.

Lemma contains_app (c : ascii) (a b : string) :
  contains c (a +:+ b) = contains c a || contains c b.
Proof.
  induction a as [|x a IH]; [done |].
  rewrite app_cons. simpl. by rewrite IH, orb_assoc.
Qed.

Lemma contains_str_take (c : ascii) (n : nat) (s : string) :
  contains c s = false → contains c (str_take n s) = false.
Proof.
  revert n. induction s as [|x s IH]; intros [|n]; simpl; try done.
  intros [-> Hs]%orb_false_iff. by rewrite IH.
Qed.

Lemma rfind_ge (c : ascii) (s : string) : (-1 ≤ rfind c s)%Z.
Proof.
  induction s as [|x s IH]; simpl; [lia |].
  destruct (Z.leb_spec 0 (rfind c s)); [lia |].
  destruct (decide (x = c)); lia.
Qed.

Lemma rfind_absent (c : ascii) (s : string) :
  contains c s = false → rfind c s = (-1)%Z.
Proof.
  induction s as [|x s IH]; simpl; [done |].
  intros [Hx Hs]%orb_false_iff. rewrite (IH Hs). simpl.
  apply bool_decide_eq_false in Hx. destruct (decide (x = c)); congruence.
Qed.

Lemma rfind_last (c : ascii) (a t : string) :
  contains c t = false → rfind c (a +:+ String c t) = Z.of_nat (String.length a).
Proof.
  intros Ht. induction a as [|x a IH].
  - simpl. rewrite (rfind_absent _ _ Ht). simpl.
    destruct (decide (c = c)); done.
  - rewrite app_cons. cbn [rfind String.length]. rewrite IH.
    destruct (Z.leb_spec 0 (Z.of_nat (String.length a))); lia.
Qed.

(** After the last separator comes no separator. *)
Lemma str_drop_after_rfind (c : ascii) (s : string) :
  contains c (str_drop (Z.to_nat (rfind c s + 1)) s) = false.
Proof.
  induction s as [|x s IH]; [done |]. cbn [rfind].
  pose proof (rfind_ge c s) as Hge.
  destruct (Z.leb_spec 0 (rfind c s)) as [Hr | Hr].
  - replace (Z.to_nat (rfind c s + 1 + 1)) with (S (Z.to_nat (rfind c s + 1))) by lia.
    done.
  - assert (rfind c s = (-1)%Z) as Hm by lia. rewrite Hm in IH.
    simpl in IH.
    destruct (decide (x = c)) as [-> | Hx]; simpl.
    + done.
    + rewrite IH, orb_false_r. apply bool_decide_eq_false. congruence.
Qed.

Lemma basename_no_sep (p : string) : contains "/" (basename p) = false.
Proof. apply str_drop_after_rfind. Qed.

Lemma has_other_str_drop (c : ascii) (n : nat) (s : string) :
  has_other c (str_drop n s) = true → has_other c s = true.
Proof.
  revert n. induction s as [|x s IH]; intros [|n]; simpl; try done.
  intros Hs%IH. rewrite Hs. apply orb_true_r.
Qed.

Lemma lower_char_dot (c : ascii) : lower_char c = "."%char ↔ c = "."%char.
Proof.
  destruct c as [[] [] [] [] [] [] [] []]; vm_compute; split; congruence.
Qed.

Lemma has_other_dot_lower (s : string) : has_other "." (lower s) = has_other "." s.
Proof.
  induction s as [|x s IH]; [done |]. simpl. rewrite IH. f_equal. f_equal.
  apply bool_decide_ext, lower_char_dot.
Qed.

(** The name of a label file holds something other than dots. *)
Lemma label_name_has_other (b : string) :
  endswith (lower b) ".txt" = true → has_other "." b = true.
Proof.
  unfold endswith. intros [_ Hd%bool_decide_eq_true]%andb_true_iff.
  rewrite <- has_other_dot_lower.
  apply (has_other_str_drop _ (String.length (lower b) - String.length ".txt")).
  by rewrite Hd.
Qed.

(** [splitext] splits: the two parts make up the path. *)
Lemma splitext_cases (p : string) :
  splitext p = (p, "")
  ∨ ∃ n, splitext p = (str_take n p, str_drop n p)
         ∧ has_other "." (str_take (n - Z.to_nat (rfind "/" p + 1))
                                   (str_drop (Z.to_nat (rfind "/" p + 1)) p)) = true.
Proof.
  unfold splitext. destruct (rfind "/" p <? rfind "." p)%Z; [| by left].
  destruct (has_other "." _) eqn:Ho; [| by left].
  right. eauto.
Qed.

Lemma splitext_base_no_sep (b : string) :
  contains "/" b = false → contains "/" (splitext b).1 = false.
Proof.
  intros Hb. destruct (splitext_cases b) as [-> | (n & -> & _)]; [done |].
  simpl. by apply contains_str_take.
Qed.

Lemma label_base_has_other (b : string) :
  contains "/" b = false → endswith (lower b) ".txt" = true →
  has_other "." (splitext b).1 = true.
Proof.
  intros Hb Hl. destruct (splitext_cases b) as [-> | (n & -> & Ho)].
  - by apply label_name_has_other.
  - rewrite (rfind_absent _ _ Hb) in Ho. simpl in Ho.
    rewrite Nat.sub_0_r in Ho. done.
Qed.

(** A base name followed by one of the accepted extensions splits into
    that base name and that extension. *)
Lemma splitext_base_ext (base ext : string) :
  contains "/" base = false → has_other "." base = true → ext ∈ IMG_EXTS →
  splitext (base +:+ ext) = (base, ext).
Proof.
  intros Hsep Hother Hext.
  assert (∃ e, ext = String "." e ∧ contains "." e = false ∧ contains "/" e = false)
    as (e & -> & Hdot & Hsl).
  { unfold IMG_EXTS in Hext. repeat apply elem_of_cons in Hext as [-> | Hext];
      [eauto.. | by apply elem_of_nil in Hext]. }
  unfold splitext.
  rewrite (rfind_absent "/" (base +:+ String "." e)).
  2: { rewrite contains_app, Hsep. simpl. by rewrite Hsl. }
  rewrite (rfind_last "." base e Hdot).
  destruct (Z.ltb_spec (-1) (Z.of_nat (String.length base))); [| lia].
  rewrite Nat2Z.id. simpl (Z.to_nat (-1 + 1)).
  rewrite str_drop_0, Nat.sub_0_r, str_take_app, str_drop_app, Hother. done.
Qed.
End OsPathFacts.

(** ** The image locator *)

Lemma search_files_Some (base root : string) (files : list string) (p : string) :
  search_files base root files = Some p →
  ∃ f, f ∈ files ∧ p = join root [f] ∧ image_name_matches base f.
Proof.
  induction files as [|f files IH]; [done |]. cbn [search_files].
  destruct (splitext f) as [name ext] eqn:Hsp.
  destruct (bool_decide (name = base) && in_IMG_EXTS (lower ext)) eqn:Hm.
  - intros [= <-]. apply andb_true_iff in Hm as [Hn%bool_decide_eq_true He%bool_decide_eq_true].
    exists f. split; [left |]. split; [done |].
    unfold image_name_matches. by rewrite Hsp.
  - intros (f' & ? & ?)%IH. exists f'. split; [by right | done].
Qed.

Lemma search_files_None (base root : string) (files : list string) :
  search_files base root files = None →
  ∀ f, f ∈ files → ¬ image_name_matches base f.
Proof.
  induction files as [|f files IH]; [intros _ f Hf; by apply elem_of_nil in Hf |].
  cbn [search_files]. destruct (splitext f) as [name ext] eqn:Hsp.
  destruct (bool_decide (name = base) && in_IMG_EXTS (lower ext)) eqn:Hm; [done |].
  intros Hnone f' [-> | Hf']%elem_of_cons; [| by apply IH].
  unfold image_name_matches. rewrite Hsp. simpl. intros [Hn He].
  apply andb_false_iff in Hm as [Hm | Hm]; apply bool_decide_eq_false in Hm; done.
Qed.

Lemma search_walk_Some (base : string) (w : list (string * list string)) (p : string) :
  search_walk base w = Some p →
  ∃ root files f, (root, files) ∈ w ∧ f ∈ files ∧ p = join root [f]
                  ∧ image_name_matches base f.
Proof.
  induction w as [|[root files] w IH]; [done |]. cbn [search_walk].
  destruct (search_files base root files) as [p' |] eqn:Hs.
  - intros [= <-]. apply search_files_Some in Hs as (f & ? & ? & ?).
    exists root, files, f. split; [left | done].
  - intros (root' & files' & f & ? & ?)%IH.
    exists root', files', f. split; [by right | done].
Qed.

Lemma search_walk_None (base : string) (w : list (string * list string)) :
  search_walk base w = None →
  ∀ root files f, (root, files) ∈ w → f ∈ files → ¬ image_name_matches base f.
Proof.
  induction w as [|[root files] w IH];
    [intros _ root files f Hin; by apply elem_of_nil in Hin |].
  cbn [search_walk]. destruct (search_files base root files) eqn:Hs; [done |].
  intros Hnone root' files' f [[= -> ->] | Hin]%elem_of_cons.
  - by apply (search_files_None _ _ _ Hs).
  - by apply (IH Hnone root' files' f Hin).
Qed.

(** C5. For a label file (a name that ends in [.txt] whatever its case),
    in an environment where a file found directly in the images root is
    among those the walk lists for the root, and whatever order the set
    of extensions is iterated in: the locator returns nothing exactly when
    no file under the images root has the base name of the label file as
    its name and an accepted extension; and a path it returns is that of
    such a file. *)
Theorem C5_image_locator (W : World) (ext_order : list string)
    (label_path images_dir : string) :
  ext_order ≡ₚ IMG_EXTS →
  endswith (lower (basename label_path)) ".txt" = true →
  (∀ name, contains "/" name = false →
           os_isfile W (join images_dir [name]) = true →
           ∃ files, (images_dir, files) ∈ os_walk W images_dir ∧ name ∈ files) →
  let base := (splitext (basename label_path)).1 in
  (find_image_for_label W ext_order label_path images_dir = None
   ↔ ¬ ∃ root files f, (root, files) ∈ os_walk W images_dir ∧ f ∈ files
                       ∧ image_name_matches base f)
  ∧ (∀ p, find_image_for_label W ext_order label_path images_dir = Some p →
          ∃ root files f, (root, files) ∈ os_walk W images_dir ∧ f ∈ files
                          ∧ p = join root [f] ∧ image_name_matches base f).
Proof.
  intros Hperm Hlabel Hlisted base.
  pose proof (OsPathFacts.basename_no_sep label_path) as Hb.
  pose proof (OsPathFacts.splitext_base_no_sep _ Hb) as Hsep.
  pose proof (OsPathFacts.label_base_has_other _ Hb Hlabel) as Hother.
  fold base in Hsep, Hother.
  unfold find_image_for_label. fold base.
  destruct (List.find _ ext_order) as [ext |] eqn:Hfind.
  - apply find_some in Hfind as [Hin Hfile].
    assert (ext ∈ IMG_EXTS) as Hext.
    { rewrite <- Hperm. by apply list_elem_of_In. }
    destruct (Hlisted (base +:+ ext)) as (files & Hw & Hf); [| done |].
    { rewrite OsPathFacts.contains_app, Hsep. simpl.
      unfold IMG_EXTS in Hext. repeat apply elem_of_cons in Hext as [-> | Hext];
        [done.. | by apply elem_of_nil in Hext]. }
    assert (image_name_matches base (base +:+ ext)) as Hm.
    { unfold image_name_matches.
      rewrite (OsPathFacts.splitext_base_ext _ _ Hsep Hother Hext). simpl.
      split; [done |].
      unfold IMG_EXTS in *. repeat apply elem_of_cons in Hext as [-> | Hext];
        [vm_compute; set_solver.. | by apply elem_of_nil in Hext]. }
    split.
    + split; [done |]. intros Hnot. exfalso. apply Hnot. eauto 10.
    + intros p [= <-]. eauto 10.
  - split.
    + split.
      * intros Hnone (root & files & f & Hw & Hf & Hm).
        by apply (search_walk_None _ _ Hnone root files f).
      * intros Hnot. destruct (search_walk base (os_walk W images_dir)) eqn:Hs; [| done].
        exfalso. apply Hnot. apply search_walk_Some in Hs as (root & files & f & ?).
        exists root, files, f. tauto.
    + intros p Hs. by apply search_walk_Some.
Qed.

Lemma C5_image_locator_witness :
  find_image_for_label Demo.W_flat IMG_EXTS "labels/b.txt" "imgs" = Some "imgs/b.PNG"
  ∧ ∃ root files f,
      (root, files) ∈ os_walk Demo.W_flat "imgs" ∧ f ∈ files
      ∧ "imgs/b.PNG" = join root [f] ∧ image_name_matches "b" f.
Proof.
  split; [reflexivity |].
  refine (proj2 (C5_image_locator Demo.W_flat IMG_EXTS "labels/b.txt" "imgs" _ _ _)
            "imgs/b.PNG" eq_refl).
  - reflexivity.
  - reflexivity.
  - intros name Hname Hfile. apply bool_decide_eq_true in Hfile.
    exists ["a.jpg"; "b.PNG"]. split; [left |].
    destruct name as [|c name]; [discriminate |].
    simpl in Hname. apply orb_false_iff in Hname as [Hc%bool_decide_eq_false _].
    cbn [join fold_left] in Hfile. unfold join2 in Hfile. simpl in Hfile.
    rewrite bool_decide_eq_false_2 in Hfile by done. simpl in Hfile.
    injection Hfile as -> ->. left.
Defined.

(** ** The class-name resolver *)

Lemma resolve_class_name_empty (chosen : string) :
  resolve_class_name ∅ chosen = Ok (replace_char " " "_" chosen).
Proof. unfold resolve_class_name. by rewrite lookup_empty. Qed.

(** With no mapping, a step raises only if the label file cannot be read. *)
Lemma select_step_empty_map (W : World) (ext_order : list string) (args : Args)
    (st : Selection) (lf : string) (ids : list string) :
  parse_label_file W lf = Ok ids →
  ∃ st', select_step W ext_order args ∅ st lf = Ok st'.
Proof.
  intros Hp. unfold select_step. rewrite Hp. cbn [mbind res_bind].
  assert (∀ st0 chosen, ∃ st', keep_chosen W ext_order args ∅ st0 lf chosen = Ok st')
    as Hkeep.
  { intros st0 chosen. unfold keep_chosen.
    destruct (find_image_for_label _ _ _ _); [| eauto].
    rewrite resolve_class_name_empty. cbn [mbind res_bind]. eauto. }
  destruct ids as [|first tl]; [eauto |].
  destruct (1 <? length (first :: tl)); [| apply Hkeep].
  destruct (force_first args); [apply Hkeep | eauto].
Qed.

(** C8. When the class-mapping file cannot be used (no file at the path,
    an extension that is neither [.txt] nor [.yaml]/[.yml], or a loader
    that raises), [load_class_mapping] returns the empty mapping and one
    warning: it raises nothing. The run goes on with the empty mapping:
    naming classes then never raises, and each sample kept has the
    identifier chosen for it as its class name. *)
Theorem C8_unusable_mapping_file (W : World) (classes_path : string) :
  classes_path ≠ "" →
  let ext := lower (splitext classes_path).2 in
  ((os_isfile W classes_path = false →
    load_class_mapping W (Some classes_path) = (∅, [WarnNotFound classes_path]))
   ∧ (os_isfile W classes_path = true → ext ∉ [".txt"; ".yaml"; ".yml"] →
      load_class_mapping W (Some classes_path) = (∅, [WarnUnknownExt ext]))
   ∧ (os_isfile W classes_path = true → ext = ".txt" →
      ∀ e, load_classes_from_txt W classes_path = Raise e →
           load_class_mapping W (Some classes_path) = (∅, [WarnTxtFailed e]))
   ∧ (os_isfile W classes_path = true → ext ∈ [".yaml"; ".yml"] →
      ∀ e, load_classes_from_yaml W classes_path = Raise e →
           load_class_mapping W (Some classes_path) = (∅, [WarnYamlFailed e])))
  ∧ (∀ ext_order args w,
       classes args = Some classes_path →
       load_class_mapping W (Some classes_path) = (∅, [w]) →
       main_select W ext_order args
       = (∅, [w], scan_labels W (labels_dir args),
          select_loop W ext_order args ∅ (scan_labels W (labels_dir args)) Selection_init))
  ∧ (∀ ext_order args st lf ids,
       parse_label_file W lf = Ok ids →
       ∃ st', select_step W ext_order args ∅ st lf = Ok st')
  ∧ (∀ ext_order args st lf st' img cname,
       select_step W ext_order args ∅ st lf = Ok st' →
       samples st' = samples st ++ [(img, cname)] →
       ∃ ids, parse_label_file W lf = Ok ids ∧ head ids = Some cname).
Proof.
  intros Hne ext. split; [| split; [| split]].
  - unfold load_class_mapping. fold ext.
    destruct (decide (classes_path = "")); [done |].
    repeat split.
    + by intros ->.
    + intros -> Hext. simpl.
      rewrite bool_decide_eq_false_2 by set_solver.
      rewrite !bool_decide_eq_false_2 by set_solver. done.
    + intros -> Hext e ->. simpl. by rewrite bool_decide_eq_true_2.
    + intros -> Hext e ->. simpl.
      rewrite bool_decide_eq_false_2.
      2: { intros Heq. rewrite Heq in Hext. set_solver. }
      assert (bool_decide (ext = ".yaml") || bool_decide (ext = ".yml") = true) as ->; [| done].
      apply elem_of_cons in Hext as [-> | ->%list_elem_of_singleton]; done.
  - intros ext_order args w Hc Hl. rewrite main_select_eq, Hc, Hl. done.
  - intros ext_order args st lf ids. apply select_step_empty_map.
  - intros ext_order args st lf st' img cname Hs Hsamples.
    destruct (select_step_kept _ _ _ _ _ _ _ _ _ Hs Hsamples)
      as (ids & chosen & Hp & Hhd & _ & Hres).
    exists ids. split; [done |].
    rewrite resolve_class_name_empty in Hres. injection Hres as <-.
    rewrite PyStrFacts.replace_char_absent; [done |].
    eapply parse_label_file_no_space; [done |]. by apply head_Some_elem_of.
Qed.

Lemma C8_unusable_mapping_file_witness :
  os_isfile Demo.W "missing.yaml" = false
  ∧ load_class_mapping Demo.W (Some "missing.yaml") = (∅, [WarnNotFound "missing.yaml"]).
Proof.
  split; [reflexivity |].
  refine (proj1 (proj1 (C8_unusable_mapping_file Demo.W "missing.yaml" _)) eq_refl).
  discriminate.
Defined.

(** ** Floats

    [int(n * f)] for a fraction [f] between 0 and 1: the product is
    rounded to the nearest float, and the rounding never takes it above
    [n], because [n] itself is a float. Every lemma below is about the
    definitions of [SpecFloat] at the binary64 parameters. *)

Module PyFloatFacts.
Import PyFloat.
Local Open Scope Z_scope.

Lemma fexp_eq (x : Z) : fexp prec emax x = Z.max (x - 53) (-1074).
Proof. reflexivity. Qed.

Lemma iter_pos_nat {A} (f : A -> A) (p : positive) (x : A) :
  SpecFloat.iter_pos f p x = Nat.iter (Pos.to_nat p) f x.
Proof.
  revert x. induction p as [p IH | p IH |]; intros x; cbn [SpecFloat.iter_pos].
  - rewrite !IH, Pos2Nat.inj_xI. 
    replace (S (2 * Pos.to_nat p))%nat with (Pos.to_nat p + Pos.to_nat p + 1)%nat by lia.
    rewrite !Nat.iter_add. reflexivity.
  - rewrite !IH, Pos2Nat.inj_xO.
    replace (2 * Pos.to_nat p)%nat with (Pos.to_nat p + Pos.to_nat p)%nat by lia.
    rewrite Nat.iter_add. reflexivity.
  - reflexivity.
Qed.

Lemma shr_1_spec (mrs : shr_record) :
  0 <= shr_m mrs ->
  shr_m (shr_1 mrs) = shr_m mrs / 2
  /\ shr_r (shr_1 mrs) = Z.odd (shr_m mrs)
  /\ shr_s (shr_1 mrs) = orb (shr_r mrs) (shr_s mrs).
Proof.
  destruct mrs as [m r s]. simpl. intros Hm.
  destruct m as [|[p|p|]|p]; simpl; try lia; repeat split;
    try reflexivity.
  - rewrite (Pos2Z.inj_xI p). apply Z.div_unique with (r := 1); lia.
  - rewrite (Pos2Z.inj_xO p). apply Z.div_unique with (r := 0); lia.
Qed.

(** Shifting right [k] times divides by [2 ^ k]; the bits shifted out are
    all zero exactly when nothing is recorded as lost. *)
Lemma shr_iter_spec (M : Z) (k : nat) :
  0 <= M ->
  let mrs := Nat.iter k shr_1 (Build_shr_record M false false) in
  shr_m mrs = M / 2 ^ Z.of_nat k
  /\ (M mod 2 ^ Z.of_nat k = 0 -> shr_r mrs = false /\ shr_s mrs = false).
Proof.
  intros HM. induction k as [|k IH].
  - simpl. rewrite Z.div_1_r. auto.
  - cbn zeta in *. rewrite Nat.iter_succ.
    set (mrs := Nat.iter k shr_1 _) in *.
    destruct IH as [Hm Hex].
    assert (0 < 2 ^ Z.of_nat k) as Hpos by (apply Z.pow_pos_nonneg; lia).
    assert (0 <= shr_m mrs) as Hnn.
    { rewrite Hm. apply Z.div_pos; lia. }
    destruct (shr_1_spec mrs Hnn) as (H1 & H2 & H3).
    rewrite H1, H2, H3, Hm, Nat2Z.inj_succ, Z.pow_succ_r by lia.
    split.
    + rewrite Z.div_div by lia. f_equal. lia.
    + intros Hmod.
      assert (M = 2 ^ Z.of_nat k * (2 * (M / (2 * 2 ^ Z.of_nat k)))) as HMeq.
      { pose proof (Z.div_mod M (2 * 2 ^ Z.of_nat k) ltac:(lia)). lia. }
      assert (M mod 2 ^ Z.of_nat k = 0) as Hmodk.
      { rewrite HMeq at 1. rewrite Z.mul_comm. apply Z.mod_mul. lia. }
      destruct (Hex Hmodk) as [-> ->].
      split; [| reflexivity].
      rewrite HMeq at 1. rewrite Z.mul_comm, Z.div_mul by lia.
      rewrite Z.odd_mul. reflexivity.
Qed.

Lemma digits2_pos_spec (p : positive) :
  2 ^ (Zpos (digits2_pos p) - 1) <= Zpos p < 2 ^ Zpos (digits2_pos p).
Proof.
  induction p as [p IH | p IH |]; cbn [digits2_pos].
  - rewrite Pos2Z.inj_succ, (Pos2Z.inj_xI p).
    replace (Z.succ (Zpos (digits2_pos p)) - 1) with (Z.succ (Zpos (digits2_pos p) - 1)) by lia.
    rewrite !Z.pow_succ_r by lia.
    generalize dependent (2 ^ (Zpos (digits2_pos p) - 1)).
    generalize dependent (2 ^ Zpos (digits2_pos p)). intros; lia.
  - rewrite Pos2Z.inj_succ, (Pos2Z.inj_xO p).
    replace (Z.succ (Zpos (digits2_pos p)) - 1) with (Z.succ (Zpos (digits2_pos p) - 1)) by lia.
    rewrite !Z.pow_succ_r by lia.
    generalize dependent (2 ^ (Zpos (digits2_pos p) - 1)).
    generalize dependent (2 ^ Zpos (digits2_pos p)). intros; lia.
  - simpl. lia.
Qed.

(** A positive number below [2 ^ k] has at most [k] digits. *)
Lemma digits2_pos_le (p : positive) (k : Z) :
  0 <= k -> Zpos p < 2 ^ k -> Zpos (digits2_pos p) <= k.
Proof.
  intros Hk Hp. destruct (digits2_pos_spec p) as [Hlo _].
  destruct (Z.le_gt_cases (Zpos (digits2_pos p)) k) as [|Hgt]; [assumption |].
  exfalso.
  assert (2 ^ k <= 2 ^ (Zpos (digits2_pos p) - 1)) by (apply Z.pow_le_mono_r; lia).
  lia.
Qed.

Lemma round_nearest_even_bounds (m : Z) (l : location) :
  m <= round_nearest_even m l <= m + 1
  /\ (l = loc_Exact -> round_nearest_even m l = m).
Proof.
  destruct l as [|[]]; simpl; try destruct (Z.even m); split; try lia; try reflexivity;
    intros; discriminate.
Qed.

Lemma shr_shift (mrs : shr_record) (e n : Z) :
  0 < n ->
  shr mrs e n = (Nat.iter (Z.to_nat n) shr_1 mrs, e + n).
Proof.
  intros Hn. destruct n as [|p|p]; try lia. unfold shr.
  rewrite iter_pos_nat. reflexivity.
Qed.

Lemma shr_noshift (mrs : shr_record) (e n : Z) : n <= 0 -> shr mrs e n = (mrs, e).
Proof. intros Hn. destruct n as [|p|p]; try lia; reflexivity. Qed.

(** One pass of [shr_fexp] on an exact non-negative mantissa: the new
    exponent is the one the format asks for, or the old one when that is
    already large enough; the new mantissa is the old one shifted. *)
Lemma shr_fexp_spec (m e : Z) :
  0 <= m ->
  let d := fexp prec emax (Zdigits2 m + e) - e in
  let '(mrs, e') := shr_fexp prec emax m e loc_Exact in
  e' = e + Z.max d 0
  /\ shr_m mrs = m / 2 ^ Z.max d 0
  /\ (m mod 2 ^ Z.max d 0 = 0 -> loc_of_shr_record mrs = loc_Exact).
Proof.
  intros Hm d. unfold shr_fexp. fold d. cbn [shr_record_of_loc].
  destruct (Z.lt_ge_cases 0 d) as [Hd | Hd].
  - rewrite shr_shift by assumption.
    rewrite Z.max_l by lia.
    pose proof (shr_iter_spec m (Z.to_nat d) Hm) as Hspec. cbn zeta in Hspec.
    rewrite Z2Nat.id in Hspec by lia.
    destruct Hspec as [Hs1 Hs2]. repeat split; try assumption.
    intros Hmod. destruct (Hs2 Hmod) as [Hr Hs].
    destruct (Nat.iter _ _ _) as [m' r' s']. simpl in *. subst. reflexivity.
  - rewrite shr_noshift by assumption.
    rewrite Z.max_r by lia. simpl. rewrite Z.div_1_r, Z.add_0_r. auto.
Qed.

Lemma pow2_pos (k : Z) : 0 <= k -> 0 < 2 ^ k.
Proof. intros. apply Z.pow_pos_nonneg; lia. Qed.

(** Rounding a positive number that is at most [N] to the format gives
    zero or a positive float whose integer part is at most [N], when
    [N] is an integer below [2 ^ 53]. *)
Lemma binary_round_aux_le (M : positive) (Ex N : Z) :
  Ex <= 0 -> 0 < N < 2 ^ 53 -> Zpos M <= N * 2 ^ (- Ex) ->
  let x := binary_round_aux prec emax false (Zpos M) Ex loc_Exact in
  x = S754_zero false
  \/ exists m' e', x = S754_finite false m' e' /\ e' <= 0
                   /\ Zpos m' / 2 ^ (- e') <= N.
Proof.
  intros HEx HN HM. cbv zeta. unfold binary_round_aux.
  (* first pass *)
  pose proof (shr_fexp_spec (Zpos M) Ex ltac:(lia)) as H1. cbv zeta in H1.
  destruct (shr_fexp prec emax (Zpos M) Ex loc_Exact) as [mrs1 e1].
  destruct H1 as (He1 & Hm1 & Hex1).
  set (D1 := Z.max (fexp prec emax (Zdigits2 (Zpos M) + Ex) - Ex) 0) in *.
  assert (0 <= D1) as HD1 by (unfold D1; lia).
  assert (e1 <= 0) as He1neg.
  { assert (Zpos (digits2_pos M) <= 53 - Ex) as Hdig.
    { apply digits2_pos_le; [lia |].
      replace (53 - Ex) with (53 + - Ex) by lia. rewrite Z.pow_add_r by lia.
      pose proof (pow2_pos (- Ex) ltac:(lia)). nia. }
    unfold D1 in He1. rewrite fexp_eq in He1. simpl Zdigits2 in He1. lia. }
  set (B := N * 2 ^ (- e1)).
  assert (N * 2 ^ (- Ex) = B * 2 ^ D1) as HB.
  { unfold B. rewrite <- Z.mul_assoc, <- Z.pow_add_r by lia. do 2 f_equal. lia. }
  pose proof (pow2_pos D1 HD1) as HpD1.
  pose proof (pow2_pos (- e1) ltac:(lia)) as Hpe1.
  set (m1 := shr_m mrs1) in *.
  pose proof (Z.div_mod (Zpos M) (2 ^ D1) ltac:(lia)) as Hdm.
  pose proof (Z.mod_pos_bound (Zpos M) (2 ^ D1) HpD1) as Hmb.
  rewrite <- Hm1 in Hdm.
  assert (0 <= m1) as Hm1nn by (rewrite Hm1; apply Z.div_pos; lia).
  set (r := round_nearest_even m1 (loc_of_shr_record mrs1)).
  assert (0 <= r <= B) as Hr.
  { destruct (round_nearest_even_bounds m1 (loc_of_shr_record mrs1)) as [Hb Hexact].
    fold r in Hb, Hexact.
    destruct (Z.eq_dec (Zpos M mod 2 ^ D1) 0) as [Hz | Hnz].
    - rewrite (Hexact (Hex1 Hz)). split; [lia |]. nia.
    - split; [lia |]. assert (m1 < B) by nia. lia. }
  clearbody r.
  (* second pass *)
  pose proof (shr_fexp_spec r e1 ltac:(lia)) as H2. cbv zeta in H2.
  destruct (shr_fexp prec emax r e1 loc_Exact) as [mrs2 e2].
  destruct H2 as (He2 & Hm2 & _).
  set (D2 := Z.max (fexp prec emax (Zdigits2 r + e1) - e1) 0) in *.
  assert (0 <= D2) as HD2 by (unfold D2; lia).
  assert (e2 <= 0) as He2neg.
  { assert (Zdigits2 r <= 53 - e1) as Hdig.
    { destruct r as [|q|q]; cbn [Zdigits2]; [lia | | lia].
      apply digits2_pos_le; [lia |].
      replace (53 - e1) with (53 + - e1) by lia. rewrite Z.pow_add_r by lia.
      unfold B in Hr. nia. }
    unfold D2 in He2. rewrite fexp_eq in He2. lia. }
  pose proof (pow2_pos D2 HD2) as HpD2.
  assert (0 <= shr_m mrs2) as Hm2nn by (rewrite Hm2; apply Z.div_pos; lia).
  destruct (shr_m mrs2) as [|m|m] eqn:Hsm; [left; reflexivity | | lia].
  right. exists m, e2.
  destruct (Z.leb_spec e2 (emax - prec)) as [_ | Hbad]; [| unfold emax, prec in Hbad; lia].
  split; [reflexivity |]. split; [assumption |].
  rewrite Hm2, Z.div_div by (try apply pow2_pos; lia).
  rewrite <- Z.pow_add_r by lia.
  replace (D2 + - e2) with (- e1) by lia.
  apply Z.div_le_upper_bound; [assumption |]. unfold B in Hr. lia.
Qed.

Lemma binary_round_aux_exact (s : bool) (M : positive) (Ex : Z) :
  fexp prec emax (Zpos (digits2_pos M) + Ex) <= Ex -> Ex <= emax - prec ->
  binary_round_aux prec emax s (Zpos M) Ex loc_Exact = S754_finite s M Ex.
Proof.
  intros Hc Hb. unfold binary_round_aux, shr_fexp. cbn [Zdigits2 shr_record_of_loc].
  rewrite shr_noshift by lia. cbn [shr_m loc_of_shr_record round_nearest_even Zdigits2].
  rewrite shr_noshift by lia. cbn [shr_m shr_record_of_loc].
  destruct (Z.leb_spec Ex (emax - prec)); [reflexivity | lia].
Qed.

Lemma iter_xO_spec (p d : positive) :
  Zpos (Pos.iter xO p d) = Zpos p * 2 ^ Zpos d
  /\ Zpos (digits2_pos (Pos.iter xO p d)) = Zpos (digits2_pos p) + Zpos d.
Proof.
  induction d as [|d IH] using Pos.peano_ind.
  - cbn [Pos.iter digits2_pos]. rewrite (Pos2Z.inj_xO p), Pos2Z.inj_succ. lia.
  - rewrite Pos.iter_succ. cbn [digits2_pos].
    rewrite (Pos2Z.inj_xO (Pos.iter xO p d)), !Pos2Z.inj_succ.
    destruct IH as [-> ->]. rewrite Z.pow_succ_r by lia. lia.
Qed.

(** An integer below [2 ^ 53] converts to a float of that very value. *)
Lemma of_nat_exact (n : nat) :
  (0 < n)%nat -> Z.of_nat n < 2 ^ 53 ->
  exists mn en,
    of_nat n = Ok (S754_finite false mn en)
    /\ en <= 0 /\ Zpos mn = Z.of_nat n * 2 ^ (- en).
Proof.
  intros Hn Hlt. unfold of_nat.
  destruct (Z.of_nat n) as [|p|p] eqn:Hp; [lia | | lia].
  cbn [binary_normalize]. unfold binary_round.
  pose proof (digits2_pos_le p 53 ltac:(lia) Hlt) as Hd.
  assert (0 < Zpos (digits2_pos p)) as Hd0 by lia.
  rewrite fexp_eq. unfold shl_align.
  replace (Z.max (Zpos (digits2_pos p) + 0 - 53) (-1074) - 0)
    with (Zpos (digits2_pos p) - 53) by lia.
  replace (Z.max (Zpos (digits2_pos p) + 0 - 53) (-1074))
    with (Zpos (digits2_pos p) - 53) by lia.
  destruct (Zpos (digits2_pos p) - 53) as [|d|d] eqn:Hdiff; [| lia |].
  - rewrite binary_round_aux_exact by (try rewrite fexp_eq; unfold emax, prec; lia).
    exists p, 0. simpl. repeat split; lia.
  - destruct (iter_xO_spec p d) as [Hval Hdig].
    rewrite binary_round_aux_exact by (try rewrite fexp_eq; unfold emax, prec; lia).
    exists (Pos.iter xO p d), (Z.neg d). repeat split; try lia.
    rewrite Hval. reflexivity.
Qed.

(** A float of the format that is at most one has a mantissa of at most
    [2 ^ (- e)]. *)
Lemma two_52 : Zpos 4503599627370496 = 2 ^ 52.
Proof. vm_compute. reflexivity. Qed.

Lemma le_one_mantissa (m : positive) (e : Z) :
  valid_binary prec emax (S754_finite false m e) = true ->
  leb (S754_finite false m e) one = true ->
  e <= -52 /\ Zpos m <= 2 ^ (- e).
Proof.
  cbn [valid_binary]. unfold bounded, canonical_mantissa.
  intros Hv Hle. apply andb_prop in Hv as [Hc _]. apply Z.eqb_eq in Hc.
  rewrite fexp_eq in Hc.
  destruct (digits2_pos_spec m) as [_ Hhi].
  assert (Zpos m < 2 ^ 53) as Hm.
  { eapply Z.lt_le_trans; [exact Hhi |]. apply Z.pow_le_mono_r; lia. }
  unfold leb, SFleb, one in Hle. cbn [SFcompare] in Hle.
  pose proof two_52 as H52.
  generalize dependent (4503599627370496%positive). intros c Hle H52.
  destruct (Z.compare_spec e (-52)) as [-> | Hlt | Hgt].
  - split; [lia |]. 
    assert ((m <= c)%positive) as Hmc.
    { unfold Pos.le, Pos.compare. destruct (Pos.compare_cont Eq m c); discriminate. }
    change (- -52) with 52. rewrite <- H52. lia.
  - split; [lia |]. 
    assert (2 ^ 53 <= 2 ^ (- e)) by (apply Z.pow_le_mono_r; lia). lia.
  - discriminate.
Qed.

(** For a validation fraction between 0 and 1 and a class of fewer than
    [2 ^ 53] images, [int(n * f)] raises nothing, is the floor of the
    product, and lies between 0 and [n]. *)
Lemma n_val_in_range (n : nat) (f : float) :
  valid_binary prec emax f = true ->
  leb zero f = true -> leb f one = true ->
  Z.of_nat n < 2 ^ 53 ->
  exists x, nat_mul n f = Ok x /\ to_int x = Ok (floor x)
            /\ 0 <= floor x <= Z.of_nat n.
Proof.
  intros Hv H0 H1 Hn. unfold nat_mul.
  destruct n as [|n'].
  - (* no image *)
    change (of_nat 0) with (Ok (S754_zero false)).
    destruct f as [s | [] | | [] m e]; try discriminate;
      eexists; (split; [reflexivity |]);
      cbn [mul SFmul to_int floor]; (split; [reflexivity | lia]).
  - destruct (of_nat_exact (S n') ltac:(lia) Hn) as (mn & en & -> & Hen & Hmn).
    destruct f as [s | [] | | [] m e]; try discriminate.
    + eexists. split; [reflexivity |]. cbn [mul SFmul to_int floor].
      split; [reflexivity | lia].
    + destruct (le_one_mantissa m e Hv H1) as [He Hm].
      eexists. split; [reflexivity |]. cbn [mul SFmul xorb].
      pose proof (pow2_pos (- en) ltac:(lia)) as Hp1.
      pose proof (pow2_pos (- e) ltac:(lia)) as Hp2.
      assert (Zpos (mn * m) <= Z.of_nat (S n') * 2 ^ (- (en + e))) as Hprod.
      { rewrite Pos2Z.inj_mul, Hmn.
        replace (- (en + e)) with (- en + - e) by lia.
        rewrite Z.pow_add_r by lia.
        generalize dependent (2 ^ (- en)). generalize dependent (2 ^ (- e)).
        intros. nia. }
      destruct (binary_round_aux_le (mn * m) (en + e) (Z.of_nat (S n'))
                  ltac:(lia) ltac:(lia) Hprod)
        as [-> | (m' & e' & -> & He' & Hle)].
      * cbn [to_int floor]. split; [reflexivity | lia].
      * cbn [to_int floor cond_Zopp].
        destruct (Z.leb_spec 0 e') as [Hnn | Hneg].
        -- assert (e' = 0) as -> by lia.
           change (2 ^ (- 0)) with 1 in Hle. rewrite Z.div_1_r in Hle.
           rewrite Z.shiftl_0_r. change (2 ^ 0) with 1. rewrite Z.mul_1_r.
           split; [reflexivity | lia].
        -- rewrite Z.shiftl_div_pow2 by lia. split; [reflexivity |].
           split; [| assumption]. apply Z.div_pos; [lia | apply pow2_pos; lia].
Qed.
End PyFloatFacts.

(** ** The split of a class *)

(** With a fraction between 0 and 1, the split of a class raises nothing
    and cuts the shuffled list at the floor of the product. *)
Lemma split_class_in_range `{RandomGen} (args : Args) (imgs : list string) (s : rng) :
  is_fraction (val_split args) →
  (Z.of_nat (length imgs) < 2 ^ 53)%Z →
  ∃ x, PyFloat.nat_mul (length imgs) (val_split args) = Ok x
       ∧ (0 ≤ PyFloat.floor x ≤ Z.of_nat (length imgs))%Z
       ∧ n_val_of (length imgs) (val_split args) = Ok (PyFloat.floor x)
       ∧ split_class args imgs s
         = Ok ((shuffle imgs s).1,
               drop (Z.to_nat (PyFloat.floor x)) (shuffle imgs s).1,
               take (Z.to_nat (PyFloat.floor x)) (shuffle imgs s).1,
               (shuffle imgs s).2).
Proof.
  intros (Hv & H0 & H1) Hn.
  destruct (PyFloatFacts.n_val_in_range _ _ Hv H0 H1 Hn) as (x & Hx & Hint & Hrange).
  pose proof (shuffle_length imgs s) as Hlen.
  exists x. split; [done |]. split; [done |].
  assert (n_val_of (length imgs) (val_split args) = Ok (PyFloat.floor x)) as Hn_val.
  { unfold n_val_of. rewrite Hx. cbn [mbind res_bind]. done. }
  split; [done |].
  unfold split_class. destruct (shuffle imgs s) as [sh s1] eqn:Hsh. simpl in *.
  rewrite Hlen, Hn_val. cbn [mbind res_bind]. unfold slice_to, slice_from.
  rewrite slice_index_in_range by lia. done.
Qed.

(** C1 fails as worded: nothing keeps an image from being in a bucket
    twice. Two label files of the same base name in two directories
    select the same image; shuffled and cut in two, the bucket then has
    the image in both splits, as the demo has [images/sub/p.jpeg]. *)
Lemma C1_counterexample : ¬ C1_as_stated.
Proof.
  intros Hclaim.
  destruct (Hclaim Demo.lcg Demo.args ["images/sub/p.jpeg"; "images/sub/p.jpeg"] 42)
    as (x & shuffled & tr & va & s' & _ & Hsplit & _ & _ & _ & Hno).
  - repeat split.
  - vm_compute. reflexivity.
  - vm_compute in Hsplit. injection Hsplit as <- <- <- <-.
    apply (Hno "images/sub/p.jpeg"). split; apply list_elem_of_here.
Qed.

(** C1, amended. For a class bucket of [n] images (fewer than [2 ^ 53])
    and a validation fraction [f] that is a binary64 float between 0 and
    1: the shuffle permutes the bucket; the validation images are the
    first [floor(n * f)] shuffled items and the train images are the
    remaining [n - floor(n * f)], where [n * f] is the binary64 product
    the program computes (for 10 and 0.3 it is 3, not the 2 of the exact
    product); together they are the whole bucket, each item once; and no
    image is in both splits when the bucket holds none twice. *)
Theorem C1_split_of_a_class `{RandomGen} (args : Args) (imgs : list string) (s : rng) :
  valid_binary PyFloat.prec PyFloat.emax (val_split args) = true →
  PyFloat.leb PyFloat.zero (val_split args) = true →
  PyFloat.leb (val_split args) PyFloat.one = true →
  (Z.of_nat (length imgs) < 2 ^ 53)%Z →
  ∃ x shuffled train_imgs val_imgs s',
    PyFloat.nat_mul (length imgs) (val_split args) = Ok x
    ∧ split_class args imgs s = Ok (shuffled, train_imgs, val_imgs, s')
    ∧ shuffled = (shuffle imgs s).1
    ∧ shuffled ≡ₚ imgs
    ∧ (0 ≤ PyFloat.floor x ≤ Z.of_nat (length imgs))%Z
    ∧ val_imgs = take (Z.to_nat (PyFloat.floor x)) shuffled
    ∧ train_imgs = drop (Z.to_nat (PyFloat.floor x)) shuffled
    ∧ Z.of_nat (length val_imgs) = PyFloat.floor x
    ∧ Z.of_nat (length train_imgs) = (Z.of_nat (length imgs) - PyFloat.floor x)%Z
    ∧ val_imgs ++ train_imgs ≡ₚ imgs
    ∧ (NoDup imgs → ∀ im, ¬ (im ∈ val_imgs ∧ im ∈ train_imgs)).
Proof.
  intros Hv H0 H1 Hn.
  destruct (split_class_in_range args imgs s (conj Hv (conj H0 H1)) Hn)
    as (x & Hx & Hrange & _ & Hsplit).
  pose proof (shuffle_perm imgs s) as Hperm.
  pose proof (shuffle_length imgs s) as Hlen.
  exists x, (shuffle imgs s).1,
    (drop (Z.to_nat (PyFloat.floor x)) (shuffle imgs s).1),
    (take (Z.to_nat (PyFloat.floor x)) (shuffle imgs s).1), (shuffle imgs s).2.
  assert (take (Z.to_nat (PyFloat.floor x)) (shuffle imgs s).1
          ++ drop (Z.to_nat (PyFloat.floor x)) (shuffle imgs s).1 ≡ₚ imgs) as Hall.
  { by rewrite take_drop. }
  repeat (split; [done |]). split; [| split; [| split; [done |]]].
  - rewrite length_take, Hlen. lia.
  - rewrite length_drop, Hlen. lia.
  - intros Hnd im [Hval Htrain].
    rewrite <- Hall in Hnd. apply NoDup_app in Hnd as (_ & Hdisj & _).
    by apply (Hdisj im).
Qed.

Lemma C1_split_of_a_class_witness :
  split_class (H:=Demo.lcg) Demo.args ["a"; "b"; "c"; "d"; "e"] 42
  = Ok (["e"; "d"; "b"; "a"; "c"], ["b"; "a"; "c"], ["e"; "d"], 182)
  ∧ ∃ x shuffled train_imgs val_imgs s',
      PyFloat.nat_mul 5 Demo.f0_5 = Ok x
      ∧ split_class (H:=Demo.lcg) Demo.args ["a"; "b"; "c"; "d"; "e"] 42
        = Ok (shuffled, train_imgs, val_imgs, s')
      ∧ Z.of_nat (length val_imgs) = PyFloat.floor x.
Proof.
  split; [vm_compute; reflexivity |].
  destruct (C1_split_of_a_class (H:=Demo.lcg) Demo.args ["a"; "b"; "c"; "d"; "e"] 42)
    as (x & shuffled & tr & va & s' & Hx & Hsplit & _ & _ & _ & _ & _ & Hlen & _).
  - reflexivity.
  - reflexivity.
  - reflexivity.
  - vm_compute. reflexivity.
  - exists x, shuffled, tr, va, s'. split; [exact Hx |]. split; [exact Hsplit | exact Hlen].
Defined.

(** The demo run writes [images/sub/p.jpeg], selected by two label
    files, to both splits of its class. *)
Example same_image_in_both_splits :
  ∃ c1 c2, c1 ∈ out_copies Demo.output ∧ c2 ∈ out_copies Demo.output
           ∧ cp_src c1 = "images/sub/p.jpeg" ∧ cp_src c2 = "images/sub/p.jpeg"
           ∧ cp_class c1 = cp_class c2
           ∧ cp_split c1 = "train" ∧ cp_split c2 = "val".
Proof.
  unfold Demo.output. cbn [out_copies].
  eexists {| cp_split := "train"; cp_class := "cat"; cp_src := "images/sub/p.jpeg";
             cp_dest := _ |}.
  eexists {| cp_split := "val"; cp_class := "cat"; cp_src := "images/sub/p.jpeg";
             cp_dest := _ |}.
  split; [| split; [| done]].
  - repeat first [apply list_elem_of_here | apply list_elem_of_further].
  - repeat first [apply list_elem_of_here | apply list_elem_of_further].
Qed.

(** ** Runs that complete

    The properties of a completed run above are not vacuous: a run that
    copies, with readable label files, names that are strings and a
    validation fraction between 0 and 1, completes when the images it
    found are among the paths in existence, the class directories being
    makeable (see [ensure_dir]). *)

Lemma resolve_class_name_total (class_map : ClassMap) (chosen : string) :
  names_are_strings class_map → ∃ cname, resolve_class_name class_map chosen = Ok cname.
Proof.
  intros Hnames. unfold resolve_class_name.
  destruct (class_map !! chosen) as [v |] eqn:Hl; [| eauto].
  destruct (Hnames _ _ Hl) as [-> | [name ->]]; eauto.
Qed.

Lemma select_step_total (W : World) (ext_order : list string) (args : Args)
    (class_map : ClassMap) (st : Selection) (lf content : string) :
  names_are_strings class_map → open_read W lf = Ok content →
  ∃ st', select_step W ext_order args class_map st lf = Ok st'.
Proof.
  intros Hnames Hr. unfold select_step.
  rewrite (parse_label_file_spec _ _ _ Hr). cbn [mbind res_bind].
  assert (∀ st0 chosen,
            ∃ st', keep_chosen W ext_order args class_map st0 lf chosen = Ok st') as Hkeep.
  { intros st0 chosen. unfold keep_chosen.
    destruct (find_image_for_label _ _ _ _); [| eauto].
    destruct (resolve_class_name_total class_map chosen Hnames) as [cname ->].
    cbn [mbind res_bind]. eauto. }
  destruct (spec_identifiers content) as [|first tl]; [eauto |].
  destruct (1 <? length (first :: tl)); [| apply Hkeep].
  destruct (force_first args); [apply Hkeep | eauto].
Qed.

Lemma select_loop_total (W : World) (ext_order : list string) (args : Args)
    (class_map : ClassMap) (lfs : list string) (st : Selection) :
  names_are_strings class_map →
  (∀ lf, lf ∈ lfs → ∃ content, open_read W lf = Ok content) →
  ∃ st', select_loop W ext_order args class_map lfs st = Ok st'
         ∧ length (samples st') ≤ length (samples st) + length lfs.
Proof.
  intros Hnames. revert st. induction lfs as [|lf lfs IH]; intros st Hread.
  - exists st. split; [done | simpl; lia].
  - destruct (Hread lf) as [content Hr]; [left |].
    destruct (select_step_total W ext_order args class_map st lf content Hnames Hr)
      as [st1 Hs].
    destruct (IH st1) as (st' & Hl & Hlen).
    { intros lf' Hin. apply Hread. by right. }
    exists st'. cbn [select_loop]. rewrite Hs. cbn [mbind res_bind].
    split; [done |].
    destruct (select_step_samples _ _ _ _ _ _ _ Hs) as [Heq | (img & cname & Heq)];
      rewrite Heq in Hlen; [| rewrite length_app in Hlen]; simpl in *; lia.
Qed.

Lemma copy_all_total (args : Args) (split cname : string) (imgs : list string)
    (E : Files) (t : nat) :
  move args = false → (∀ im, im ∈ imgs → im ∈ E) →
  ∃ cs E' t', copy_all args split cname imgs E t = Ok (cs, E', t') ∧ E ⊆ E'.
Proof.
  intros Hcopy. revert E t. induction imgs as [|im imgs IH]; intros E t Himgs.
  - exists [], E, t. done.
  - cbn [copy_all]. unfold copy_image_to. rewrite Hcopy.
    set (dest_dir := join (output_dir args) [split; cname]).
    destruct (choose_dest_total (ensure_dir E dest_dir) dest_dir im) as [dest ->].
    pose proof (ensure_dir_subseteq E dest_dir) as Hsub.
    rewrite bool_decide_eq_true_2 by (apply Hsub, Himgs; left).
    cbn [mbind res_bind].
    destruct (IH (ensure_dir E dest_dir ∪ {[dest]}) (S t)) as (cs & E' & t' & -> & HE').
    { intros im' Hin. apply elem_of_union_l, Hsub, Himgs. by right. }
    cbn [mbind res_bind]. eexists _, _, _. split; [done |].
    intros p Hp. apply HE', elem_of_union_l, Hsub, Hp.
Qed.

Section completion.
Context `{RandomGen} (args : Args).
Context (Hfraction : is_fraction (val_split args)) (Hcopy : move args = false).

Lemma write_classes_total (by_class : list (string * list string)) (s : rng)
    (E : Files) (t : nat) :
  (∀ c imgs, (c, imgs) ∈ by_class →
             (Z.of_nat (length imgs) < 2 ^ 53)%Z ∧ ∀ im, im ∈ imgs → im ∈ E) →
  ∃ r, write_classes args by_class s E t = Ok r.
Proof.
  revert s E t. induction by_class as [|[cname imgs] by_class IH]; intros s E t Hbc.
  - eexists. done.
  - cbn [write_classes].
    destruct (Hbc cname imgs) as [Hlen Himgs]; [left |].
    destruct (split_class_in_range args imgs s Hfraction Hlen) as (x & _ & _ & _ & ->).
    cbn [mbind res_bind].
    assert (∀ im, im ∈ (shuffle imgs s).1 → im ∈ E) as Hsh.
    { intros im Him. apply Himgs. by rewrite <- (shuffle_perm imgs s). }
    destruct (copy_all_total args "train" cname
                (drop (Z.to_nat (PyFloat.floor x)) (shuffle imgs s).1) E t Hcopy)
      as (cs1 & E1 & t1 & -> & HE1).
    { intros im Him. by apply Hsh, (subseteq_drop _ _ _ Him). }
    cbn [mbind res_bind].
    destruct (copy_all_total args "val" cname
                (take (Z.to_nat (PyFloat.floor x)) (shuffle imgs s).1) E1 t1 Hcopy)
      as (cs2 & E2 & t2 & -> & HE2).
    { intros im Him. by apply HE1, Hsh, (subseteq_take _ _ _ Him). }
    cbn [mbind res_bind].
    destruct (IH (shuffle imgs s).2 E2 t2) as [[[[[bc' cs] s'] E'] t'] ->].
    { intros c imgs' Hin. destruct (Hbc c imgs') as [? Hin']; [by right |].
      split; [done |]. intros im Him. by apply HE2, HE1, Hin'. }
    cbn [mbind res_bind]. eexists. done.
Qed.

Lemma distribution_total (by_class : list (string * list string)) :
  (∀ c imgs, (c, imgs) ∈ by_class → (Z.of_nat (length imgs) < 2 ^ 53)%Z) →
  ∃ rows, distribution args by_class = Ok rows.
Proof.
  induction by_class as [|[cname imgs] by_class IH]; intros Hbc.
  - eexists. done.
  - cbn [distribution].
    destruct (split_class_in_range args imgs (rng_seed 0) Hfraction) as (x & _ & _ & -> & _).
    { apply (Hbc cname). left. }
    cbn [mbind res_bind].
    destruct IH as [rows ->]; [intros c imgs' Hin; apply (Hbc c); by right |].
    cbn [mbind res_bind]. eexists. done.
Qed.
End completion.

Lemma total_images_elem (by_class : list (string * list string)) (c : string)
    (imgs : list string) :
  (c, imgs) ∈ by_class → length imgs ≤ total_images by_class.
Proof.
  unfold total_images. induction by_class as [|[c0 imgs0] by_class IH].
  - intros Hin. by apply elem_of_nil in Hin.
  - rewrite fmap_cons. cbn [sum_list compose snd].
    intros [[= -> ->] | Hin]%elem_of_cons; unfold id; [lia |]. apply IH in Hin.
    unfold sum_list, id in *. lia.
Qed.

(** A run that copies completes. *)
Theorem main_completes `{RandomGen} (W : World) (ext_order : list string)
    (E : Files) (ambient : rng) (args : Args) :
  is_fraction (val_split args) →
  move args = false →
  names_are_strings (load_class_mapping W (classes args)).1 →
  (∀ lf, lf ∈ scan_labels W (labels_dir args) → ∃ content, open_read W lf = Ok content) →
  (∀ lf img, find_image_for_label W ext_order lf (images_dir args) = Some img → img ∈ E) →
  (Z.of_nat (length (scan_labels W (labels_dir args))) < 2 ^ 53)%Z →
  ∃ o, main W ext_order E ambient args = Ok o.
Proof.
  intros Hfraction Hcopy Hnames Hread Hexist Hlen.
  unfold main. rewrite main_select_eq.
  destruct (select_loop_total W ext_order args _ (scan_labels W (labels_dir args))
              Selection_init Hnames Hread) as (st & Hsel & Hsamples).
  rewrite Hsel. cbn [mbind res_bind]. simpl in Hsamples.
  assert (∀ c imgs, (c, imgs) ∈ group_by_class (samples st) →
            (Z.of_nat (length imgs) < 2 ^ 53)%Z ∧ ∀ im, im ∈ imgs → im ∈ E) as Hbc.
  { intros c imgs Hin. split.
    - apply total_images_elem in Hin. rewrite total_images_group in Hin. lia.
    - intros im Him. pose proof (group_by_class_elem _ _ _ _ Hin Him) as Hs.
      destruct (select_loop_origin _ _ _ _ _ _ _ _ _ Hsel Hs)
        as [Hnil | (lf & ? & ? & _ & _ & _ & Hfind & _)].
      + by apply elem_of_nil in Hnil.
      + by eapply Hexist. }
  destruct (write_classes_total args Hfraction Hcopy (group_by_class (samples st))
              (rng_seed (seed args)) E 0 Hbc) as [[[[[bc' cs] s'] E'] t'] Hw].
  rewrite Hw. cbn [mbind res_bind].
  destruct (distribution_total args Hfraction bc') as [rows ->].
  { apply write_classes_trace in Hw as (_ & _ & _ & _ & _ & Hperm).
    intros c imgs' Hin.
    apply list_elem_of_lookup in Hin as [i Hi].
    destruct (Forall2_lookup_r _ _ _ _ _ Hperm Hi) as ([c0 imgs0] & Hi0 & Hc & Hp).
    simpl in *. rewrite Hp.
    apply (Hbc c0 imgs0). apply list_elem_of_lookup. eauto. }
  cbn [mbind res_bind]. eexists. done.
Qed.

(** ** Examples *)

Example split_line : split "  2 0.1 0.2  " = ["2"; "0.1"; "0.2"].
Proof. reflexivity. Qed.

Example splitext_last_dot : splitext "a/b.c/photo.tar.gz" = ("a/b.c/photo.tar", ".gz").
Proof. reflexivity. Qed.

Example splitext_leading_dots : splitext "a/.bashrc" = ("a/.bashrc", "").
Proof. reflexivity. Qed.

Example join_absolute : join "out" ["train"; "/abs"] = "/abs".
Proof. reflexivity. Qed.

Example lines_universal :
  lines ("a" +:+ String "013" (String "010" "b")) = ["a" +:+ LF; "b"].
Proof. reflexivity. Qed.

(** [int(10 * 0.3)] is 3, though the float nearest to 0.3 lies below it;
    [int(100 * 0.57)] is 56. *)
Example n_val_10_at_0_3 : n_val_of 10 Demo.f0_3 = Ok 3%Z.
Proof. vm_compute. reflexivity. Qed.

Example n_val_100_at_0_57 :
  n_val_of 100 (S754_finite false 5134103575202365 (-53)) = Ok 56%Z.
Proof. vm_compute. reflexivity. Qed.

(** A fraction above 1 sends the whole class to validation. *)
Example split_above_one :
  n_val_of 3 (S754_finite false 4503599627370496 (-51)) = Ok 6%Z
  ∧ slice_to ["a"; "b"; "c"] 6 = ["a"; "b"; "c"]
  ∧ slice_from ["a"; "b"; "c"] 6 = [].
Proof. vm_compute. done. Qed.

(** The three forms the line-based parser reads. *)
Example fallback_inline_list :
  fallback_lines (lines ("nc: 2" +:+ LF +:+ "names: [cat, 'sea bird']" +:+ LF)) ∅ false
  = {["0" := "cat"; "1" := "sea bird"]}.
Proof. vm_compute. reflexivity. Qed.

Example fallback_dash_block :
  fallback_lines (lines ("names:" +:+ LF +:+ "  - cat" +:+ LF +:+ "  - dog" +:+ LF)) ∅ false
  = {["0" := "cat"; "1" := "dog"]}.
Proof. vm_compute. reflexivity. Qed.

Example fallback_key_block :
  fallback_lines (lines ("names:" +:+ LF +:+ "  0: cat" +:+ LF +:+ "  7: dog" +:+ LF)) ∅ false
  = {["0" := "cat"; "7" := "dog"]}.
Proof. vm_compute. reflexivity. Qed.

(** The first scenario of the specification: one label file of class 2,
    its image, three class names and no validation share. *)
Example scenario_single_image :
  ∃ o,
    main (H:=Demo.lcg)
         (Demo.world [("labels", [("labels", ["a.txt"])]); ("images", [("images", ["a.jpg"])])]
                     [("labels/a.txt", "2 0.1 0.2 0.3 0.4");
                      ("classes.txt", "cat" +:+ LF +:+ "dog" +:+ LF +:+ "bird" +:+ LF)])
         IMG_EXTS {["images/a.jpg"]} 0
         {| images_dir := "images"; labels_dir := "labels"; output_dir := "output";
            classes := Some "classes.txt"; val_split := Demo.f0_0; move := false;
            force_first := false; seed := 42 |}
    = Ok o
    ∧ out_copies o
      = [{| cp_split := "train"; cp_class := "bird"; cp_src := "images/a.jpg";
            cp_dest := "output/train/bird/a.jpg" |}].
Proof. eexists. split; vm_compute; reflexivity. Qed.

(** The image found directly in the images root depends on the order in
    which the set of extensions is iterated, when the root holds the base
    name under two of them. *)
Example extension_order_matters :
  let W := Demo.world [("images", [("images", ["a.jpg"; "a.png"])])] [] in
  find_image_for_label W [".jpg"; ".jpeg"; ".png"; ".bmp"; ".tif"; ".tiff"]
                       "labels/a.txt" "images" = Some "images/a.jpg"
  ∧ find_image_for_label W [".png"; ".jpg"; ".jpeg"; ".bmp"; ".tif"; ".tiff"]
                         "labels/a.txt" "images" = Some "images/a.png".
Proof. split; reflexivity. Qed.

(** The demo run meets the conditions under which a run completes. *)
Example demo_fraction : is_fraction (val_split Demo.args).
Proof. repeat split. Qed.

(** * Further properties *)

(** ** Mappings by index *)

Lemma indexed_keys_from {A} (l : list A) (k : nat) :
  (imap (λ i v, (of_nat (k + i), v)) l).*1 = of_nat <$> seq k (length l).
Proof.
  revert k. induction l as [|x l IH]; intros k; [done |].
  cbn [imap fmap list_fmap length seq]. rewrite Nat.add_0_r. f_equal.
  rewrite <- (IH (S k)). f_equal. apply imap_ext. intros i y _. simpl.
  f_equal. f_equal. lia.
Qed.

Lemma indexed_keys {A} (l : list A) :
  (imap (λ i v, (of_nat i, v)) l).*1 = of_nat <$> seq 0 (length l).
Proof. apply (indexed_keys_from l 0). Qed.

Lemma indexed_keys_NoDup {A} (l : list A) :
  NoDup (imap (λ i v, (of_nat i, v)) l).*1.
Proof.
  rewrite indexed_keys. apply NoDup_fmap_2; [| apply NoDup_seq].
  unfold of_nat. apply _.
Qed.

(** The mapping built from a list: the key [str(i)] holds the item at
    [i], and no other key holds anything. *)
Lemma indexed_lookup {A} (l : list A) (i : nat) :
  (list_to_map (imap (λ i v, (of_nat i, v)) l) : gmap string A) !! of_nat i = l !! i.
Proof.
  destruct (l !! i) as [x |] eqn:Hi.
  - apply elem_of_list_to_map; [apply indexed_keys_NoDup |].
    apply elem_of_lookup_imap. eauto.
  - apply not_elem_of_list_to_map. rewrite indexed_keys.
    intros (j & Hj%(inj pretty) & Hin%elem_of_seq)%list_elem_of_fmap. subst j.
    apply lookup_ge_None in Hi. lia.
Qed.

Lemma indexed_lookup_other {A} (l : list A) (k : string) :
  (∀ i, i < length l → k ≠ of_nat i) →
  (list_to_map (imap (λ i v, (of_nat i, v)) l) : gmap string A) !! k = None.
Proof.
  intros Hk. apply not_elem_of_list_to_map. rewrite indexed_keys.
  intros (j & -> & Hin%elem_of_seq)%list_elem_of_fmap. apply (Hk j); [lia | done].
Qed.

Lemma indexed_size {A} (l : list A) :
  size (list_to_map (imap (λ i v, (of_nat i, v)) l) : gmap string A) = length l.
Proof.
  rewrite <- size_dom, dom_list_to_map_L, size_list_to_set by apply indexed_keys_NoDup.
  by rewrite length_fmap, length_imap.
Qed.

(** ** The line-per-name file *)

Lemma txt_names_fold (ls : list string) (acc : list string) :
  fold_left (λ (names : list string) line,
               let s := strip line in
               if decide (s = "") then names else (names ++ [s])%list) ls acc
  = acc ++ (strip <$> List.filter (λ line, negb (is_blank line)) ls).
Proof.
  revert acc. induction ls as [|line ls IH]; intros acc; cbn [fold_left List.filter].
  - by rewrite app_nil_r.
  - rewrite IH. cbv zeta. destruct (decide (strip line = "")) as [Hb | Hb].
    + apply PyStrFacts.strip_nil_blank in Hb. by rewrite Hb.
    + destruct (is_blank line) eqn:Hbl.
      { apply PyStrFacts.strip_nil_blank in Hbl. done. }
      simpl. by rewrite <- app_assoc.
Qed.

Lemma load_classes_from_txt_eq (W : World) (path content : string) :
  open_read W path = Ok content →
  load_classes_from_txt W path = Ok (index_map (VScalar ∘ SStr <$> txt_names content)).
Proof.
  intros Hr. unfold load_classes_from_txt. rewrite Hr. cbn [mbind res_bind].
  by rewrite txt_names_fold.
Qed.

(** X1. A readable line-per-name file maps [str(i)] to its [i]-th
    non-blank line, stripped, and maps nothing else; the class of the
    identifier [str(i)] is then that line with its spaces replaced. *)
Theorem X1_classes_txt_by_index (W : World) (path content : string) :
  open_read W path = Ok content →
  ∃ m, load_classes_from_txt W path = Ok m
       ∧ (∀ i, m !! of_nat i = VScalar ∘ SStr <$> txt_names content !! i)
       ∧ (∀ k, (∀ i, i < length (txt_names content) → k ≠ of_nat i) → m !! k = None)
       ∧ size m = length (txt_names content)
       ∧ (∀ i name, txt_names content !! i = Some name →
                    resolve_class_name m (of_nat i) = Ok (replace_char " " "_" name)).
Proof.
  intros Hr. eexists. split; [by apply load_classes_from_txt_eq |].
  unfold index_map.
  assert (∀ i, (list_to_map (imap (λ i v, (of_nat i, v))
                               (VScalar ∘ SStr <$> txt_names content)) : ClassMap)
               !! of_nat i = VScalar ∘ SStr <$> txt_names content !! i) as Hl.
  { intros i. by rewrite indexed_lookup, list_lookup_fmap. }
  split; [done |]. split; [| split].
  - intros k Hk. apply indexed_lookup_other. rewrite length_fmap. done.
  - by rewrite indexed_size, length_fmap.
  - intros i name Hi. unfold resolve_class_name. rewrite Hl, Hi. done.
Qed.

(** ** The mapping and its warnings *)

(** X2. [load_class_mapping] prints at most one warning, and a warning
    always comes with the empty mapping; a mapping that is not empty is
    the one a loader returned for an existing file. The converse fails
    for a line-per-name file: one that exists and holds no name gives the
    empty mapping and no warning at all. *)
Theorem X2_warning_means_no_mapping (W : World) (classes_path : option string) :
  ((load_class_mapping W classes_path).2 = []
   ∨ ((load_class_mapping W classes_path).1 = ∅
      ∧ ∃ w, (load_class_mapping W classes_path).2 = [w]))
  ∧ ((load_class_mapping W classes_path).1 ≠ ∅ →
     (load_class_mapping W classes_path).2 = []
     ∧ ∃ path, classes_path = Some path ∧ os_isfile W path = true
        ∧ (load_classes_from_txt W path = Ok (load_class_mapping W classes_path).1
           ∨ load_classes_from_yaml W path = Ok (load_class_mapping W classes_path).1))
  ∧ (∀ path content,
       classes_path = Some path → path ≠ "" → os_isfile W path = true →
       lower (splitext path).2 = ".txt" →
       open_read W path = Ok content → txt_names content = [] →
       load_class_mapping W classes_path = (∅, [])).
Proof.
  split; [| split].
  - unfold load_class_mapping.
    destruct classes_path as [path |]; [| by left].
    destruct (decide (path = "")); [by left |].
    destruct (os_isfile W path); simpl; [| right; eauto].
    case_bool_decide.
    + destruct (load_classes_from_txt W path); simpl; [by left | right; eauto].
    + destruct (bool_decide _ || bool_decide _); simpl; [| right; eauto].
      destruct (load_classes_from_yaml W path); simpl; [| right; eauto].
      case_bool_decide; simpl; [right; eauto | by left].
  - unfold load_class_mapping.
    destruct classes_path as [path |]; [| done].
    destruct (decide (path = "")); [done |].
    destruct (os_isfile W path) eqn:Hfile; simpl; [| done].
    case_bool_decide.
    + destruct (load_classes_from_txt W path) as [m | e] eqn:Hl; simpl; [| done].
      intros _. split; [done |]. exists path. eauto.
    + destruct (bool_decide _ || bool_decide _); simpl; [| done].
      destruct (load_classes_from_yaml W path) as [m | e] eqn:Hl; simpl; [| done].
      case_bool_decide; simpl; [done |].
      intros _. split; [done |]. exists path. eauto.
  - intros path content -> Hne Hfile Hext Hr Hnames. unfold load_class_mapping.
    destruct (decide (path = "")); [done |]. rewrite Hfile, Hext. simpl.
    rewrite (load_classes_from_txt_eq W path content Hr), Hnames. done.
Qed.

(** ** The line-based parser *)

Lemma fallback_lines_before_names (pre rest : list string) (mapping : gmap string string) :
  Forall (λ line, is_names_line line = false) pre →
  fallback_lines (pre ++ rest) mapping false = fallback_lines rest mapping false.
Proof.
  induction 1 as [|line pre Hline _ IH]; [done |].
  cbn [app fallback_lines]. unfold is_names_line in Hline.
  destruct (decide (strip (rstrip_chars LF line) = "")); [done |].
  by rewrite Hline.
Qed.

(** X4. The line-based parser ignores every line that comes before the
    [names:] line. A file with no such line gives the empty mapping, which
    [load_class_mapping] reports with the warning that no names were
    found. *)
Theorem X4_fallback_needs_names_line (W : World) (path content : string)
    (pre rest : list string) (mapping : gmap string string) :
  Forall (λ line, is_names_line line = false) pre →
  fallback_lines (pre ++ rest) mapping false = fallback_lines rest mapping false
  ∧ fallback_lines pre ∅ false = ∅
  ∧ (yaml_safe_load W = None → open_read W path = Ok content →
     lines content = pre → path ≠ "" → os_isfile W path = true →
     lower (splitext path).2 = ".yaml" ∨ lower (splitext path).2 = ".yml" →
     load_class_mapping W (Some path) = (∅, [WarnYamlEmpty])).
Proof.
  intros Hpre. split; [by apply fallback_lines_before_names |].
  assert (fallback_lines pre ∅ false = ∅) as Hnone.
  { rewrite <- (app_nil_r pre). by rewrite fallback_lines_before_names. }
  split; [done |].
  intros Hyaml Hr Hlines Hne Hfile Hext. unfold load_class_mapping.
  destruct (decide (path = "")); [done |]. rewrite Hfile. simpl.
  assert (load_classes_from_yaml W path = Ok ∅) as ->.
  { unfold load_classes_from_yaml. rewrite Hyaml, Hr. cbn [mbind res_bind].
    rewrite Hlines, Hnone. by rewrite fmap_empty. }
  destruct Hext as [-> | ->]; done.
Qed.

Lemma indexed_snoc {A} (l : list A) (v : A) :
  (list_to_map (imap (λ i v, (of_nat i, v)) (l ++ [v])) : gmap string A)
  = <[of_nat (length l) := v]> (list_to_map (imap (λ i v, (of_nat i, v)) l)).
Proof.
  apply map_eq. intros k.
  destruct (decide (k = of_nat (length l))) as [-> | Hk].
  - rewrite lookup_insert_eq, indexed_lookup.
    by rewrite lookup_app_r, Nat.sub_diag.
  - rewrite lookup_insert_ne by done.
    destruct (list_to_map (imap (λ i v, (of_nat i, v)) l) !! k) as [x |] eqn:Hl.
    + apply elem_of_list_to_map in Hl; [| apply indexed_keys_NoDup].
      apply elem_of_lookup_imap in Hl as (i & y & [= -> ->] & Hi).
      rewrite indexed_lookup. by apply lookup_app_l_Some.
    + apply not_elem_of_list_to_map. rewrite indexed_keys.
      apply not_elem_of_list_to_map in Hl. rewrite indexed_keys in Hl.
      rewrite length_app. simpl. rewrite Nat.add_1_r, seq_S, fmap_app.
      intros [Hin | ->%list_elem_of_singleton]%elem_of_app; done.
Qed.

Lemma dash_line_facts (line : string) :
  is_dash_line line = true →
  strip (rstrip_chars LF line) ≠ "" ∧ is_names_line line = false.
Proof.
  unfold is_dash_line, is_names_line.
  destruct (strip (rstrip_chars LF line)) as [|c r]; [done |]. simpl.
  intros [Hc%bool_decide_eq_true _]%andb_true_iff. subst c. done.
Qed.

Lemma fallback_lines_dash_block (block : list string) (vals : list string) :
  Forall (λ line, is_dash_line line = true) block →
  fallback_lines block (list_to_map (imap (λ i v, (of_nat i, v)) vals)) true
  = list_to_map (imap (λ i v, (of_nat i, v)) (vals ++ (dash_value <$> block))).
Proof.
  intros Hblock. revert vals.
  induction Hblock as [|line block Hline _ IH]; intros vals.
  - by rewrite app_nil_r.
  - cbn [fallback_lines]. destruct (dash_line_facts line Hline) as [Hne Hnames].
    unfold is_dash_line, is_names_line in *.
    destruct (decide (strip (rstrip_chars LF line) = "")); [done |].
    rewrite Hnames, Hline, indexed_size, <- indexed_snoc, IH.
    rewrite fmap_cons, <- app_assoc. done.
Qed.

(** X5. A block of [- value] lines under a [names:] line gives the mapping
    from [str(i)] to the [i]-th value, unquoted, whatever comes before the
    [names:] line. *)
Theorem X5_fallback_dash_block (pre block : list string) (header : string) :
  Forall (λ line, is_names_line line = false) pre →
  opens_block header = true →
  Forall (λ line, is_dash_line line = true) block →
  fallback_lines (pre ++ header :: block) ∅ false
  = list_to_map (imap (λ i v, (of_nat i, v)) (dash_value <$> block))
  ∧ ∀ i, fallback_lines (pre ++ header :: block) ∅ false !! of_nat i
         = dash_value <$> block !! i.
Proof.
  intros Hpre Hheader Hblock.
  assert (fallback_lines (pre ++ header :: block) ∅ false
          = list_to_map (imap (λ i v, (of_nat i, v)) (dash_value <$> block))) as Heq.
  { rewrite fallback_lines_before_names by done. cbn [fallback_lines].
    unfold opens_block, is_names_line in Hheader.
    apply andb_true_iff in Hheader as [Hnames Hblock'%negb_true_iff].
    destruct (decide (strip (rstrip_chars LF header) = "")) as [He | _].
    { rewrite He in Hnames. done. }
    rewrite Hnames, Hblock'.
    apply (fallback_lines_dash_block block [] Hblock). }
  split; [done |]. intros i. by rewrite Heq, indexed_lookup, list_lookup_fmap.
Qed.

Lemma X1_classes_txt_by_index_witness :
  ∃ m, load_classes_from_txt Demo.W "classes.txt" = Ok m
       ∧ size m = 3
       ∧ resolve_class_name m "2" = Ok "sea_bird".
Proof.
  assert (open_read Demo.W "classes.txt"
          = Ok ("cat" +:+ LF +:+ "dog" +:+ LF +:+ "sea bird" +:+ LF)) as Hr
    by (vm_compute; reflexivity).
  destruct (X1_classes_txt_by_index Demo.W "classes.txt" _ Hr)
    as (m & Hm & _ & _ & Hsize & Hres).
  exists m. split; [exact Hm |]. split; [exact Hsize |].
  apply (Hres 2 "sea bird"). vm_compute. reflexivity.
Defined.

Lemma X4_fallback_needs_names_line_witness :
  load_class_mapping
    (Demo.world [] [("data.yaml", "nc: 2" +:+ LF +:+ "train: images" +:+ LF)])
    (Some "data.yaml")
  = (∅, [WarnYamlEmpty]).
Proof.
  assert (Forall (λ line, is_names_line line = false)
                 ["nc: 2" +:+ LF; "train: images" +:+ LF]) as Hpre
    by (repeat constructor).
  destruct (X4_fallback_needs_names_line
              (Demo.world [] [("data.yaml", "nc: 2" +:+ LF +:+ "train: images" +:+ LF)])
              "data.yaml" ("nc: 2" +:+ LF +:+ "train: images" +:+ LF)
              ["nc: 2" +:+ LF; "train: images" +:+ LF] [] ∅ Hpre) as (_ & _ & Hload).
  apply Hload; try done. by left.
Defined.

Lemma X5_fallback_dash_block_witness :
  fallback_lines (["nc: 2" +:+ LF] ++ ("names:" +:+ LF) :: ["  - cat" +:+ LF; "  - 'sea bird'"])
                 ∅ false !! "1"
  = Some "sea bird".
Proof.
  assert (Forall (λ line, is_names_line line = false) ["nc: 2" +:+ LF]) as Hpre
    by (repeat constructor).
  assert (opens_block ("names:" +:+ LF) = true) as Hheader by (vm_compute; reflexivity).
  assert (Forall (λ line, is_dash_line line = true) ["  - cat" +:+ LF; "  - 'sea bird'"])
    as Hblock by (repeat constructor).
  destruct (X5_fallback_dash_block _ _ _ Hpre Hheader Hblock) as [_ Hl].
  exact (Hl 1).
Defined.

(** The parser reads a file part by part, as long as the first part holds
    no inline list: the second part is read with the mapping the first
    one gave, in block mode once a [names:] line was met. *)
Lemma fallback_lines_app (l1 l2 : list string) (mapping : gmap string string) (b : bool) :
  Forall (λ line, is_names_line line = true → opens_block line = true) l1 →
  fallback_lines (l1 ++ l2) mapping b
  = fallback_lines l2 (fallback_lines l1 mapping b) (b || existsb is_names_line l1).
Proof.
  intros Hl1. revert mapping b.
  induction Hl1 as [|line l1 Hline _ IH]; intros mapping b.
  - by rewrite orb_false_r.
  - cbn [app fallback_lines existsb]. unfold opens_block, is_names_line in *.
    destruct (decide (strip (rstrip_chars LF line) = "")) as [He | _].
    { rewrite He. cbn [startswith orb]. apply IH. }
    destruct (startswith (strip (rstrip_chars LF line)) "names:") eqn:Hn.
    + specialize (Hline eq_refl). cbn [andb] in Hline.
      apply negb_true_iff in Hline. rewrite Hline, IH. cbn [orb].
      by rewrite orb_true_r.
    + cbn [orb]. destruct b; [| apply IH].
      destruct (startswith (strip (rstrip_chars LF line)) "-"); [apply IH |].
      destruct (contains ":" (strip (rstrip_chars LF line))); [| apply IH].
      destruct (split_once ":" (strip (rstrip_chars LF line))) as [key val].
      destruct (decide (strip key = "")); apply IH.
Qed.

(** X6. An inline list [names: [a, b, c]] ends the parse: the mapping is
    the one from [str(i)] to the [i]-th item of that line, whatever the
    lines before it gave and whatever comes after it. *)
Theorem X6_fallback_inline_list_ends_parse (l1 rest : list string) (header : string)
    (mapping : gmap string string) (b : bool) :
  Forall (λ line, is_names_line line = true → opens_block line = true) l1 →
  is_names_line header = true →
  opens_block header = false →
  fallback_lines (l1 ++ header :: rest) mapping b
  = list_to_map (imap (λ i v, (of_nat i, v)) (inline_items header))
  ∧ ∀ i, fallback_lines (l1 ++ header :: rest) mapping b !! of_nat i
         = inline_items header !! i.
Proof.
  intros Hl1 Hnames Hinline.
  assert (fallback_lines (l1 ++ header :: rest) mapping b
          = list_to_map (imap (λ i v, (of_nat i, v)) (inline_items header))) as Heq.
  { rewrite fallback_lines_app by done. cbn [fallback_lines].
    unfold opens_block in Hinline. rewrite Hnames in Hinline. cbn [andb] in Hinline.
    apply negb_false_iff in Hinline. unfold is_names_line in Hnames.
    destruct (decide (strip (rstrip_chars LF header) = "")) as [He | _].
    { rewrite He in Hnames. done. }
    rewrite Hnames, Hinline. done. }
  split; [done |]. intros i. by rewrite Heq, indexed_lookup.
Qed.

Lemma X6_fallback_inline_list_ends_parse_witness :
  fallback_lines (["names:" +:+ LF; "  - zero" +:+ LF]
                  ++ ("names: [cat, 'sea bird']" +:+ LF) :: ["  - dog" +:+ LF])
                 ∅ false !! "1"
  = Some "sea bird".
Proof.
  assert (Forall (λ line, is_names_line line = true → opens_block line = true)
                 ["names:" +:+ LF; "  - zero" +:+ LF]) as Hl1
    by (repeat constructor; vm_compute; done).
  assert (is_names_line ("names: [cat, 'sea bird']" +:+ LF) = true) as Hn
    by (vm_compute; reflexivity).
  assert (opens_block ("names: [cat, 'sea bird']" +:+ LF) = false) as Hi
    by (vm_compute; reflexivity).
  destruct (X6_fallback_inline_list_ends_parse _ ["  - dog" +:+ LF] _ ∅ false Hl1 Hn Hi)
    as [_ Hl].
  exact (Hl 1).
Defined.

(** X7. The block under [names:] has no end: a [key: value] line that
    follows the items, such as [nc: 2], is taken for one more class. *)
Theorem X7_fallback_block_has_no_end (pre block : list string) (header line : string) :
  Forall (λ line, is_names_line line = false) pre →
  opens_block header = true →
  Forall (λ line, is_dash_line line = true) block →
  is_entry_line line = true →
  fallback_lines (pre ++ header :: block ++ [line]) ∅ false
  = <[entry_key line := entry_value line]>
      (list_to_map (imap (λ i v, (of_nat i, v)) (dash_value <$> block)))
  ∧ fallback_lines (pre ++ header :: block ++ [line]) ∅ false !! entry_key line
    = Some (entry_value line).
Proof.
  intros Hpre Hheader Hblock Hline.
  assert (fallback_lines (pre ++ header :: block ++ [line]) ∅ false
          = <[entry_key line := entry_value line]>
              (list_to_map (imap (λ i v, (of_nat i, v)) (dash_value <$> block)))) as Heq.
  { rewrite fallback_lines_before_names by done.
    change (header :: block ++ [line]) with ((header :: block) ++ [line]).
    rewrite fallback_lines_app.
    - cbn [existsb orb]. replace (is_names_line header) with true
        by (symmetry; unfold opens_block in Hheader; by destruct (is_names_line header)).
      cbn [orb].
      assert (fallback_lines (header :: block) ∅ false
              = list_to_map (imap (λ i v, (of_nat i, v)) (dash_value <$> block))) as ->.
      { cbn [fallback_lines].
        unfold opens_block, is_names_line in Hheader.
        apply andb_true_iff in Hheader as [Hnames Hb%negb_true_iff].
        destruct (decide (strip (rstrip_chars LF header) = "")) as [He | _].
        { rewrite He in Hnames. done. }
        rewrite Hnames, Hb. apply (fallback_lines_dash_block block [] Hblock). }
      cbn [fallback_lines].
      unfold is_entry_line, is_names_line, is_dash_line, entry_key, entry_value in *.
      apply andb_true_iff in Hline as [Hline Hkey%negb_true_iff].
      apply andb_true_iff in Hline as [Hline Hcolon].
      apply andb_true_iff in Hline as [Hn%negb_true_iff Hd%negb_true_iff].
      destruct (decide (strip (rstrip_chars LF line) = "")) as [He | _].
      { rewrite He in Hcolon. done. }
      rewrite Hn, Hd, Hcolon.
      destruct (split_once ":" (strip (rstrip_chars LF line))) as [key val].
      cbn [fst snd] in *. apply bool_decide_eq_false in Hkey.
      destruct (decide (strip key = "")); done.
    - constructor; [done |].
      eapply Forall_impl; [exact Hblock |]. intros l Hd Hn.
      apply dash_line_facts in Hd as [_ Hd]. congruence. }
  split; [done |]. by rewrite Heq, lookup_insert_eq.
Qed.

Lemma X7_fallback_block_has_no_end_witness :
  fallback_lines ([] ++ ("names:" +:+ LF) :: ["- cat" +:+ LF; "- dog" +:+ LF] ++ ["nc: 2" +:+ LF])
                 ∅ false !! "nc"
  = Some "2".
Proof.
  assert (opens_block ("names:" +:+ LF) = true) as Hheader by (vm_compute; reflexivity).
  assert (Forall (λ line, is_dash_line line = true) ["- cat" +:+ LF; "- dog" +:+ LF])
    as Hblock by (repeat constructor).
  assert (is_entry_line ("nc: 2" +:+ LF) = true) as Hline by (vm_compute; reflexivity).
  destruct (X7_fallback_block_has_no_end [] _ _ _ (Forall_nil_2 _) Hheader Hblock Hline)
    as [_ Hl].
  exact Hl.
Defined.

(** ** The structured file read with PyYAML *)

Lemma py_str_int (i : nat) : py_str (SInt (Z.of_nat i)) = of_nat i.
Proof.
  unfold py_str, of_nat, pretty at 2, pretty_nat. destruct i as [|i]; [done |].
  rewrite <- (Nat2Z.id (S i)), Z_nat_N, Nat2Z.id. simpl. done.
Qed.

Lemma fold_insert_lookup (names : list (scalar * pyval)) (m0 : ClassMap) (k : string) :
  fold_left (λ m kv, <[py_str kv.1 := kv.2]> m) names m0 !! k
  = match last_named names k with
    | Some v => Some v
    | None => m0 !! k
    end.
Proof.
  unfold last_named. induction names as [|kv names IH] using rev_ind; [done |].
  rewrite fold_left_app, reverse_snoc. cbn [fold_left List.find].
  case_bool_decide as Hk.
  - rewrite Hk. by rewrite lookup_insert_eq.
  - by rewrite lookup_insert_ne.
Qed.

(** X3. With PyYAML, a [names] dictionary gives each key, printed as a
    string, the value of the last item that prints as that key: the
    integer key [i] and the string key [str(i)] are one entry. A [names]
    list gives [str(i)] its [i]-th item and nothing else. *)
Theorem X3_yaml_names_by_printed_key (W : World) (safe_load : string → res pyval)
    (path content : string) (d : list (scalar * pyval)) :
  yaml_safe_load W = Some safe_load →
  open_read W path = Ok content →
  safe_load content = Ok (VDict d) →
  (∀ names, dict_get d (SStr "names") = Some (VDict names) →
     ∃ m, load_classes_from_yaml W path = Ok m
          ∧ (∀ k, m !! k = last_named names k)
          ∧ (∀ i v rest, names = rest ++ [(SInt (Z.of_nat i), v)] → m !! of_nat i = Some v))
  ∧ (∀ names, dict_get d (SStr "names") = Some (VList names) →
       ∃ m, load_classes_from_yaml W path = Ok m
            ∧ (∀ i, m !! of_nat i = names !! i)
            ∧ size m = length names).
Proof.
  intros Hyaml Hr Hload.
  assert (∀ v, dict_get d (SStr "names") = Some v → truthy (VDict d) = true) as Htruthy.
  { intros v Hv. destruct d; [done |]. done. }
  split.
  - intros names Hnames. eexists. split.
    { unfold load_classes_from_yaml. rewrite Hyaml, Hr. cbn [mbind res_bind].
      rewrite Hload. cbn [mbind res_bind]. rewrite (Htruthy _ Hnames). cbn [negb].
      rewrite Hnames. done. }
    assert (∀ k, fold_left (λ m kv, <[py_str kv.1 := kv.2]> m) names (∅ : ClassMap) !! k
                 = last_named names k) as Hl.
    { intros k. rewrite fold_insert_lookup, lookup_empty. by destruct (last_named names k). }
    split; [done |]. intros i v rest ->. rewrite Hl. unfold last_named.
    rewrite reverse_snoc. cbn [List.find fst]. by rewrite py_str_int, bool_decide_eq_true_2.
  - intros names Hnames. eexists. split.
    { unfold load_classes_from_yaml. rewrite Hyaml, Hr. cbn [mbind res_bind].
      rewrite Hload. cbn [mbind res_bind]. rewrite (Htruthy _ Hnames). cbn [negb].
      rewrite Hnames. done. }
    unfold index_map. split; [intros i; apply indexed_lookup | apply indexed_size].
Qed.

Lemma X3_yaml_names_by_printed_key_witness :
  ∃ m, load_classes_from_yaml
         {| os_walk := λ _, []; os_isfile := λ _, true;
            open_read := λ _, Ok "names: {1: cat, '1': dog}";
            yaml_safe_load :=
              Some (λ _, Ok (VDict [(SStr "names",
                                     VDict [(SInt 1, VScalar (SStr "cat"));
                                            (SStr "1", VScalar (SStr "dog"))])])) |}
         "data.yaml" = Ok m
       ∧ m !! "1" = Some (VScalar (SStr "dog")).
Proof.
  destruct (X3_yaml_names_by_printed_key
              {| os_walk := λ _, []; os_isfile := λ _, true;
                 open_read := λ _, Ok "names: {1: cat, '1': dog}";
                 yaml_safe_load :=
                   Some (λ _, Ok (VDict [(SStr "names",
                                          VDict [(SInt 1, VScalar (SStr "cat"));
                                                 (SStr "1", VScalar (SStr "dog"))])])) |}
              _ "data.yaml" _ _ eq_refl eq_refl eq_refl) as [Hdict _].
  destruct (Hdict _ eq_refl) as (m & Hm & Hl & _).
  exists m. split; [exact Hm |]. rewrite Hl. vm_compute. reflexivity.
Defined.

(** ** The label files found *)

Lemma str_take_drop (n : nat) (s : string) : str_take n s +:+ str_drop n s = s.
Proof.
  revert s. induction n as [|n IH]; intros [|c s]; cbn [str_take str_drop];
    rewrite ?PyStrFacts.app_nil_l, ?PyStrFacts.app_cons; [done.. |].
  by rewrite IH.
Qed.

Lemma basename_app_sep (a f : string) :
  contains "/" f = false → basename (a +:+ String "/" f) = f.
Proof.
  intros Hf. unfold basename. rewrite OsPathFacts.rfind_last by done.
  replace (Z.to_nat (Z.of_nat (String.length a) + 1)) with (String.length (a +:+ "/")).
  - replace (a +:+ String "/" f) with ((a +:+ "/") +:+ f).
    + apply OsPathFacts.str_drop_app.
    + by rewrite PyStrFacts.app_assoc, PyStrFacts.app_cons, PyStrFacts.app_nil_l.
  - rewrite PyStrFacts.length_app. simpl. lia.
Qed.

(** The last component of a path made by joining a directory and a name
    without separator is that name. *)
Lemma basename_join (root f : string) :
  contains "/" f = false → basename (join root [f]) = f.
Proof.
  intros Hf. cbn [join fold_left]. unfold join2.
  destruct (startswith f "/") eqn:Hs.
  { destruct f as [|c f]; [done |]. cbn [startswith] in Hs.
    apply andb_true_iff in Hs as [Hc%bool_decide_eq_true _]. subst c.
    cbn [contains] in Hf. by rewrite bool_decide_eq_true_2 in Hf. }
  destruct (bool_decide (root = "") || endswith root "/") eqn:Hr.
  - apply orb_true_iff in Hr as [Hr%bool_decide_eq_true | Hr].
    + subst root. rewrite PyStrFacts.app_nil_l. unfold basename.
      rewrite OsPathFacts.rfind_absent by done. apply OsPathFacts.str_drop_0.
    + unfold endswith in Hr. apply andb_true_iff in Hr as [_ Hr%bool_decide_eq_true].
      rewrite <- (str_take_drop (String.length root - String.length "/") root), Hr.
      rewrite PyStrFacts.app_assoc, PyStrFacts.app_cons, PyStrFacts.app_nil_l.
      by apply basename_app_sep.
  - rewrite PyStrFacts.app_cons, PyStrFacts.app_nil_l. by apply basename_app_sep.
Qed.

(** X8. The label files found are the paths [join(root, f)] of the names
    [f] that the walk lists and that end in [.txt] whatever their case,
    in the order of the walk and as many as there are such names. As a
    listed name holds no separator, each path found has such a name as
    its last component: it is a path the image locator takes a base name
    from. *)
Theorem X8_label_files_found (W : World) (labels_dir : string) :
  Forall (λ rf, Forall (λ f, contains "/" f = false) rf.2) (os_walk W labels_dir) →
  (∀ p, p ∈ scan_labels W labels_dir
        ↔ ∃ root files f, (root, files) ∈ os_walk W labels_dir ∧ f ∈ files
                          ∧ endswith (lower f) ".txt" = true ∧ p = join root [f])
  ∧ length (scan_labels W labels_dir)
    = sum_list ((λ rf, length (List.filter (λ f, endswith (lower f) ".txt") rf.2))
                <$> os_walk W labels_dir)
  ∧ (∀ p, p ∈ scan_labels W labels_dir →
          endswith (lower (basename p)) ".txt" = true
          ∧ ∃ root files, (root, files) ∈ os_walk W labels_dir ∧ basename p ∈ files).
Proof.
  intros Hnames.
  assert (∀ p, p ∈ scan_labels W labels_dir
               ↔ ∃ root files f, (root, files) ∈ os_walk W labels_dir ∧ f ∈ files
                                 ∧ endswith (lower f) ".txt" = true ∧ p = join root [f])
    as Hscan.
  { intros p. unfold scan_labels. rewrite list_elem_of_bind. split.
    - intros ([root files] & Hp & Hin). apply list_elem_of_bind in Hp as (f & Hp & Hf).
      apply list_elem_of_singleton in Hp. apply list_elem_of_In, filter_In in Hf as [Hf Ht].
      apply list_elem_of_In in Hf. eauto 10.
    - intros (root & files & f & Hin & Hf & Ht & ->). exists (root, files).
      split; [| done]. apply list_elem_of_bind. exists f. split; [by apply list_elem_of_singleton |].
      apply list_elem_of_In, filter_In. split; [by apply list_elem_of_In | done]. }
  split; [done |]. split.
  - unfold scan_labels. clear. induction (os_walk W labels_dir) as [|[root files] w IH]; [done |].
    cbn [mbind list_bind fmap list_fmap sum_list sum_list_with]. rewrite length_app.
    unfold sum_list, id in *. rewrite <- IH. f_equal. cbn [snd].
    induction (List.filter _ files) as [|f fs IHf]; [done |].
    cbn [mbind list_bind app length]. by rewrite <- IHf.
  - intros p (root & files & f & Hin & Hf & Ht & ->)%Hscan.
    rewrite Forall_forall in Hnames. specialize (Hnames _ Hin). cbn [snd] in Hnames.
    rewrite Forall_forall in Hnames. specialize (Hnames _ Hf).
    rewrite basename_join by done. eauto.
Qed.

Lemma X8_label_files_found_witness :
  length (scan_labels Demo.W "labels") = 7
  ∧ endswith (lower (basename "labels/b.TXT")) ".txt" = true.
Proof.
  assert (Forall (λ rf, Forall (λ f, contains "/" f = false) rf.2) (os_walk Demo.W "labels"))
    as Hnames by (vm_compute; repeat constructor).
  destruct (X8_label_files_found Demo.W "labels" Hnames) as (Hscan & Hlen & Hbase).
  split; [rewrite Hlen; vm_compute; reflexivity |].
  apply Hbase, Hscan. exists "labels", ["a.txt"; "b.TXT"; "c.txt"; "notes.md"; "d.txt"; "e.txt"], "b.TXT".
  split; [vm_compute; apply list_elem_of_here |].
  split; [apply list_elem_of_further, list_elem_of_here |].
  split; vm_compute; reflexivity.
Defined.

(** ** The image locator *)

Lemma search_files_no_match (base root : string) (files : list string) :
  Forall (λ g, ¬ image_name_matches base g) files →
  search_files base root files = None.
Proof.
  induction 1 as [|g files Hg _ IH]; [done |].
  cbn [search_files]. destruct (splitext g) as [name ext] eqn:Hs.
  destruct (bool_decide (name = base) && in_IMG_EXTS (lower ext)) eqn:Hm; [| done].
  apply andb_true_iff in Hm as [Hn%bool_decide_eq_true Hx%bool_decide_eq_true].
  destruct Hg. unfold image_name_matches. by rewrite Hs.
Qed.

Lemma search_files_first (base root : string) (l1 l2 : list string) (f : string) :
  Forall (λ g, ¬ image_name_matches base g) l1 →
  image_name_matches base f →
  search_files base root (l1 ++ f :: l2) = Some (join root [f]).
Proof.
  intros Hl1 [Hn Hx]. induction Hl1 as [|g l1 Hg _ IH].
  - cbn [app search_files]. destruct (splitext f) as [name ext]. cbn [fst snd] in *.
    unfold in_IMG_EXTS. by rewrite !bool_decide_eq_true_2.
  - cbn [app search_files]. destruct (splitext g) as [name ext] eqn:Hs.
    destruct (bool_decide (name = base) && in_IMG_EXTS (lower ext)) eqn:Hm; [| done].
    apply andb_true_iff in Hm as [Hn'%bool_decide_eq_true Hx'%bool_decide_eq_true].
    destruct Hg. unfold image_name_matches. by rewrite Hs.
Qed.

Lemma search_walk_first (base : string) (w1 w2 : list (string * list string))
    (root : string) (l1 l2 : list string) (f : string) :
  Forall (λ rf, Forall (λ g, ¬ image_name_matches base g) rf.2) w1 →
  Forall (λ g, ¬ image_name_matches base g) l1 →
  image_name_matches base f →
  search_walk base (w1 ++ (root, l1 ++ f :: l2) :: w2) = Some (join root [f]).
Proof.
  intros Hw1 Hl1 Hf. induction Hw1 as [|[r fs] w1 Hfs _ IH].
  - cbn [app search_walk]. by rewrite search_files_first.
  - cbn [app search_walk]. by rewrite search_files_no_match.
Qed.

Lemma find_first {A} (p : A → bool) (l1 l2 : list A) (x : A) :
  Forall (λ y, p y = false) l1 → p x = true → List.find p (l1 ++ x :: l2) = Some x.
Proof.
  intros Hl1 Hx. induction Hl1 as [|y l1 Hy _ IH]; cbn [app List.find].
  - by rewrite Hx.
  - by rewrite Hy.
Qed.

Lemma find_none {A} (p : A → bool) (l : list A) :
  Forall (λ y, p y = false) l → List.find p l = None.
Proof. induction 1 as [|y l Hy _ IH]; cbn [List.find]; [done |]. by rewrite Hy. Qed.

(** X9. Which image the locator returns when several would do. A file
    [base + ext] right under the images root wins over everything else,
    for the first extension of the iteration order that has one. Failing
    that, the locator returns the first file of the walk, directory by
    directory and name by name, whose name is the base name and whose
    extension is, whatever its case, an accepted one. *)
Theorem X9_locator_returns_first_match (W : World) (ext_order : list string)
    (label_path images_dir : string) :
  let base := (splitext (basename label_path)).1 in
  let direct := λ ext, os_isfile W (join images_dir [base +:+ ext]) in
  (∀ e1 ext e2,
     ext_order = e1 ++ ext :: e2 →
     Forall (λ e, direct e = false) e1 → direct ext = true →
     find_image_for_label W ext_order label_path images_dir
     = Some (join images_dir [base +:+ ext]))
  ∧ (∀ w1 root l1 f l2 w2,
       Forall (λ e, direct e = false) ext_order →
       os_walk W images_dir = w1 ++ (root, l1 ++ f :: l2) :: w2 →
       Forall (λ rf, Forall (λ g, ¬ image_name_matches base g) rf.2) w1 →
       Forall (λ g, ¬ image_name_matches base g) l1 →
       image_name_matches base f →
       find_image_for_label W ext_order label_path images_dir = Some (join root [f])).
Proof.
  intros base direct. split.
  - intros e1 ext e2 -> He1 Hext. unfold find_image_for_label.
    pose proof (find_first direct e1 e2 ext He1 Hext) as Hfind.
    unfold direct, base in Hfind. by rewrite Hfind.
  - intros w1 root l1 f l2 w2 Hnone Hwalk Hw1 Hl1 Hf. unfold find_image_for_label.
    pose proof (find_none direct ext_order Hnone) as Hfind.
    unfold direct, base in Hfind. rewrite Hfind, Hwalk.
    by apply search_walk_first.
Qed.

(** ** Grouping by class *)

Lemma by_class_append_map (bc : list (string * list string)) (cname img : string) :
  (list_to_map (by_class_append bc cname img) : gmap string (list string))
  = <[cname := default [] ((list_to_map bc : gmap string (list string)) !! cname) ++ [img]]>
      (list_to_map bc).
Proof.
  induction bc as [|[c imgs] bc IH]; [done |].
  cbn [by_class_append]. destruct (decide (c = cname)) as [-> | Hc].
  - cbn [list_to_map foldr uncurry]. rewrite lookup_insert_eq. cbn [default].
    by rewrite insert_insert_eq.
  - change (list_to_map ((c, imgs) :: by_class_append bc cname img))
      with (<[c := imgs]> (list_to_map (by_class_append bc cname img) : gmap string (list string))).
    change (list_to_map ((c, imgs) :: bc))
      with (<[c := imgs]> (list_to_map bc : gmap string (list string))).
    rewrite IH, lookup_insert_ne by done. by apply insert_insert_ne.
Qed.

Lemma by_class_append_keys (bc : list (string * list string)) (cname img : string) :
  (by_class_append bc cname img).*1
  = bc.*1 ++ (if decide (cname ∈ bc.*1) then [] else [cname]).
Proof.
  induction bc as [|[c imgs] bc IH].
  - cbn. destruct (decide (cname ∈ [])) as [Hin | _]; [| done].
    by apply elem_of_nil in Hin.
  - cbn [by_class_append]. destruct (decide (c = cname)) as [-> | Hc].
    + rewrite !fmap_cons. cbn [fst].
      destruct (decide (cname ∈ cname :: bc.*1)) as [_ | Hn].
      * by rewrite app_nil_r.
      * destruct Hn. apply list_elem_of_here.
    + rewrite !fmap_cons, IH. cbn [fst app]. f_equal. f_equal.
      destruct (decide (cname ∈ bc.*1)) as [Hin | Hn];
        destruct (decide (cname ∈ c :: bc.*1)) as [Hin' | Hn']; try done.
      * destruct Hn'. by apply list_elem_of_further.
      * apply elem_of_cons in Hin' as [-> | Hin']; done.
Qed.

Lemma group_by_class_snoc (samples : list (string * string)) (img cname : string) :
  group_by_class (samples ++ [(img, cname)])
  = by_class_append (group_by_class samples) cname img.
Proof. unfold group_by_class. by rewrite fold_left_app. Qed.

Lemma group_by_class_NoDup (samples : list (string * string)) :
  NoDup (group_by_class samples).*1.
Proof.
  induction samples as [|[img cname] samples IH] using rev_ind; [constructor |].
  rewrite group_by_class_snoc, by_class_append_keys.
  destruct (decide (cname ∈ (group_by_class samples).*1)) as [Hin | Hn].
  - by rewrite app_nil_r.
  - apply NoDup_app. split; [done |]. split; [| apply NoDup_singleton].
    intros c Hc ->%list_elem_of_singleton. done.
Qed.

Lemma images_of_class_snoc (samples : list (string * string)) (img cname c : string) :
  images_of_class (samples ++ [(img, cname)]) c
  = images_of_class samples c ++ (if decide (cname = c) then [img] else []).
Proof.
  unfold images_of_class. rewrite List.filter_app, fmap_app. f_equal.
  cbn [List.filter snd]. destruct (decide (cname = c)) as [-> | Hc].
  - by rewrite bool_decide_eq_true_2.
  - by rewrite bool_decide_eq_false_2.
Qed.

Lemma group_by_class_lookup (samples : list (string * string)) (c : string) :
  (list_to_map (group_by_class samples) : gmap string (list string)) !! c
  = match images_of_class samples c with
    | [] => None
    | imgs => Some imgs
    end.
Proof.
  induction samples as [|[img cname] samples IH] using rev_ind; [done |].
  rewrite group_by_class_snoc, by_class_append_map, images_of_class_snoc.
  destruct (decide (cname = c)) as [-> | Hc].
  - rewrite lookup_insert_eq, IH.
    destruct (images_of_class samples c) as [|im imgs]; done.
  - rewrite lookup_insert_ne, IH, app_nil_r by done. done.
Qed.

(** X10. Grouping puts every sample in one bucket per class name: no
    class has two buckets, no bucket is empty, and the bucket of a class
    holds the images of the samples of that class, in the order the
    samples were kept. A class met for the first time goes after the
    classes already there. *)
Theorem X10_one_bucket_per_class (samples : list (string * string)) :
  NoDup (group_by_class samples).*1
  ∧ (∀ c imgs, (c, imgs) ∈ group_by_class samples
               ↔ imgs = images_of_class samples c ∧ imgs ≠ [])
  ∧ (∀ img c,
       (group_by_class (samples ++ [(img, c)])).*1
       = (group_by_class samples).*1
         ++ (if decide (c ∈ (group_by_class samples).*1) then [] else [c])).
Proof.
  split; [apply group_by_class_NoDup |]. split.
  - intros c imgs.
    pose proof (elem_of_list_to_map (M:=gmap string) (group_by_class samples) c imgs
                  (group_by_class_NoDup samples)) as Hiff.
    rewrite group_by_class_lookup in Hiff. rewrite Hiff. clear Hiff.
    destruct (images_of_class samples c) as [|im l]; split.
    + done.
    + intros [-> Hne]. done.
    + intros [= <-]. done.
    + intros [-> _]. done.
  - intros img c. by rewrite group_by_class_snoc, by_class_append_keys.
Qed.

(** ** What a run does to the file tree *)

Lemma dir_prefixes_prefix (pre s p : string) :
  p ∈ dir_prefixes pre s → ∃ r, pre +:+ s = p +:+ r.
Proof.
  revert pre. induction s as [|c s IH]; intros pre; cbn [dir_prefixes].
  - intros ->%list_elem_of_singleton. exists "". done.
  - intros [Hin | Hin]%elem_of_app.
    + destruct (bool_decide (c = "/"%char) && negb (bool_decide (pre = ""))); [| by apply elem_of_nil in Hin].
      apply list_elem_of_singleton in Hin as ->. eauto.
    + apply IH in Hin as [r Hr]. exists r. rewrite <- Hr.
      by rewrite PyStrFacts.app_assoc, PyStrFacts.app_cons, PyStrFacts.app_nil_l.
Qed.

Lemma apply_copy_new (args : Args) (E : Files) (c : Copy) (p : string) :
  p ∈ apply_copy args E c →
  p ∈ E ∨ p = cp_dest c
  ∨ p ∈ dir_prefixes "" (join (output_dir args) [cp_split c; cp_class c]).
Proof. unfold apply_copy, ensure_dir. destruct (move args); set_solver. Qed.

Lemma apply_copy_kept (args : Args) (E : Files) (c : Copy) (p : string) :
  p ∈ E → p ∈ apply_copy args E c ∨ (move args = true ∧ p = cp_src c).
Proof.
  unfold apply_copy, ensure_dir.
  destruct (move args); destruct (decide (p = cp_src c)); set_solver.
Qed.

Lemma files_after_new (args : Args) (E : Files) (cs : list Copy) (p : string) :
  p ∈ files_after args E cs →
  p ∈ E ∨ ∃ c, c ∈ cs ∧ (p = cp_dest c
                         ∨ p ∈ dir_prefixes "" (join (output_dir args) [cp_split c; cp_class c])).
Proof.
  revert E. induction cs as [|c cs IH]; intros E; [by left |].
  intros [[Hp | Hp]%apply_copy_new | (c' & Hin & Hp)]%IH.
  - by left.
  - right. exists c. split; [apply list_elem_of_here | done].
  - right. exists c'. split; [by apply list_elem_of_further | done].
Qed.

Lemma files_after_kept (args : Args) (E : Files) (cs : list Copy) (p : string) :
  p ∈ E →
  p ∈ files_after args E cs ∨ (move args = true ∧ ∃ c, c ∈ cs ∧ p = cp_src c).
Proof.
  revert E. induction cs as [|c cs IH]; intros E Hp; [by left |].
  destruct (apply_copy_kept args E c p Hp) as [Hp' | [Hmv ->]].
  - destruct (IH _ Hp') as [? | (Hmv & c' & Hin & ->)]; [by left |].
    right. split; [done |]. exists c'. split; [by apply list_elem_of_further | done].
  - right. split; [done |]. exists c. split; [apply list_elem_of_here | done].
Qed.

(** X11. What a completed run leaves of the file tree. A path is there
    afterwards only if it was there before, or is the destination of a
    copy, or is a directory on the way to a class directory (a prefix of
    its path). A path that was there before is still there, unless the run
    moves files and the path is the source of a move: a run that copies
    removes nothing. *)
Theorem X11_run_touches_only_its_output `{RandomGen} (W : World) (ext_order : list string)
    (E : Files) (ambient : rng) (args : Args) (o : Output) :
  main W ext_order E ambient args = Ok o →
  (∀ p, p ∈ out_files o →
        p ∈ E ∨ ∃ c, c ∈ out_copies o
                     ∧ (p = cp_dest c
                        ∨ (p ∈ dir_prefixes "" (join (output_dir args) [cp_split c; cp_class c])
                           ∧ ∃ r, join (output_dir args) [cp_split c; cp_class c] = p +:+ r)))
  ∧ (∀ p, p ∈ E →
          p ∈ out_files o ∨ (move args = true ∧ ∃ c, c ∈ out_copies o ∧ p = cp_src c))
  ∧ (move args = false → E ⊆ out_files o).
Proof.
  intros (st & bc' & s' & _ & Hwrite & _)%main_inv.
  apply write_classes_trace in Hwrite as (Hfiles & _).
  rewrite Hfiles. split; [| split].
  - intros p [Hp | (c & Hin & [Hp | Hp])]%files_after_new; [by left | |].
    + right. exists c. split; [done |]. by left.
    + right. exists c. split; [done |]. right. split; [done |].
      apply dir_prefixes_prefix in Hp as [r Hr]. rewrite PyStrFacts.app_nil_l in Hr. eauto.
  - intros p Hp. by apply files_after_kept.
  - intros Hmv p Hp. destruct (files_after_kept args E (out_copies o) p Hp) as [? | [Hmv' _]];
      [done | congruence].
Qed.

Lemma X11_run_touches_only_its_output_witness :
  main (H:=Demo.lcg) Demo.W IMG_EXTS Demo.E 0 Demo.args = Ok Demo.output
  ∧ Demo.E ⊆ out_files Demo.output.
Proof.
  assert (main (H:=Demo.lcg) Demo.W IMG_EXTS Demo.E 0 Demo.args = Ok Demo.output) as Hmain.
  { vm_compute. reflexivity. }
  split; [exact Hmain |].
  destruct (X11_run_touches_only_its_output (H:=Demo.lcg) Demo.W IMG_EXTS Demo.E 0
              Demo.args Demo.output Hmain) as (_ & _ & Hsub).
  apply Hsub. reflexivity.
Defined.

(** ** From the samples to the copies *)

Lemma samples_of_append (bc : list (string * list string)) (cname img : string) :
  samples_of (by_class_append bc cname img) ≡ₚ samples_of bc ++ [(img, cname)].
Proof.
  induction bc as [|[c imgs] bc IH]; [done |].
  cbn [by_class_append]. destruct (decide (c = cname)) as [-> | Hc].
  - unfold samples_of. rewrite !bind_cons, fmap_app. cbn [fmap list_fmap].
    rewrite <- !app_assoc. apply Permutation_app_head. apply Permutation_app_comm.
  - unfold samples_of in *. rewrite !bind_cons, IH. by rewrite app_assoc.
Qed.

Lemma samples_of_group (samples : list (string * string)) :
  samples_of (group_by_class samples) ≡ₚ samples.
Proof.
  induction samples as [|[img cname] samples IH] using rev_ind; [done |].
  by rewrite group_by_class_snoc, samples_of_append, IH.
Qed.

Lemma split_class_partition `{RandomGen} (args : Args) (imgs : list string) (s : rng)
    (imgs' train_imgs val_imgs : list string) (s1 : rng) :
  split_class args imgs s = Ok (imgs', train_imgs, val_imgs, s1) →
  val_imgs ++ train_imgs = imgs' ∧ imgs' ≡ₚ imgs.
Proof.
  intros (-> & -> & n_val & _ & -> & ->)%split_class_inv.
  split; [apply slice_to_from | apply shuffle_perm].
Qed.

Lemma assignment_samples `{RandomGen} (args : Args) (by_class : list (string * list string))
    (s : rng) (l : list (string * string * string)) :
  assignment args by_class s = Ok l →
  (λ a, (a.2, a.1.2)) <$> l ≡ₚ samples_of by_class
  ∧ Forall (λ a, a.1.1 = "train" ∨ a.1.1 = "val") l.
Proof.
  revert s l. induction by_class as [|[cname imgs] by_class IH]; intros s l.
  - intros [= <-]. split; [done | constructor].
  - cbn [assignment].
    intros ([[[imgs' tr] va] s1] & Hsplit & (others & Hrest & [= <-])%bind_Ok_inv)%bind_Ok_inv.
    apply split_class_partition in Hsplit as [Hpart Hperm].
    apply IH in Hrest as [Hothers Hsplits]. split.
    + unfold samples_of in *. rewrite bind_cons, !fmap_app, <- !list_fmap_compose, Hothers.
      rewrite app_assoc. apply Permutation_app_tail.
      rewrite <- Hperm, <- Hpart, fmap_app. apply Permutation_app_comm.
    + rewrite !Forall_app. split; [| split; [| done]].
      * apply Forall_fmap, Forall_forall. intros im _. by left.
      * apply Forall_fmap, Forall_forall. intros im _. by right.
Qed.

(** X13. Whatever the validation fraction, as long as the run completes:
    the validation images and the train images of a class are the
    shuffled bucket cut in two, and the copies of the run are the samples
    kept, each copied once under the name of its class, to the train or
    to the validation split. *)
Theorem X13_every_sample_written_once `{RandomGen} (W : World) (ext_order : list string)
    (E : Files) (ambient : rng) (args : Args) (o : Output) :
  main W ext_order E ambient args = Ok o →
  (∃ st, (main_select W ext_order args).2 = Ok st
         ∧ sample_of <$> out_copies o ≡ₚ samples st)
  ∧ Forall (λ c, cp_split c = "train" ∨ cp_split c = "val") (out_copies o)
  ∧ (∀ imgs s shuffled train_imgs val_imgs s',
       split_class args imgs s = Ok (shuffled, train_imgs, val_imgs, s') →
       val_imgs ++ train_imgs = shuffled ∧ shuffled ≡ₚ imgs).
Proof.
  intros (st & bc' & s' & Hsel & Hwrite & _)%main_inv.
  apply write_classes_trace in Hwrite as (_ & _ & _ & Hassign & _).
  apply assignment_samples in Hassign as [Hperm Hsplits].
  split; [| split].
  - exists st. split; [by rewrite main_select_eq |].
    rewrite <- list_fmap_compose in Hperm. rewrite <- (samples_of_group (samples st)).
    rewrite <- Hperm. done.
  - apply Forall_fmap in Hsplits. eapply Forall_impl; [exact Hsplits |]. done.
  - intros imgs s shuffled tr va s1. apply split_class_partition.
Qed.

Lemma X13_every_sample_written_once_witness :
  main (H:=Demo.lcg) Demo.W IMG_EXTS Demo.E 0 Demo.args = Ok Demo.output
  ∧ sample_of <$> out_copies Demo.output ≡ₚ samples Demo.selected.
Proof.
  assert (main (H:=Demo.lcg) Demo.W IMG_EXTS Demo.E 0 Demo.args = Ok Demo.output) as Hmain.
  { vm_compute. reflexivity. }
  split; [exact Hmain |].
  destruct (X13_every_sample_written_once (H:=Demo.lcg) Demo.W IMG_EXTS Demo.E 0
              Demo.args Demo.output Hmain) as ((st & Hst & Hperm) & _).
  assert ((main_select Demo.W IMG_EXTS Demo.args).2 = Ok Demo.selected) as Hsel.
  { vm_compute. reflexivity. }
  rewrite Hsel in Hst. injection Hst as <-. exact Hperm.
Defined.

(** ** Moving instead of copying *)

Lemma sources_present_app (args : Args) (E : Files) (cs1 cs2 : list Copy) :
  sources_present args E (cs1 ++ cs2)
  ↔ sources_present args E cs1 ∧ sources_present args (files_after args E cs1) cs2.
Proof.
  revert E. induction cs1 as [|c cs1 IH]; intros E; simpl; [tauto |].
  rewrite IH. tauto.
Qed.

Lemma copy_all_sources (args : Args) (split cname : string) (imgs : list string)
    (E : Files) (t : nat) (cs : list Copy) (E' : Files) (t' : nat) :
  copy_all args split cname imgs E t = Ok (cs, E', t') →
  sources_present args E cs.
Proof.
  revert E t cs E' t'. induction imgs as [|im imgs IH]; intros E t cs E' t'.
  - intros [= <- <- <-]. done.
  - cbn [copy_all].
    intros ([dest E1] & Hc & ([[cs1 E2] t2] & Hrest & [= <- <- <-])%bind_Ok_inv)%bind_Ok_inv.
    apply copy_image_to_inv in Hc as (_ & Hsrc & HE1).
    apply IH in Hrest. cbn [sources_present]. split; [done |].
    unfold apply_copy. cbn [cp_split cp_class cp_src cp_dest]. by rewrite <- HE1.
Qed.

Lemma write_classes_sources `{RandomGen} (args : Args)
    (by_class : list (string * list string)) (s : rng)
    (E : Files) (t : nat) by_class' (cs : list Copy) (s' : rng) (E' : Files) (t' : nat) :
  write_classes args by_class s E t = Ok (by_class', cs, s', E', t') →
  sources_present args E cs.
Proof.
  revert s E t by_class' cs s' E' t'.
  induction by_class as [|[cname imgs] by_class IH]; intros s E t by_class' cs s' E' t'.
  - intros [= <- <- <- <- <-]. done.
  - cbn [write_classes].
    intros ([[[imgs' tr] va] s1] & Hsplit & Hk)%bind_Ok_inv.
    apply bind_Ok_inv in Hk as ([[cs1 E1] t1] & Htr & Hk).
    apply bind_Ok_inv in Hk as ([[cs2 E2] t2] & Hva & Hk).
    apply bind_Ok_inv in Hk as ([[[[bc' cs3] s3] E3] t3] & Hrest & [= <- <- <- <- <-]).
    pose proof (copy_all_sources _ _ _ _ _ _ _ _ _ Htr) as Hs1.
    pose proof (copy_all_sources _ _ _ _ _ _ _ _ _ Hva) as Hs2.
    apply copy_all_trace in Htr as (-> & _).
    apply copy_all_trace in Hva as (-> & _).
    apply IH in Hrest. rewrite !sources_present_app. done.
Qed.

(** A path that is gone stays gone as long as no copy makes it again. *)
Lemma moved_source_stays_away (args : Args) (E : Files) (cs : list Copy) (x : string) :
  move args = true → x ∉ E → Forall (untouched_by args x) cs →
  sources_present args E cs → x ∉ cp_src <$> cs.
Proof.
  intros Hmv. revert E. induction cs as [|c cs IH]; intros E Hx Hun Hsrc.
  - apply not_elem_of_nil.
  - apply Forall_cons in Hun as [[Hdest Hdirs] Hun]. destruct Hsrc as [Hc Hsrc].
    rewrite fmap_cons. apply not_elem_of_cons. split.
    + intros ->. unfold ensure_dir in Hc. set_solver.
    + apply (IH (apply_copy args E c)); [| done | done].
      unfold apply_copy, ensure_dir. rewrite Hmv. set_solver.
Qed.

Lemma moves_have_distinct_sources (args : Args) (E : Files) (cs : list Copy) :
  move args = true →
  Forall (λ c, Forall (untouched_by args (cp_src c)) cs) cs →
  sources_present args E cs → NoDup (cp_src <$> cs).
Proof.
  intros Hmv. revert E. induction cs as [|c cs IH]; intros E Hun Hsrc; [constructor |].
  apply Forall_cons in Hun as [Hc Hun]. apply Forall_cons in Hc as [[Hdest _] Hc].
  destruct Hsrc as [_ Hsrc]. rewrite fmap_cons. constructor.
  - apply (moved_source_stays_away args (apply_copy args E c)); [done | | done | done].
    unfold apply_copy. rewrite Hmv. set_solver.
  - apply (IH (apply_copy args E c)); [| done].
    eapply Forall_impl; [exact Hun |]. intros c' Hc'. by apply Forall_cons in Hc' as [_ ?].
Qed.

(** X12. Moving takes the source away, so that moving the same image a
    second time raises: the file is no longer found. A run that moves
    files, and none of whose sources is a path the run writes to, can
    therefore complete only if each image was selected by one label file:
    the sources of its moves are all different, and so are the images of
    the samples. *)
Theorem X12_move_takes_each_image_once `{RandomGen} (W : World) (ext_order : list string)
    (E : Files) (ambient : rng) (args : Args) (o : Output) :
  move args = true →
  main W ext_order E ambient args = Ok o →
  Forall (λ c, Forall (untouched_by args (cp_src c)) (out_copies o)) (out_copies o) →
  NoDup (cp_src <$> out_copies o)
  ∧ (∃ st, (main_select W ext_order args).2 = Ok st ∧ NoDup (samples st).*1)
  ∧ (∀ E0 out split1 cname1 split2 cname2 img dest E1,
       copy_image_to E0 out split1 cname1 img true = Ok (dest, E1) →
       img ∉ dir_prefixes "" (join out [split2; cname2]) →
       (img ∉ E1)
       ∧ copy_image_to E1 out split2 cname2 img true = Raise FileNotFoundError).
Proof.
  intros Hmv Hmain Hun.
  assert (NoDup (cp_src <$> out_copies o)) as Hnd.
  { destruct (main_inv _ _ _ _ _ _ Hmain) as (st & bc' & s' & _ & Hwrite & _).
    apply write_classes_sources in Hwrite.
    by apply (moves_have_distinct_sources args E). }
  split; [done |]. split.
  - destruct (main_inv _ _ _ _ _ _ Hmain) as (st & bc' & s' & Hsel & Hwrite & _).
    exists st. split; [by rewrite main_select_eq |].
    apply write_classes_trace in Hwrite as (_ & _ & _ & Hassign & _).
    apply assignment_samples in Hassign as [Hperm _].
    rewrite samples_of_group, <- list_fmap_compose in Hperm.
    assert ((samples st).*1 ≡ₚ cp_src <$> out_copies o) as ->; [| done].
    rewrite <- Hperm, <- list_fmap_compose. done.
  - intros E0 out split1 cname1 split2 cname2 img dest E1 Hcopy Hdirs.
    apply copy_image_to_inv in Hcopy as (Hdest & Himg & ->).
    apply choose_dest_spec in Hdest as [Hdest _].
    assert (img ∉ (ensure_dir E0 (join out [split1; cname1]) ∖ {[img]}) ∪ {[dest]}) as Hgone
      by set_solver.
    split; [done |]. unfold copy_image_to.
    destruct (choose_dest_total
                (ensure_dir ((ensure_dir E0 (join out [split1; cname1]) ∖ {[img]}) ∪ {[dest]})
                            (join out [split2; cname2]))
                (join out [split2; cname2]) img) as [d ->].
    rewrite bool_decide_eq_false_2; [done |]. unfold ensure_dir in *. set_solver.
Qed.

Lemma X12_move_takes_each_image_once_witness :
  main (H:=Demo.lcg) DemoMore.W_move IMG_EXTS DemoMore.E_move 0 DemoMore.args_move
  = Ok DemoMore.output_move
  ∧ NoDup (cp_src <$> out_copies DemoMore.output_move)
  ∧ length (out_copies DemoMore.output_move) = 2.
Proof.
  assert (main (H:=Demo.lcg) DemoMore.W_move IMG_EXTS DemoMore.E_move 0 DemoMore.args_move
          = Ok DemoMore.output_move) as Hmain.
  { vm_compute. reflexivity. }
  assert (Forall (λ c, Forall (untouched_by DemoMore.args_move (cp_src c))
                              (out_copies DemoMore.output_move))
                 (out_copies DemoMore.output_move)) as Hun.
  { unfold DemoMore.output_move; cbn [out_copies].
    repeat (apply Forall_cons; split); try apply Forall_nil; try exact I;
      (split; [discriminate |]); refine (bool_decide_unpack _ _); vm_compute; reflexivity. }
  split; [exact Hmain |].
  destruct (X12_move_takes_each_image_once (H:=Demo.lcg) DemoMore.W_move IMG_EXTS
              DemoMore.E_move 0 DemoMore.args_move DemoMore.output_move eq_refl Hmain Hun)
    as (Hnd & _).
  split; [exact Hnd |]. vm_compute. reflexivity.
Defined.

(** ** A validation fraction that is not a number *)

Lemma n_val_of_not_finite (n : nat) (f : PyFloat.float) :
  f = S754_nan ∨ (∃ sign, f = S754_infinity sign) →
  ∃ e, n_val_of n f = Raise e ∧ (e = ValueError ∨ e = OverflowError).
Proof.
  intros Hf. unfold n_val_of, PyFloat.nat_mul, PyFloat.of_nat.
  destruct (binary_normalize PyFloat.prec PyFloat.emax (Z.of_nat n) 0 false) as [sx | sx | | sx mx ex];
    cbn [mbind res_bind]; [| eauto | |];
    destruct Hf as [-> | [sign ->]]; cbn [PyFloat.mul SFmul PyFloat.to_int]; eauto.
Qed.

(** X14. With a validation fraction that is NaN or infinite, which the
    command line accepts, [int(n * val_split)] raises for every [n]. The
    run then raises at the first class, before anything is written, as
    soon as one sample was kept; with no sample kept it completes and
    writes nothing. *)
Theorem X14_fraction_not_a_number `{RandomGen} (W : World) (ext_order : list string)
    (args : Args) (st : Selection) :
  val_split args = S754_nan ∨ (∃ sign, val_split args = S754_infinity sign) →
  (main_select W ext_order args).2 = Ok st →
  (∀ n, ∃ e, n_val_of n (val_split args) = Raise e ∧ (e = ValueError ∨ e = OverflowError))
  ∧ (samples st ≠ [] →
     ∃ e, (e = ValueError ∨ e = OverflowError)
          ∧ ∀ E ambient, main W ext_order E ambient args = Raise e)
  ∧ (samples st = [] →
     ∀ E ambient, ∃ o, main W ext_order E ambient args = Ok o
                       ∧ out_copies o = [] ∧ out_files o = E ∧ out_distribution o = []).
Proof.
  intros Hf Hsel. rewrite main_select_eq in Hsel. cbn [snd] in Hsel.
  split; [intros n; by apply n_val_of_not_finite |]. split.
  - intros Hne.
    destruct (group_by_class (samples st)) as [|[cname imgs] rest] eqn:Hg.
    { pose proof (samples_of_group (samples st)) as Hperm. rewrite Hg in Hperm.
      apply Permutation_nil in Hperm. done. }
    destruct (n_val_of_not_finite (length (shuffle imgs (rng_seed (seed args))).1)
                                  (val_split args) Hf) as (e & He & Hcase).
    exists e. split; [done |]. intros E ambient. unfold main.
    rewrite main_select_eq, Hsel. cbn [mbind res_bind]. rewrite Hg.
    cbn [write_classes]. unfold split_class.
    destruct (shuffle imgs (rng_seed (seed args))) as [sh s']. cbn [fst] in He.
    rewrite He. done.
  - intros Hnil E ambient. eexists. unfold main.
    rewrite main_select_eq, Hsel. cbn [mbind res_bind]. rewrite Hnil.
    cbn [group_by_class fold_left write_classes mbind res_bind distribution]. done.
Qed.

Lemma X14_fraction_not_a_number_witness :
  ∃ e, main (H:=Demo.lcg) Demo.W IMG_EXTS Demo.E 0 DemoMore.args_nan = Raise e.
Proof.
  assert (∃ st, (main_select Demo.W IMG_EXTS DemoMore.args_nan).2 = Ok st
                ∧ samples st ≠ []) as (st & Hsel & Hne).
  { eexists. split; [vm_compute; reflexivity | discriminate]. }
  destruct (X14_fraction_not_a_number (H:=Demo.lcg) Demo.W IMG_EXTS DemoMore.args_nan st
              (or_introl eq_refl) Hsel) as (_ & Hraise & _).
  destruct (Hraise Hne) as (e & _ & He). exists e. apply He.
Defined.

(** ** The summary under force-first *)

Lemma select_step_tally_first (W : World) (ext_order : list string) (args : Args)
    (class_map : ClassMap) (st : Selection) (lf : string) (st' : Selection) :
  force_first args = true →
  select_step W ext_order args class_map st lf = Ok st' →
  length (samples st') + skipped st' + missing_image st'
  = S (length (samples st) + skipped st + missing_image st).
Proof.
  intros Hff (ids & _ & Hcase)%select_step_inv.
  destruct Hcase as [[_ ->] | [(_ & Hoff & _) | (chosen & st1 & _ & Hst1 & Hkeep)]].
  - simpl. lia.
  - congruence.
  - assert (length (samples st1) + skipped st1 + missing_image st1
            = length (samples st) + skipped st + missing_image st) as <-.
    { destruct Hst1 as [[_ ->] | (_ & _ & ->)]; done. }
    destruct Hkeep as [[_ ->] | (img & cname & _ & _ & ->)]; simpl.
    + lia.
    + rewrite length_app. simpl. lia.
Qed.

Lemma select_loop_tally_first (W : World) (ext_order : list string) (args : Args)
    (class_map : ClassMap) (lfs : list string) (st st' : Selection) :
  force_first args = true →
  select_loop W ext_order args class_map lfs st = Ok st' →
  length (samples st') + skipped st' + missing_image st'
  = length lfs + (length (samples st) + skipped st + missing_image st).
Proof.
  intros Hff. revert st. induction lfs as [|lf lfs IH]; intros st.
  - intros [= <-]. done.
  - cbn [select_loop]. intros (st1 & Hstep & Hloop)%bind_Ok_inv.
    apply IH in Hloop. apply select_step_tally_first in Hstep; [| done].
    simpl. lia.
Qed.

(** X15. Under force-first the summary still adds up, without the
    multi-label count: it is printed as 0, and a label file with several
    identifiers counts as a sample kept or as a missing image. The
    number of label files found is the number of samples kept plus the
    empty files plus the missing images, and the total of files written
    is the number of samples kept. *)
Theorem X15_summary_under_force_first `{RandomGen} (W : World) (ext_order : list string)
    (E : Files) (ambient : rng) (args : Args) (o : Output) :
  force_first args = true →
  main W ext_order E ambient args = Ok o →
  skipped_multi (out_summary o) = 0
  ∧ out_found o
    = usable (out_summary o) + skipped_empty (out_summary o) + missing_images (out_summary o)
  ∧ out_total_copied o = usable (out_summary o)
  ∧ length (out_copies o) = usable (out_summary o).
Proof.
  intros Hff (st & bc' & s' & Hsel & Hwrite & _ & Hfound & Hsum)%main_inv.
  apply select_loop_tally_first in Hsel; [| done].
  apply write_classes_trace in Hwrite as (_ & Htotal & Hlen & _).
  rewrite total_images_group in Htotal, Hlen.
  rewrite Hsum, Hfound. unfold summary. cbn [usable skipped_empty skipped_multi missing_images].
  rewrite Hff. cbn [negb]. cbn in Hsel. repeat split; lia.
Qed.

Lemma X15_summary_under_force_first_witness :
  main (H:=Demo.lcg) Demo.W IMG_EXTS Demo.E 0 Demo.args_ff = Ok Demo.output_ff
  ∧ out_found Demo.output_ff = 7
  ∧ out_total_copied Demo.output_ff = usable (out_summary Demo.output_ff).
Proof.
  assert (main (H:=Demo.lcg) Demo.W IMG_EXTS Demo.E 0 Demo.args_ff = Ok Demo.output_ff)
    as Hmain.
  { vm_compute. reflexivity. }
  split; [exact Hmain |].
  destruct (X15_summary_under_force_first (H:=Demo.lcg) Demo.W IMG_EXTS Demo.E 0
              Demo.args_ff Demo.output_ff eq_refl Hmain) as (_ & _ & Htotal & _).
  split; [| exact Htotal]. vm_compute. reflexivity.
Defined.

(** ** Class names as directory names *)

Lemma replace_char_gone (a b : ascii) (s : string) :
  a ≠ b → contains a (replace_char a b s) = false.
Proof.
  intros Hab. induction s as [|c s IH]; [done |].
  cbn [replace_char contains]. rewrite IH, orb_false_r.
  apply bool_decide_eq_false. destruct (decide (c = a)); congruence.
Qed.

Lemma resolve_class_name_no_space (class_map : ClassMap) (chosen cname : string) :
  resolve_class_name class_map chosen = Ok cname → contains " " cname = false.
Proof.
  unfold resolve_class_name. intros Hres.
  assert (∃ name, cname = replace_char " " "_" name) as [name ->].
  { repeat case_match; simplify_eq; eauto. }
  by apply replace_char_gone.
Qed.

(** X16. No class name holds a space: not the name of a sample kept,
    whatever the mapping and the label file gave, and so not the class of
    a copy or a row of the distribution table. *)
Theorem X16_class_names_hold_no_space `{RandomGen} (W : World) (ext_order : list string)
    (E : Files) (ambient : rng) (args : Args) (o : Output) :
  main W ext_order E ambient args = Ok o →
  Forall (λ c, contains " " (cp_class c) = false) (out_copies o)
  ∧ (∀ class_map chosen cname,
       resolve_class_name class_map chosen = Ok cname → contains " " cname = false).
Proof.
  intros Hmain. split; [| apply resolve_class_name_no_space].
  destruct (main_inv _ _ _ _ _ _ Hmain) as (st & bc' & s' & Hsel & Hwrite & _).
  apply write_classes_trace in Hwrite as (_ & _ & _ & Hassign & _).
  apply assignment_samples in Hassign as [Hperm _].
  rewrite samples_of_group, <- list_fmap_compose in Hperm.
  apply Forall_forall. intros c Hc.
  assert ((cp_src c, cp_class c) ∈ samples st) as Hin.
  { rewrite <- Hperm. apply list_elem_of_fmap. exists c. done. }
  destruct (select_loop_origin _ _ _ _ _ _ _ _ _ Hsel Hin) as [Hinit | Horigin].
  - by apply elem_of_nil in Hinit.
  - destruct Horigin as (lf & ids & chosen & _ & _ & _ & _ & Hres).
    by apply resolve_class_name_no_space in Hres.
Qed.

Lemma X16_class_names_hold_no_space_witness :
  main (H:=Demo.lcg) Demo.W IMG_EXTS Demo.E 0 Demo.args = Ok Demo.output
  ∧ Forall (λ c, contains " " (cp_class c) = false) (out_copies Demo.output).
Proof.
  assert (main (H:=Demo.lcg) Demo.W IMG_EXTS Demo.E 0 Demo.args = Ok Demo.output) as Hmain.
  { vm_compute. reflexivity. }
  split; [exact Hmain |].
  destruct (X16_class_names_hold_no_space (H:=Demo.lcg) Demo.W IMG_EXTS Demo.E 0
              Demo.args Demo.output Hmain) as [Hall _].
  exact Hall.
Defined.

Lemma join_absolute_last (a : string) (p : list string) (b : string) :
  startswith b "/" = true → join a (p ++ [b]) = b.
Proof.
  intros Hb. unfold join. rewrite fold_left_app. cbn [fold_left]. unfold join2.
  by rewrite Hb.
Qed.

(** X17. A class name that starts with a separator is an absolute path:
    the class directory is that path, and the image is written under it,
    wherever the output directory is. An identifier of a label file that
    starts with a separator and has no entry in the mapping is such a
    class name. *)
Theorem X17_absolute_class_name_leaves_output (class_map : ClassMap)
    (chosen cname : string) :
  startswith chosen "/" = true →
  class_map !! chosen = None →
  resolve_class_name class_map chosen = Ok cname →
  startswith cname "/" = true
  ∧ (∀ out split, join out [split; cname] = cname)
  ∧ (∀ E out split img mv dest E',
       copy_image_to E out split cname img mv = Ok (dest, E') →
       (dest = join cname [basename img]
        ∨ ∃ i, dest = suffixed cname img i)
       ∧ ∀ out', copy_image_to E out' split cname img mv = Ok (dest, E')).
Proof.
  intros Hchosen Hnone Hres.
  assert (startswith cname "/" = true) as Habs.
  { apply resolve_class_name_inv in Hres as [_ Hres]. rewrite (Hres Hnone).
    destruct chosen as [|c chosen]; [done |]. cbn [startswith] in Hchosen.
    apply andb_true_iff in Hchosen as [Hc%bool_decide_eq_true _]. subst c.
    cbn [replace_char startswith]. destruct (decide ("/"%char = " "%char)); [done |].
    rewrite bool_decide_eq_true_2 by done. by destruct (replace_char " " "_" chosen). }
  assert (∀ out split, join out [split; cname] = cname) as Hjoin.
  { intros out split. apply (join_absolute_last out [split] cname Habs). }
  split; [done |]. split; [done |].
  intros E out split img mv dest E' Hcopy. split.
  - apply copy_image_to_inv in Hcopy as (Hdest & _). rewrite Hjoin in Hdest.
    apply choose_dest_spec in Hdest as [_ [[_ ->] | (_ & i & _ & -> & _)]]; eauto.
  - intros out'. unfold copy_image_to in *. by rewrite Hjoin in *.
Qed.

Lemma X17_absolute_class_name_leaves_output_witness :
  join "output" ["train"; "/srv/data"] = "/srv/data"
  ∧ resolve_class_name ∅ "/srv/data" = Ok "/srv/data".
Proof.
  assert (resolve_class_name ∅ "/srv/data" = Ok "/srv/data") as Hres
    by (vm_compute; reflexivity).
  destruct (X17_absolute_class_name_leaves_output ∅ "/srv/data" "/srv/data"
              eq_refl (lookup_empty _) Hres) as (_ & Hjoin & _).
  split; [apply Hjoin | exact Hres].
Defined.

(** ** A label file that cannot be read *)

Lemma select_loop_unreadable (W : World) (ext_order : list string) (args : Args)
    (class_map : ClassMap) (lfs : list string) (st : Selection) (lf : string) (e : exn) :
  lf ∈ lfs → open_read W lf = Raise e →
  ∃ e', select_loop W ext_order args class_map lfs st = Raise e'.
Proof.
  intros Hin Hr. revert st. induction lfs as [|lf0 lfs IH]; intros st.
  - by apply elem_of_nil in Hin.
  - cbn [select_loop].
    destruct (select_step W ext_order args class_map st lf0) as [st1 | e1] eqn:Hstep;
      cbn [mbind res_bind]; [| eauto].
    apply elem_of_cons in Hin as [<- | Hin]; [| by apply IH].
    apply select_step_inv in Hstep as (ids & Hparse & _).
    apply parse_label_file_inv in Hparse as (content & Hr' & _). congruence.
Qed.

(** X18. Nothing in the run catches what reading a label file raises: if
    one of the label files found cannot be opened or decoded, the
    selection raises, and the run ends there, whatever the file tree
    holds, before the first copy. *)
Theorem X18_unreadable_label_file_ends_run `{RandomGen} (W : World)
    (ext_order : list string) (args : Args) (lf : string) (e : exn) :
  lf ∈ scan_labels W (labels_dir args) →
  open_read W lf = Raise e →
  ∃ e', (main_select W ext_order args).2 = Raise e'
        ∧ ∀ E ambient, main W ext_order E ambient args = Raise e'.
Proof.
  intros Hin Hr.
  destruct (select_loop_unreadable W ext_order args (load_class_mapping W (classes args)).1
              (scan_labels W (labels_dir args)) Selection_init lf e Hin Hr) as [e' He'].
  exists e'. rewrite main_select_eq. split; [done |].
  intros E ambient. unfold main. rewrite main_select_eq, He'. done.
Qed.

Lemma X18_unreadable_label_file_ends_run_witness :
  ∃ e', main (H:=Demo.lcg)
          (Demo.world [("labels", [("labels", ["a.txt"])])] [])
          IMG_EXTS ∅ 0 Demo.args = Raise e'.
Proof.
  assert ("labels/a.txt"
          ∈ scan_labels (Demo.world [("labels", [("labels", ["a.txt"])])] [])
                        (labels_dir Demo.args)) as Hin
    by (vm_compute; apply list_elem_of_here).
  destruct (X18_unreadable_label_file_ends_run (H:=Demo.lcg)
              (Demo.world [("labels", [("labels", ["a.txt"])])] []) IMG_EXTS Demo.args
              "labels/a.txt" FileNotFoundError Hin eq_refl) as (e' & _ & He').
  exists e'. apply He'.
Defined.

(** ** The distribution table *)

Lemma filter_all {A} (f : A → bool) (l : list A) :
  Forall (λ x, f x = true) l → List.filter f l = l.
Proof. induction 1 as [|x l Hx _ IH]; cbn [List.filter]; [done |]. by rewrite Hx, IH. Qed.

Lemma filter_none {A} (f : A → bool) (l : list A) :
  Forall (λ x, f x = false) l → List.filter f l = [].
Proof. induction 1 as [|x l Hx _ IH]; cbn [List.filter]; [done |]. by rewrite Hx. Qed.

Lemma copy_all_tags (args : Args) (split cname : string) (imgs : list string)
    (E : Files) (t : nat) (cs : list Copy) (E' : Files) (t' : nat) :
  copy_all args split cname imgs E t = Ok (cs, E', t') →
  Forall (λ c, cp_split c = split ∧ cp_class c = cname) cs ∧ length cs = length imgs.
Proof.
  intros (_ & _ & Hkeys & _)%copy_all_trace. split.
  - apply Forall_forall. intros c Hc.
    assert (assigned c ∈ (λ im, (split, cname, im)) <$> imgs) as Hin.
    { rewrite <- Hkeys. apply list_elem_of_fmap. eauto. }
    apply list_elem_of_fmap in Hin as (im & Heq & _). unfold assigned in Heq.
    by simplify_eq.
  - by rewrite <- (length_fmap assigned), Hkeys, length_fmap.
Qed.

Lemma copies_of_tagged (cs : list Copy) (split cname split' cname' : string) :
  Forall (λ c, cp_split c = split ∧ cp_class c = cname) cs →
  copies_of cs split' cname'
  = if decide (split = split' ∧ cname = cname') then cs else [].
Proof.
  intros Hcs. unfold copies_of. destruct (decide (split = split' ∧ cname = cname')) as [[<- <-] | Hne].
  - apply filter_all. eapply Forall_impl; [exact Hcs |]. intros c [-> ->].
    by rewrite !bool_decide_eq_true_2.
  - apply filter_none. eapply Forall_impl; [exact Hcs |]. intros c [-> ->].
    apply andb_false_iff. destruct (decide (split = split')) as [-> | Hs].
    + right. apply bool_decide_eq_false. intros ->. by apply Hne.
    + left. by apply bool_decide_eq_false.
Qed.

Lemma copies_of_other_class (cs : list Copy) (classes_ : list string) (split cname : string) :
  Forall (λ c, cp_class c ∈ classes_) cs → cname ∉ classes_ →
  copies_of cs split cname = [].
Proof.
  intros Hcs Hc. apply filter_none. eapply Forall_impl; [exact Hcs |]. intros c Hin.
  apply andb_false_iff. right. apply bool_decide_eq_false. intros <-. by apply Hc.
Qed.

Lemma copies_of_app (cs1 cs2 : list Copy) (split cname : string) :
  copies_of (cs1 ++ cs2) split cname = copies_of cs1 split cname ++ copies_of cs2 split cname.
Proof. apply List.filter_app. Qed.

Lemma distribution_rows_sum (args : Args) (by_class : list (string * list string))
    (rows : list ClassRow) :
  distribution args by_class = Ok rows →
  Forall (λ row, Z.of_nat (row_total row) = (row_train row + row_val row)%Z) rows.
Proof.
  revert rows. induction by_class as [|[cname imgs] by_class IH]; intros rows.
  - intros [= <-]. constructor.
  - cbn [distribution].
    intros (n_val & _ & (rows' & Hd & [= <-])%bind_Ok_inv)%bind_Ok_inv.
    constructor; [cbn; lia | by apply IH].
Qed.

Lemma write_classes_rows `{RandomGen} (args : Args) (by_class : list (string * list string))
    (s : rng) (E : Files) (t : nat) by_class' (cs : list Copy) (s' : rng) (E' : Files)
    (t' : nat) (rows : list ClassRow) :
  is_fraction (val_split args) →
  NoDup by_class.*1 →
  (∀ c imgs, (c, imgs) ∈ by_class → (Z.of_nat (length imgs) < 2 ^ 53)%Z) →
  write_classes args by_class s E t = Ok (by_class', cs, s', E', t') →
  distribution args by_class' = Ok rows →
  Forall (λ c, cp_class c ∈ by_class.*1) cs
  ∧ (λ r, (row_class r, row_total r)) <$> rows = (λ b, (b.1, length b.2)) <$> by_class
  ∧ Forall (λ row,
              row_val row = Z.of_nat (length (copies_of cs "val" (row_class row)))
              ∧ row_train row = Z.of_nat (length (copies_of cs "train" (row_class row)))) rows.
Proof.
  intros Hfr. revert s E t by_class' cs s' E' t' rows.
  induction by_class as [|[cname imgs] by_class IH];
    intros s E t by_class' cs s' E' t' rows Hnd Hlen.
  - intros [= <- <- <- <- <-] [= <-]. repeat split; constructor.
  - cbn [write_classes].
    destruct (split_class_in_range args imgs s Hfr) as (x & _ & Hrange & Hnval & ->).
    { apply (Hlen cname). left. }
    cbn [mbind res_bind].
    intros ([[cs1 E1] t1] & Htr & Hk)%bind_Ok_inv.
    apply bind_Ok_inv in Hk as ([[cs2 E2] t2] & Hva & Hk).
    apply bind_Ok_inv in Hk as ([[[[bc' cs3] s3] E3] t3] & Hrest & [= <- <- <- <- <-]).
    cbn [distribution]. rewrite shuffle_length, Hnval. cbn [mbind res_bind].
    intros (rows' & Hd & [= <-])%bind_Ok_inv.
    rewrite fmap_cons in Hnd. cbn [fst] in Hnd. apply NoDup_cons in Hnd as [Hfresh Hnd].
    destruct (IH _ _ _ _ _ _ _ _ _ Hnd (λ c l Hin, Hlen c l (list_elem_of_further _ _ _ Hin))
                 Hrest Hd) as (Hcls & Hkeys & Hrows).
    apply copy_all_tags in Htr as [Htag1 Hl1]. apply copy_all_tags in Hva as [Htag2 Hl2].
    rewrite length_drop, shuffle_length in Hl1. rewrite length_take, shuffle_length in Hl2.
    split; [| split].
    + rewrite fmap_cons. cbn [fst]. rewrite !Forall_app. split; [| split].
      * eapply Forall_impl; [exact Htag1 |]. intros c [_ ->]. apply list_elem_of_here.
      * eapply Forall_impl; [exact Htag2 |]. intros c [_ ->]. apply list_elem_of_here.
      * eapply Forall_impl; [exact Hcls |]. intros c Hc. by apply list_elem_of_further.
    + rewrite !fmap_cons, Hkeys. cbn [row_class row_total fst snd]. done.
    + constructor.
      * cbn [row_class row_val row_train]. rewrite !copies_of_app.
        rewrite (copies_of_tagged cs1 "train" cname "val" cname Htag1).
        rewrite (copies_of_tagged cs2 "val" cname "val" cname Htag2).
        rewrite (copies_of_tagged cs1 "train" cname "train" cname Htag1).
        rewrite (copies_of_tagged cs2 "val" cname "train" cname Htag2).
        rewrite !(copies_of_other_class cs3 by_class.*1 _ cname Hcls Hfresh).
        rewrite decide_False by (intros [? _]; done).
        rewrite decide_True by done. rewrite decide_True by done.
        rewrite decide_False by (intros [? _]; done).
        rewrite !app_nil_r. cbn [app]. split; lia.
      * apply Forall_forall. intros row Hrow.
        rewrite Forall_forall in Hrows. destruct (Hrows row Hrow) as [Hv Ht].
        assert (row_class row ≠ cname) as Hne.
        { intros Heq. apply Hfresh. rewrite <- Heq.
          assert (row_class row ∈ ((λ r, (row_class r, row_total r)) <$> rows').*1) as Hin.
          { rewrite <- list_fmap_compose. apply list_elem_of_fmap. eauto. }
          rewrite Hkeys, <- list_fmap_compose in Hin.
          apply list_elem_of_fmap in Hin as (b & -> & Hb). apply list_elem_of_fmap. eauto. }
        rewrite !copies_of_app.
        rewrite !(copies_of_tagged cs1 "train" cname _ (row_class row) Htag1).
        rewrite !(copies_of_tagged cs2 "val" cname _ (row_class row) Htag2).
        rewrite !decide_False by (intros [_ ?]; done). done.
Qed.

(** X19. For a validation fraction between 0 and 1, the distribution
    table the run prints is that of the files it wrote: one row per class,
    whose validation and train numbers are the numbers of copies made to
    the two splits of that class, and whose total is their sum; the totals
    add up to the number of files written. *)
Theorem X19_distribution_counts_the_copies `{RandomGen} (W : World)
    (ext_order : list string) (E : Files) (ambient : rng) (args : Args) (o : Output) :
  is_fraction (val_split args) →
  (Z.of_nat (out_total_copied o) < 2 ^ 53)%Z →
  main W ext_order E ambient args = Ok o →
  NoDup (row_class <$> out_distribution o)
  ∧ Forall (λ row,
              row_val row = Z.of_nat (length (copies_of (out_copies o) "val" (row_class row)))
              ∧ row_train row
                = Z.of_nat (length (copies_of (out_copies o) "train" (row_class row)))
              ∧ Z.of_nat (row_total row) = (row_train row + row_val row)%Z)
           (out_distribution o)
  ∧ sum_list (row_total <$> out_distribution o) = out_total_copied o.
Proof.
  intros Hfr Hbound. unfold main. rewrite main_select_eq.
  intros (st & Hsel & Hk)%bind_Ok_inv.
  apply bind_Ok_inv in Hk as ([[[[bc' cs] s'] E'] t'] & Hw & Hk).
  apply bind_Ok_inv in Hk as (rows & Hd & [= <-]).
  cbn [out_distribution out_copies out_total_copied] in *.
  pose proof (write_classes_trace _ _ _ _ _ _ _ _ _ _ Hw) as (_ & Ht & _).
  cbn [Nat.add] in Ht.
  assert (∀ c imgs, (c, imgs) ∈ group_by_class (samples st) →
                    (Z.of_nat (length imgs) < 2 ^ 53)%Z) as Hbuckets.
  { intros c imgs Hin. pose proof (total_images_elem _ _ _ Hin). lia. }
  destruct (write_classes_rows args (group_by_class (samples st)) (rng_seed (seed args))
              E 0 bc' cs s' E' t' rows Hfr (group_by_class_NoDup (samples st))
              Hbuckets Hw Hd) as (Hcls & Hkeys & Hrows).
  assert (row_class <$> rows = (group_by_class (samples st)).*1) as Hclasses.
  { apply (f_equal (fmap fst)) in Hkeys. by rewrite <- !list_fmap_compose in Hkeys. }
  assert (row_total <$> rows = length ∘ snd <$> group_by_class (samples st)) as Htotals.
  { apply (f_equal (fmap snd)) in Hkeys. by rewrite <- !list_fmap_compose in Hkeys. }
  split; [| split].
  - rewrite Hclasses. apply group_by_class_NoDup.
  - apply distribution_rows_sum in Hd. rewrite Forall_forall in Hrows, Hd.
    apply Forall_forall. intros row Hrow.
    destruct (Hrows row Hrow) as [Hv Ht']. split; [done |]. split; [done |]. by apply Hd.
  - rewrite Htotals, Ht. done.
Qed.

Lemma X19_distribution_counts_the_copies_witness :
  main (H:=Demo.lcg) Demo.W IMG_EXTS Demo.E 0 Demo.args = Ok Demo.output
  ∧ sum_list (row_total <$> out_distribution Demo.output) = out_total_copied Demo.output.
Proof.
  assert (main (H:=Demo.lcg) Demo.W IMG_EXTS Demo.E 0 Demo.args = Ok Demo.output) as Hmain.
  { vm_compute. reflexivity. }
  assert (is_fraction (val_split Demo.args)) as Hfr by (repeat split).
  assert (Z.of_nat (out_total_copied Demo.output) < 2 ^ 53)%Z as Hbound
    by (vm_compute; reflexivity).
  split; [exact Hmain |].
  destruct (X19_distribution_counts_the_copies (H:=Demo.lcg) Demo.W IMG_EXTS Demo.E 0
              Demo.args Demo.output Hfr Hbound Hmain) as (_ & _ & Hsum).
  exact Hsum.
Defined.

(** ** A block of numbered names *)

Lemma entry_line_facts (line : string) :
  is_entry_line line = true →
  strip (rstrip_chars LF line) ≠ "" ∧ is_names_line line = false
  ∧ is_dash_line line = false ∧ contains ":" (strip (rstrip_chars LF line)) = true
  ∧ entry_key line ≠ "".
Proof.
  unfold is_entry_line.
  intros [[[Hn%negb_true_iff Hd%negb_true_iff]%andb_true_iff Hc]%andb_true_iff
            Hk%negb_true_iff]%andb_true_iff.
  apply bool_decide_eq_false in Hk. repeat split; try done.
  intros He. rewrite He in Hc. done.
Qed.

Lemma fallback_lines_entry_block (block : list string) (mapping : gmap string string) :
  Forall (λ line, is_entry_line line = true) block →
  fallback_lines block mapping true
  = fold_left (λ m line, <[entry_key line := entry_value line]> m) block mapping.
Proof.
  intros Hblock. revert mapping.
  induction Hblock as [|line block Hline _ IH]; intros mapping; [done |].
  cbn [fallback_lines fold_left].
  destruct (entry_line_facts line Hline) as (Hne & Hn & Hd & Hc & Hk).
  unfold is_names_line, is_dash_line, entry_key, entry_value in *.
  destruct (decide (strip (rstrip_chars LF line) = "")); [done |].
  rewrite Hn, Hd, Hc.
  destruct (split_once ":" (strip (rstrip_chars LF line))) as [key val]. cbn [fst snd] in *.
  destruct (decide (strip key = "")); [done |]. apply IH.
Qed.

Lemma fold_entries_lookup (block : list string) (mapping : gmap string string) (k : string) :
  fold_left (λ m line, <[entry_key line := entry_value line]> m) block mapping !! k
  = match last_entry block k with
    | Some v => Some v
    | None => mapping !! k
    end.
Proof.
  unfold last_entry. induction block as [|line block IH] using rev_ind; [done |].
  rewrite fold_left_app, reverse_snoc. cbn [fold_left List.find].
  case_bool_decide as Hk.
  - rewrite Hk. by rewrite lookup_insert_eq.
  - by rewrite lookup_insert_ne.
Qed.

(** X20. A block of [key: value] lines under a [names:] line, the usual
    numbered form, gives each key the value, unquoted, of the last line
    that has this key, and gives nothing to a key that no line has. The
    keys are taken as they are written: nothing requires them to be
    numbers. *)
Theorem X20_fallback_numbered_block (pre block : list string) (header : string) :
  Forall (λ line, is_names_line line = false) pre →
  opens_block header = true →
  Forall (λ line, is_entry_line line = true) block →
  ∀ k, fallback_lines (pre ++ header :: block) ∅ false !! k = last_entry block k.
Proof.
  intros Hpre Hheader Hblock k.
  rewrite fallback_lines_before_names by done. cbn [fallback_lines].
  unfold opens_block, is_names_line in Hheader.
  apply andb_true_iff in Hheader as [Hnames Hb%negb_true_iff].
  destruct (decide (strip (rstrip_chars LF header) = "")) as [He | _].
  { rewrite He in Hnames. done. }
  rewrite Hnames, Hb, fallback_lines_entry_block, fold_entries_lookup, lookup_empty by done.
  by destruct (last_entry block k).
Qed.

Lemma X20_fallback_numbered_block_witness :
  fallback_lines (["nc: 2" +:+ LF] ++ ("names:" +:+ LF)
                  :: ["  0: cat" +:+ LF; "  1: 'sea bird'" +:+ LF; "  0: dog" +:+ LF])
                 ∅ false !! "0"
  = Some "dog".
Proof.
  assert (Forall (λ line, is_names_line line = false) ["nc: 2" +:+ LF]) as Hpre
    by (repeat constructor).
  assert (opens_block ("names:" +:+ LF) = true) as Hheader by (vm_compute; reflexivity).
  assert (Forall (λ line, is_entry_line line = true)
                 ["  0: cat" +:+ LF; "  1: 'sea bird'" +:+ LF; "  0: dog" +:+ LF])
    as Hblock by (repeat constructor).
  rewrite (X20_fallback_numbered_block _ _ _ Hpre Hheader Hblock "0").
  vm_compute. reflexivity.
Defined.

(** ** Where a copy goes *)













